(** * Eternal family archive: reconciliation cache, repositories and GEDCOM import

    A shallow embedding of the Supabase-backed archive store
    (hooks/useArchiveStore.ts, hooks/useGedcomImport.ts), of its
    repositories (repos/profileRepo.ts, repos/treeRepo.ts, repos/postRepo.ts,
    repos/mediaRepo.ts) and of the row mappers (lib/mappers.ts), followed by
    the properties established about them.

    Conventions.
    - A TypeScript interface is a record; an optional field ([x?: T]) and a
      nullable column ([T | null]) are both [option T], with [None] standing
      for [undefined] on the application side and for [null] on the row side.
    - A value typed [unknown] (JSONB columns, casts through [unknown[]]) is a
      JSON tree, [Json.value].
    - An [async] function is a computation in the monad [Async]: it threads
      the remote store, the trace of remote calls and the console, and ends
      in a returned value or a thrown [Error].
    - The React hook is a transition system on its state cells, together
      with the promises that are still in flight. *)

From Stdlib Require Import ZArith Lia Ascii String List Decimal DecimalPos DecimalZ.
From stdpp Require Import base option list strings gmap.
From Equations Require Import Equations.

#[local] Set Warnings "-register-all".


(* ===================================================================== *)
(** * Part I. Definitions                                                 *)
(* ===================================================================== *)

(** ** JSON values and [JSON.stringify] *)

Module Json.

(** Numbers are kept to the integers. *)
Inductive value : Type :=
| JNull
| JBool (b : bool)
| JNum (z : Z)
| JStr (s : string)
| JArr (vs : list value)
| JObj (members : list (string * value)).

Definition chars (s : string) : list ascii := list_ascii_of_string s.

Definition dquote : ascii := Eval cbv in ascii_of_nat 34.
Definition backslash : ascii := Eval cbv in ascii_of_nat 92.

Definition hex_digit (n : N) : ascii :=
  nth (N.to_nat n) (chars "0123456789abcdef") "0"%char.

(** QuoteJSONString: the two-character escapes, [\u00xx] for the other
    control characters, every other code unit unchanged. *)
Definition escape_char (c : ascii) : list ascii :=
  let n := N_of_ascii c in
  if (n =? 34)%N then [backslash; dquote]
  else if (n =? 92)%N then [backslash; backslash]
  else if (n =? 8)%N then [backslash; "b"%char]
  else if (n =? 9)%N then [backslash; "t"%char]
  else if (n =? 10)%N then [backslash; "n"%char]
  else if (n =? 12)%N then [backslash; "f"%char]
  else if (n =? 13)%N then [backslash; "r"%char]
  else if (n <? 32)%N then
    [backslash; "u"%char; "0"%char; "0"%char; hex_digit (n / 16); hex_digit (n mod 16)]
  else [c].

Definition quote (s : string) : list ascii :=
  dquote :: flat_map escape_char (chars s) ++ [dquote].

Fixpoint print_uint (d : Decimal.uint) : list ascii :=
  match d with
  | Nil => []
  | D0 d => "0"%char :: print_uint d
  | D1 d => "1"%char :: print_uint d
  | D2 d => "2"%char :: print_uint d
  | D3 d => "3"%char :: print_uint d
  | D4 d => "4"%char :: print_uint d
  | D5 d => "5"%char :: print_uint d
  | D6 d => "6"%char :: print_uint d
  | D7 d => "7"%char :: print_uint d
  | D8 d => "8"%char :: print_uint d
  | D9 d => "9"%char :: print_uint d
  end.

Definition print_Z (z : Z) : list ascii :=
  match z with
  | Z0 => ["0"%char]
  | Zpos p => print_uint (Pos.to_uint p)
  | Zneg p => "-"%char :: print_uint (Pos.to_uint p)
  end.

(** [xs.join(",")] on already printed pieces. *)
Fixpoint join (pieces : list (list ascii)) : list ascii :=
  match pieces with
  | [] => []
  | [p] => p
  | p :: rest => p ++ ","%char :: join rest
  end.

Fixpoint print (v : value) : list ascii :=
  match v with
  | JNull => chars "null"
  | JBool true => chars "true"
  | JBool false => chars "false"
  | JNum z => print_Z z
  | JStr s => quote s
  | JArr vs => "["%char :: join (map print vs) ++ ["]"%char]
  | JObj ms =>
      "{"%char
        :: join (map (fun m => quote (fst m) ++ ":"%char :: print (snd m)) ms)
        ++ ["}"%char]
  end.

Definition stringify (v : value) : string := string_of_list_ascii (print v).

(** A key whose value is [undefined] is left out of the object. *)
Definition field (key : string) (v : option value) : list (string * value) :=
  match v with
  | Some j => [(key, j)]
  | None => []
  end.

Definition strings (l : list string) : value := JArr (map JStr l).

End Json.

Import Json.

(** ** Reading JSON text back

    What is needed to tell printed values apart: the value of a hex digit,
    the decoding of one escaped character, and the kind of value that a
    first character announces. *)

Module JsonRead.

Definition is_digit (c : ascii) : bool :=
  ((48 <=? N_of_ascii c) && (N_of_ascii c <=? 57))%N.

(** What may follow a printed value: nothing, or a character that is not
    a digit. *)
Definition delimited (r : list ascii) : Prop :=
  match r with
  | [] => True
  | c :: _ => is_digit c = false
  end.

Definition hex_value (c : ascii) : N :=
  let n := N_of_ascii c in
  if (n <? 58)%N then (n - 48)%N else (n - 87)%N.

Definition unescape_char (input : list ascii) : option (ascii * list ascii) :=
  match input with
  | [] => None
  | c :: rest =>
      if Ascii.eqb c backslash then
        match rest with
        | [] => None
        | d :: rest' =>
            if Ascii.eqb d "u"%char then
              match rest' with
              | _ :: _ :: h1 :: h2 :: rest'' =>
                  Some (ascii_of_N (16 * hex_value h1 + hex_value h2), rest'')
              | _ => None
              end
            else if Ascii.eqb d "b"%char then Some (ascii_of_N 8, rest')
            else if Ascii.eqb d "t"%char then Some (ascii_of_N 9, rest')
            else if Ascii.eqb d "n"%char then Some (ascii_of_N 10, rest')
            else if Ascii.eqb d "f"%char then Some (ascii_of_N 12, rest')
            else if Ascii.eqb d "r"%char then Some (ascii_of_N 13, rest')
            else Some (d, rest')
        end
      else Some (c, rest)
  end.

Inductive kind : Type := KNull | KBool | KNum | KStr | KArr | KObj.

Definition kindOf (v : Json.value) : kind :=
  match v with
  | JNull => KNull
  | JBool _ => KBool
  | JNum _ => KNum
  | JStr _ => KStr
  | JArr _ => KArr
  | JObj _ => KObj
  end.

Definition kindOfHead (c : ascii) : option kind :=
  if Ascii.eqb c "n"%char then Some KNull
  else if Ascii.eqb c "t"%char || Ascii.eqb c "f"%char then Some KBool
  else if is_digit c || Ascii.eqb c "-"%char then Some KNum
  else if Ascii.eqb c dquote then Some KStr
  else if Ascii.eqb c "["%char then Some KArr
  else if Ascii.eqb c "{"%char then Some KObj
  else None.

(** The pieces after the first one, each behind its comma. *)
Fixpoint join_rest (pieces : list (list ascii)) : list ascii :=
  match pieces with
  | [] => []
  | p :: rest => ","%char :: p ++ join_rest rest
  end.

(** The printer [f] tells [a] apart from every other value, whatever
    delimited text follows. *)
Definition told_apart {A} (f : A → list ascii) (a : A) : Prop :=
  ∀ a' r r', f a ++ r = f a' ++ r' → delimited r → delimited r' → a = a' ∧ r = r'.

End JsonRead.

(** Decimal rendering of a number inside a template literal. *)
Definition show_Z (z : Z) : string := string_of_list_ascii (print_Z z).

Definition show_nat (n : nat) : string := show_Z (Z.of_nat n).

(** ** Application types (types.ts) and row types (lib/database.types.ts)

    The declarations of [Profile], [FamilyTree], [CirclePost] and [MediaItem]
    are read off the object literals that the mappers build; [LifeEvent],
    [Memory] and [CircleAttachment] only ever pass through casts from
    [unknown[]], so they are JSON trees here. *)

Inductive GenderCodeEnum : Type := GenderM | GenderF | GenderU.

#[global] Instance GenderCodeEnum_eq_dec : EqDecision GenderCodeEnum.
Proof. solve_decision. Defined.

Record HistoricalContext : Type := {
  hc_text : string;
  hc_sources : list Json.value
}.

Record Profile : Type := {
  id : string;
  userId : string;
  name : string;
  gender : option GenderCodeEnum;
  birthYear : string;
  deathYear : option string;
  imageUrl : string;
  summary : string;
  historicalContext : option HistoricalContext;
  isMemorial : bool;
  parentIds : list string;
  childIds : list string;
  spouseIds : list string;
  timeline : list Json.value;
  memories : list Json.value;
  sources : list string
}.

(** [ProfileInsert = Omit<ProfileRow, 'created_at' | 'updated_at'>]: the row
    is the inserted columns plus the two timestamps the database adds. *)
Record ProfileInsert : Type := {
  pi_id : string;
  pi_user_id : string;
  pi_tree_id : option string;
  pi_name : string;
  pi_gender : option GenderCodeEnum;
  pi_birth_year : option string;
  pi_death_year : option string;
  pi_image_url : option string;
  pi_summary : option string;
  pi_historical_context : option HistoricalContext;
  pi_is_memorial : bool;
  pi_parent_ids : list string;
  pi_child_ids : list string;
  pi_spouse_ids : list string;
  pi_timeline : list Json.value;
  pi_memories : list Json.value;
  pi_sources : list string
}.

Record ProfileRow : Type := {
  pr_cols : ProfileInsert;
  pr_created_at : string;
  pr_updated_at : string
}.

Record FamilyTree : Type := {
  ft_id : string;
  ft_userId : string;
  ft_name : string;
  ft_createdAt : string;
  ft_homePersonId : string;
  ft_memberIds : list string
}.

Record TreeInsert : Type := {
  ti_id : string;
  ti_user_id : string;
  ti_name : string;
  ti_home_person_id : option string;
  ti_member_ids : list string
}.

Record TreeRow : Type := {
  tr_cols : TreeInsert;
  tr_created_at : string;
  tr_updated_at : string
}.

Record CirclePost : Type := {
  cp_id : string;
  cp_userId : string;
  cp_createdAt : string;
  cp_authorLabel : string;
  cp_body : string;
  cp_attachments : list Json.value;
  cp_taggedProfileIds : list string
}.

Record PostInsert : Type := {
  po_id : string;
  po_user_id : string;
  po_author_label : string;
  po_body : string;
  po_attachments : list Json.value
}.

Record PostRow : Type := {
  por_cols : PostInsert;
  por_created_at : string;
  por_updated_at : string
}.

Record PostPersonRow : Type := {
  pp_post_id : string;
  pp_profile_id : string;
  pp_user_id : string
}.

(** ** lib/mappers.ts *)

Module Mappers.

(** [s || null] on a string: the empty string is falsy. *)
Definition or_null (s : string) : option string :=
  if decide (s = "") then None else Some s.

(** [s || null] on an optional string. *)
Definition opt_or_null (s : option string) : option string :=
  match s with
  | Some s => or_null s
  | None => None
  end.

Definition rowToTree (row : TreeRow) : FamilyTree :=
  {| ft_id := ti_id (tr_cols row);
     ft_userId := ti_user_id (tr_cols row);
     ft_name := ti_name (tr_cols row);
     ft_createdAt := tr_created_at row;
     ft_homePersonId := default "" (ti_home_person_id (tr_cols row));
     ft_memberIds := ti_member_ids (tr_cols row) |}.

Definition treeToInsert (t : FamilyTree) : TreeInsert :=
  {| ti_id := ft_id t;
     ti_user_id := ft_userId t;
     ti_name := ft_name t;
     ti_home_person_id := or_null (ft_homePersonId t);
     ti_member_ids := ft_memberIds t |}.

Definition rowToProfile (row : ProfileRow) : Profile :=
  let c := pr_cols row in
  {| id := pi_id c;
     userId := pi_user_id c;
     name := pi_name c;
     gender := pi_gender c;
     birthYear := default "" (pi_birth_year c);
     deathYear := pi_death_year c;
     imageUrl := default "" (pi_image_url c);
     summary := default "" (pi_summary c);
     historicalContext := pi_historical_context c;
     isMemorial := pi_is_memorial c;
     parentIds := pi_parent_ids c;
     childIds := pi_child_ids c;
     spouseIds := pi_spouse_ids c;
     timeline := pi_timeline c;
     memories := pi_memories c;
     sources := pi_sources c |}.

Definition profileToInsert (p : Profile) (treeId : option string) : ProfileInsert :=
  {| pi_id := id p;
     pi_user_id := userId p;
     pi_tree_id := treeId;
     pi_name := name p;
     pi_gender := gender p;
     pi_birth_year := or_null (birthYear p);
     pi_death_year := opt_or_null (deathYear p);
     pi_image_url := or_null (imageUrl p);
     pi_summary := or_null (summary p);
     pi_historical_context := historicalContext p;
     pi_is_memorial := isMemorial p;
     pi_parent_ids := parentIds p;
     pi_child_ids := childIds p;
     pi_spouse_ids := spouseIds p;
     pi_timeline := timeline p;
     pi_memories := memories p;
     pi_sources := sources p |}.

Definition rowToPost (row : PostRow) (taggedProfileIds : list string) : CirclePost :=
  {| cp_id := po_id (por_cols row);
     cp_userId := po_user_id (por_cols row);
     cp_createdAt := por_created_at row;
     cp_authorLabel := po_author_label (por_cols row);
     cp_body := po_body (por_cols row);
     cp_attachments := po_attachments (por_cols row);
     cp_taggedProfileIds := taggedProfileIds |}.

Definition postToInsert (p : CirclePost) : PostInsert :=
  {| po_id := cp_id p;
     po_user_id := cp_userId p;
     po_author_label := cp_authorLabel p;
     po_body := cp_body p;
     po_attachments := cp_attachments p |}.

(** The row the database holds for an inserted profile. *)
Definition storedProfileRow (cols : ProfileInsert) (created updated : string) : ProfileRow :=
  {| pr_cols := cols; pr_created_at := created; pr_updated_at := updated |}.

End Mappers.

Import Mappers.

(** ** The Supabase client and asynchronous computations *)

Record PostgrestError : Type := { message : string }.

(** [{ data, error }]: exactly one of the two is set. *)
Inductive Response (A : Type) : Type :=
| Success (data : A)
| Failure (error : PostgrestError).
Arguments Success {A} data.
Arguments Failure {A} error.

Definition failed {A : Type} (r : Response A) : bool :=
  match r with
  | Success _ => false
  | Failure _ => true
  end.

(** [.order(column, { ascending })] *)
Record OrderBy : Type := { ob_column : string; ob_ascending : bool }.

(** The patch object that [updateTree] sends. *)
Record TreeUpdate : Type := {
  tu_home_person_id : option string;
  tu_member_ids : option (list string);
  tu_name : option string
}.

Inductive MediaKindEnum : Type := KindPhoto | KindVideo | KindAudio | KindDocument.

(** What the repository reads of a browser [File]. *)
Record File : Type := { file_name : string; file_type : string; file_size : Z }.

(** The object literal handed to [from('media').insert]. *)
Record MediaInsert : Type := {
  mi_user_id : string;
  mi_name : string;
  mi_kind : MediaKindEnum;
  mi_storage_path : string;
  mi_public_url : option string;
  mi_mime : option string;
  mi_size : Z
}.

Record MediaRow : Type := {
  mr_id : string;
  mr_user_id : string;
  mr_name : string;
  mr_kind : MediaKindEnum;
  mr_storage_path : string;
  mr_public_url : option string;
  mr_mime : option string;
  mr_size : option Z;
  mr_created_at : string;
  mr_updated_at : string
}.

Record MediaPersonRow : Type := {
  mp_media_id : string;
  mp_profile_id : string;
  mp_user_id : string
}.

Record MediaItem : Type := {
  m_id : string;
  m_name : string;
  m_kind : MediaKindEnum;
  m_url : string;
  m_mime : option string;
  m_size : option Z;
  m_createdAt : string
}.

(** A post row with its nested [post_people ( profile_id )] selection. *)
Record PostWithPeople : Type := {
  pwp_row : PostRow;
  pwp_post_people : list string
}.

(** One constructor per query the repositories build. *)
Inductive Request : Type :=
| TreesInsertSingle (row : TreeInsert)
| TreesSelect (columns : string) (order : OrderBy)
| TreesUpdate (patch : TreeUpdate) (eq_id : string)
| ProfilesUpsertSingle (row : ProfileInsert) (onConflict : string)
| ProfilesUpsert (rows : list ProfileInsert) (onConflict : string)
| ProfilesSelect (columns : string) (eqs : list (string * string)) (order : OrderBy)
| ProfilesDelete (eq_id : string)
| PostsInsertSingle (row : PostInsert)
| PostPeopleInsert (rows : list PostPersonRow)
| PostsSelect (columns : string) (order : OrderBy)
| PostsDelete (eq_id : string)
| StorageUpload (bucket path : string) (file : File) (contentType : string) (upsert : bool)
| StorageRemove (bucket : string) (paths : list string)
| MediaInsertSingle (row : MediaInsert)
| MediaPeopleInsert (rows : list MediaPersonRow)
| StorageCreateSignedUrl (bucket path : string) (expiresIn : nat).

Definition Data (r : Request) : Type :=
  match r with
  | TreesInsertSingle _ => TreeRow
  | TreesSelect _ _ => list TreeRow
  | TreesUpdate _ _ => unit
  | ProfilesUpsertSingle _ _ => ProfileRow
  | ProfilesUpsert _ _ => list ProfileRow
  | ProfilesSelect _ _ _ => list ProfileRow
  | ProfilesDelete _ => unit
  | PostsInsertSingle _ => PostRow
  | PostPeopleInsert _ => unit
  | PostsSelect _ _ => list PostWithPeople
  | PostsDelete _ => unit
  | StorageUpload _ _ _ _ _ => unit
  | StorageRemove _ _ => unit
  | MediaInsertSingle _ => MediaRow
  | MediaPeopleInsert _ => unit
  | StorageCreateSignedUrl _ _ _ => string
  end.

(** The remote store: any state machine answering the requests. *)
Definition Remote (Σ : Type) : Type := ∀ r : Request, Σ → Response (Data r) * Σ.

(** An entry of the trace: the request and whether it was answered with an
    error. *)
Record Entry : Type := { request : Request; rejected : bool }.

Record World (Σ : Type) : Type := {
  remote : Σ;
  trace : list Entry;
  console : list string;
  clock : Z
}.
Arguments remote {Σ} w.
Arguments trace {Σ} w.
Arguments console {Σ} w.
Arguments clock {Σ} w.

Inductive Outcome (A : Type) : Type :=
| Returned (a : A)
| Thrown (error : string).
Arguments Returned {A} a.
Arguments Thrown {A} error.

Definition Async (Σ A : Type) : Type := World Σ → Outcome A * World Σ.

Module AsyncM.

Definition ret {Σ A} (a : A) : Async Σ A := fun w => (Returned a, w).

Definition throw {Σ A} (e : string) : Async Σ A := fun w => (Thrown e, w).

Definition bind {Σ A B} (m : Async Σ A) (k : A → Async Σ B) : Async Σ B :=
  fun w =>
    match m w with
    | (Returned a, w') => k a w'
    | (Thrown e, w') => (Thrown e, w')
    end.

(** [m.catch(handler)] *)
Definition catch {Σ A} (m : Async Σ A) (handler : string → Async Σ A) : Async Σ A :=
  fun w =>
    match m w with
    | (Returned a, w') => (Returned a, w')
    | (Thrown e, w') => handler e w'
    end.

(** The request reaches the remote store and is recorded in the trace. *)
Definition send {Σ} (sb : Remote Σ) (r : Request) (w : World Σ)
    : Response (Data r) * World Σ :=
  let (reply, σ) := sb r (remote w) in
  (reply,
   {| remote := σ;
      trace := trace w ++ [{| request := r; rejected := failed reply |}];
      console := console w;
      clock := clock w |}).

(** [await supabase...]: the client resolves with [{ data, error }], it
    does not reject. *)
Definition perform {Σ} (sb : Remote Σ) (r : Request) : Async Σ (Response (Data r)) :=
  fun w => let (reply, w') := send sb r w in (Returned reply, w').

Definition console_error {Σ} (line : string) : Async Σ unit :=
  fun w =>
    (Returned tt,
     {| remote := remote w; trace := trace w;
        console := console w ++ [line]; clock := clock w |}).

(** [Date.now()] *)
Definition now {Σ} : Async Σ Z := fun w => (Returned (clock w), w).

End AsyncM.

Import AsyncM.

Notation "'let*' x ':=' m 'in' k" := (bind m (fun x => k))
  (at level 10, x name, m at level 100, k at level 200).

(** [xs.slice(start, end)] for [start <= end]. *)
Definition slice {A} (xs : list A) (start stop : nat) : list A :=
  take (stop - start) (drop start xs).

(** ** repos/profileRepo.ts *)

Section ProfileRepo.
Context {Σ : Type} (sb : Remote Σ).

Definition upsertProfile (profile : Profile) (treeId : option string) : Async Σ Profile :=
  let* reply := perform sb (ProfilesUpsertSingle (profileToInsert profile treeId) "id") in
  match reply with
  | Failure error => throw ("upsertProfile: " +:+ message error)
  | Success data => ret (rowToProfile data)
  end.

Definition CHUNK : nat := 200.

(** The body of [upsertProfiles], from the loop test on: [i] is the loop
    variable and [results] the accumulator. *)
Equations upsertProfiles_from (profiles : list Profile) (treeId : option string)
    (i : nat) (results : list Profile) (w : World Σ)
    : Outcome (list Profile) * World Σ by wf (length profiles - i) lt :=
  upsertProfiles_from profiles treeId i results w with decide (i < length profiles) := {
    | right _ => (Returned results, w)
    | left _ with
        send sb
          (ProfilesUpsert
             (map (fun p => profileToInsert p treeId) (slice profiles i (i + CHUNK))) "id") w := {
        | (Failure error, w') =>
            (Thrown ("upsertProfiles (chunk " +:+ show_nat i +:+ "): " +:+ message error), w')
        | (Success data, w') =>
            upsertProfiles_from profiles treeId (i + CHUNK)
              (results ++ map rowToProfile data) w' } }.
Next Obligation. unfold CHUNK. lia. Qed.

Definition upsertProfiles (profiles : list Profile) (treeId : option string)
    : Async Σ (list Profile) :=
  upsertProfiles_from profiles treeId 0 [].

(** [if (treeId)]: an absent or empty tree id adds no filter. *)
Definition listProfiles (treeId : option string) : Async Σ (list Profile) :=
  let eqs :=
    match treeId with
    | Some t => if decide (t = "") then [] else [("tree_id", t)]
    | None => []
    end in
  let* reply :=
    perform sb (ProfilesSelect "*" eqs {| ob_column := "name"; ob_ascending := true |}) in
  match reply with
  | Failure error => throw ("listProfiles: " +:+ message error)
  | Success data => ret (map rowToProfile data)
  end.

Definition deleteProfile (profileId : string) : Async Σ unit :=
  let* reply := perform sb (ProfilesDelete profileId) in
  match reply with
  | Failure error => throw ("deleteProfile: " +:+ message error)
  | Success _ => ret tt
  end.

End ProfileRepo.

(** ** repos/treeRepo.ts *)

Section TreeRepo.
Context {Σ : Type} (sb : Remote Σ).

Definition createTree (tree : FamilyTree) : Async Σ FamilyTree :=
  let* reply := perform sb (TreesInsertSingle (treeToInsert tree)) in
  match reply with
  | Failure error => throw ("createTree: " +:+ message error)
  | Success data => ret (rowToTree data)
  end.

Definition listTrees : Async Σ (list FamilyTree) :=
  let* reply :=
    perform sb (TreesSelect "*" {| ob_column := "created_at"; ob_ascending := false |}) in
  match reply with
  | Failure error => throw ("listTrees: " +:+ message error)
  | Success data => ret (map rowToTree data)
  end.

(** The [patch] argument of [updateTree]: each key may be left out. *)
Record TreePatch : Type := {
  patch_homePersonId : option string;
  patch_memberIds : option (list string);
  patch_name : option string
}.

Definition updateTree (tree_id : string) (patch : TreePatch) : Async Σ unit :=
  let update :=
    {| tu_home_person_id := patch_homePersonId patch;
       tu_member_ids := patch_memberIds patch;
       tu_name := patch_name patch |} in
  let* reply := perform sb (TreesUpdate update tree_id) in
  match reply with
  | Failure error => throw ("updateTree: " +:+ message error)
  | Success _ => ret tt
  end.

End TreeRepo.

(** ** repos/postRepo.ts *)

Section PostRepo.
Context {Σ : Type} (sb : Remote Σ).

Definition createPost (post : CirclePost) : Async Σ CirclePost :=
  let* reply := perform sb (PostsInsertSingle (postToInsert post)) in
  match reply with
  | Failure error => throw ("createPost: " +:+ message error)
  | Success data =>
      let* _ :=
        if decide (0 < length (cp_taggedProfileIds post)) then
          let mentions :=
            map (fun profileId =>
                   {| pp_post_id := po_id (por_cols data);
                      pp_profile_id := profileId;
                      pp_user_id := cp_userId post |})
                (cp_taggedProfileIds post) in
          let* mentionReply := perform sb (PostPeopleInsert mentions) in
          match mentionReply with
          | Failure mentionError =>
              console_error ("createPost mentions insert failed: " +:+ message mentionError)
          | Success _ => ret tt
          end
        else ret tt in
      ret (rowToPost data (cp_taggedProfileIds post))
  end.

Definition listPosts : Async Σ (list CirclePost) :=
  let* reply :=
    perform sb
      (PostsSelect "*, post_people ( profile_id )"
         {| ob_column := "created_at"; ob_ascending := false |}) in
  match reply with
  | Failure error => throw ("listPosts: " +:+ message error)
  | Success data => ret (map (fun row => rowToPost (pwp_row row) (pwp_post_people row)) data)
  end.

Definition deletePost (postId : string) : Async Σ unit :=
  let* reply := perform sb (PostsDelete postId) in
  match reply with
  | Failure error => throw ("deletePost: " +:+ message error)
  | Success _ => ret tt
  end.

End PostRepo.

(** ** repos/mediaRepo.ts *)

Section MediaRepo.
Context {Σ : Type} (sb : Remote Σ).

Definition BUCKET : string := "media".
Definition SIGNED_URL_EXPIRY_SECONDS : nat := 60 * 60.

Definition rowToMediaItem (row : MediaRow) (signedUrl : string) : MediaItem :=
  {| m_id := mr_id row;
     m_name := mr_name row;
     m_kind := mr_kind row;
     m_url := signedUrl;
     m_mime := mr_mime row;
     m_size := mr_size row;
     m_createdAt := mr_created_at row |}.

Record UploadMediaOptions : Type := {
  opt_userId : string;
  opt_file : File;
  opt_taggedProfileIds : option (list string)
}.

(** The character class [a-zA-Z0-9._-]. *)
Definition safe_char (c : ascii) : bool :=
  let n := N_of_ascii c in
  ((97 <=? n) && (n <=? 122) || (65 <=? n) && (n <=? 90) || (48 <=? n) && (n <=? 57)
   || (n =? 46) || (n =? 95) || (n =? 45))%N.

(** [name.replace(/[^a-zA-Z0-9._-]/g, '_')] *)
Fixpoint sanitise (s : string) : string :=
  match s with
  | EmptyString => EmptyString
  | String c rest => String (if safe_char c then c else "_"%char) (sanitise rest)
  end.

Definition inferKind (mimeType : string) : MediaKindEnum :=
  if String.prefix "image/" mimeType then KindPhoto
  else if String.prefix "video/" mimeType then KindVideo
  else if String.prefix "audio/" mimeType then KindAudio
  else KindDocument.

Definition getSignedUrl (storagePath : string) : Async Σ string :=
  let* reply :=
    perform sb (StorageCreateSignedUrl BUCKET storagePath SIGNED_URL_EXPIRY_SECONDS) in
  match reply with
  | Failure error => throw ("getSignedUrl: " +:+ message error)
  | Success signedUrl =>
      if decide (signedUrl = "") then throw "getSignedUrl: no URL returned"
      else ret signedUrl
  end.

Definition uploadMedia (opts : UploadMediaOptions) : Async Σ MediaItem :=
  let userId := opt_userId opts in
  let file := opt_file opts in
  let taggedProfileIds := default [] (opt_taggedProfileIds opts) in
  let safeName := sanitise (file_name file) in
  let* millis := now in
  let storagePath := userId +:+ "/" +:+ show_Z millis +:+ "-" +:+ safeName in
  let* uploadReply :=
    perform sb
      (StorageUpload BUCKET storagePath file
         (if decide (file_type file = "") then "application/octet-stream" else file_type file)
         false) in
  match uploadReply with
  | Failure uploadError => throw ("uploadMedia storage: " +:+ message uploadError)
  | Success _ =>
      let kind := inferKind (file_type file) in
      let* insertReply :=
        perform sb
          (MediaInsertSingle
             {| mi_user_id := userId;
                mi_name := file_name file;
                mi_kind := kind;
                mi_storage_path := storagePath;
                mi_public_url := None;
                mi_mime := or_null (file_type file);
                mi_size := file_size file |}) in
      match insertReply with
      | Failure insertError =>
          let* _ := perform sb (StorageRemove BUCKET [storagePath]) in
          throw ("uploadMedia insert: " +:+ message insertError)
      | Success row =>
          let* _ :=
            if decide (0 < length taggedProfileIds) then
              let tags :=
                map (fun profileId =>
                       {| mp_media_id := mr_id row;
                          mp_profile_id := profileId;
                          mp_user_id := userId |})
                    taggedProfileIds in
              let* tagReply := perform sb (MediaPeopleInsert tags) in
              match tagReply with
              | Failure tagError =>
                  console_error ("uploadMedia tagging failed: " +:+ message tagError)
              | Success _ => ret tt
              end
            else ret tt in
          let* signedUrl := getSignedUrl storagePath in
          ret (rowToMediaItem row signedUrl)
      end
  end.

End MediaRepo.

(** ** [JSON.stringify] of the application objects

    [JSON.stringify] prints the keys of an object in the object's own
    insertion order and skips a key whose value is [undefined]. *)

Definition genderJson (g : GenderCodeEnum) : Json.value :=
  JStr match g with GenderM => "M" | GenderF => "F" | GenderU => "U" end.

Definition historicalContextJson (h : HistoricalContext) : Json.value :=
  JObj [("text", JStr (hc_text h)); ("sources", JArr (hc_sources h))].

(** The keys of a [Profile]. *)
Inductive ProfileKey : Type :=
| key_id | key_userId | key_name | key_gender | key_birthYear | key_deathYear
| key_imageUrl | key_summary | key_historicalContext | key_isMemorial
| key_parentIds | key_childIds | key_spouseIds | key_timeline | key_memories
| key_sources.

#[global] Instance ProfileKey_eq_dec : EqDecision ProfileKey.
Proof. solve_decision. Defined.

(** A profile as it sits in memory: the values of its fields, and its own
    keys in the order in which they were inserted. Two objects with the same
    field values may hold their keys in different orders. *)
Record ProfileObject : Type := {
  fields :> Profile;
  keys : list ProfileKey
}.

(** [(p) => p.id] on the objects of a collection. *)
Abbreviation idOf := (fun p : ProfileObject => id p).

(** What [JSON.stringify] prints for one key of a profile: nothing when the
    value is [undefined]. *)
Definition memberJson (p : Profile) (k : ProfileKey) : list (string * Json.value) :=
  match k with
  | key_id => [("id", JStr (id p))]
  | key_userId => [("userId", JStr (userId p))]
  | key_name => [("name", JStr (name p))]
  | key_gender => field "gender" (genderJson <$> gender p)
  | key_birthYear => [("birthYear", JStr (birthYear p))]
  | key_deathYear => field "deathYear" (JStr <$> deathYear p)
  | key_imageUrl => [("imageUrl", JStr (imageUrl p))]
  | key_summary => [("summary", JStr (summary p))]
  | key_historicalContext =>
      field "historicalContext" (historicalContextJson <$> historicalContext p)
  | key_isMemorial => [("isMemorial", JBool (isMemorial p))]
  | key_parentIds => [("parentIds", strings (parentIds p))]
  | key_childIds => [("childIds", strings (childIds p))]
  | key_spouseIds => [("spouseIds", strings (spouseIds p))]
  | key_timeline => [("timeline", JArr (timeline p))]
  | key_memories => [("memories", JArr (memories p))]
  | key_sources => [("sources", strings (sources p))]
  end.

Definition profileJson (o : ProfileObject) : Json.value :=
  JObj (flat_map (memberJson o) (keys o)).

(** The keys of the object literal that [rowToProfile] returns, and the
    object it builds from the values. *)
Definition literalKeys : list ProfileKey :=
  [key_id; key_userId; key_name; key_gender; key_birthYear; key_deathYear;
   key_imageUrl; key_summary; key_historicalContext; key_isMemorial;
   key_parentIds; key_childIds; key_spouseIds; key_timeline; key_memories;
   key_sources].

Definition literal (p : Profile) : ProfileObject :=
  {| fields := p; keys := literalKeys |}.



(** Trees are printed with the keys of [rowToTree]'s literal. *)
Definition familyTreeJson (t : FamilyTree) : Json.value :=
  JObj
    [("id", JStr (ft_id t)); ("userId", JStr (ft_userId t)); ("name", JStr (ft_name t));
     ("createdAt", JStr (ft_createdAt t)); ("homePersonId", JStr (ft_homePersonId t));
     ("memberIds", strings (ft_memberIds t))].

(** ** utils/assertAuthenticated.ts *)

Record User : Type := {
  u_id : string;
  u_email : string;
  u_name : string;
  u_createdAt : string
}.

(** [true] when the guard passes, [false] when it throws
    [AuthenticationError]: [!user || !user.id]. *)
Definition assertAuthenticated (user : option User) : bool :=
  match user with
  | Some u => if decide (u_id u = "") then false else true
  | None => false
  end.

(** ** hooks/useArchiveStore.ts *)

(** [SetStateAction<T>]: a new value or an updater. *)
Inductive SetStateAction (A : Type) : Type :=
| NewValue (v : A)
| Updater (f : A → A).
Arguments NewValue {A} v.
Arguments Updater {A} f.

Definition resolve {A} (valueOrUpdater : SetStateAction A) (prev : A) : A :=
  match valueOrUpdater with
  | NewValue v => v
  | Updater f => f prev
  end.

(** [Partial<CirclePost>] *)
Record CirclePostPatch : Type := {
  cpp_id : option string;
  cpp_userId : option string;
  cpp_createdAt : option string;
  cpp_authorLabel : option string;
  cpp_body : option string;
  cpp_attachments : option (list Json.value);
  cpp_taggedProfileIds : option (list string)
}.

Module ArchiveStore.

(** The [useState] cells and the ref of the hook. *)
Record State : Type := {
  profiles : list ProfileObject;
  familyTrees : list FamilyTree;
  circlePosts : list CirclePost;
  activeProfileId : option string;
  selectedTreeId : option string;
  treeViewId : option string;
  isLoading : bool;
  error : option string;
  prevProfilesRef : list ProfileObject
}.

Definition initialState : State :=
  {| profiles := []; familyTrees := []; circlePosts := [];
     activeProfileId := None; selectedTreeId := None; treeViewId := None;
     isLoading := false; error := None; prevProfilesRef := [] |}.

Definition setProfilesRaw (v : list ProfileObject) (s : State) : State :=
  {| profiles := v; familyTrees := familyTrees s; circlePosts := circlePosts s;
     activeProfileId := activeProfileId s; selectedTreeId := selectedTreeId s;
     treeViewId := treeViewId s; isLoading := isLoading s; error := error s;
     prevProfilesRef := prevProfilesRef s |}.

Definition setFamilyTreesRaw (v : list FamilyTree) (s : State) : State :=
  {| profiles := profiles s; familyTrees := v; circlePosts := circlePosts s;
     activeProfileId := activeProfileId s; selectedTreeId := selectedTreeId s;
     treeViewId := treeViewId s; isLoading := isLoading s; error := error s;
     prevProfilesRef := prevProfilesRef s |}.

Definition setCirclePostsRaw (v : list CirclePost) (s : State) : State :=
  {| profiles := profiles s; familyTrees := familyTrees s; circlePosts := v;
     activeProfileId := activeProfileId s; selectedTreeId := selectedTreeId s;
     treeViewId := treeViewId s; isLoading := isLoading s; error := error s;
     prevProfilesRef := prevProfilesRef s |}.

Definition setActiveProfileId (v : option string) (s : State) : State :=
  {| profiles := profiles s; familyTrees := familyTrees s; circlePosts := circlePosts s;
     activeProfileId := v; selectedTreeId := selectedTreeId s;
     treeViewId := treeViewId s; isLoading := isLoading s; error := error s;
     prevProfilesRef := prevProfilesRef s |}.

Definition setSelectedTreeId (v : option string) (s : State) : State :=
  {| profiles := profiles s; familyTrees := familyTrees s; circlePosts := circlePosts s;
     activeProfileId := activeProfileId s; selectedTreeId := v;
     treeViewId := treeViewId s; isLoading := isLoading s; error := error s;
     prevProfilesRef := prevProfilesRef s |}.

Definition setTreeViewId (v : option string) (s : State) : State :=
  {| profiles := profiles s; familyTrees := familyTrees s; circlePosts := circlePosts s;
     activeProfileId := activeProfileId s; selectedTreeId := selectedTreeId s;
     treeViewId := v; isLoading := isLoading s; error := error s;
     prevProfilesRef := prevProfilesRef s |}.

Definition setIsLoading (v : bool) (s : State) : State :=
  {| profiles := profiles s; familyTrees := familyTrees s; circlePosts := circlePosts s;
     activeProfileId := activeProfileId s; selectedTreeId := selectedTreeId s;
     treeViewId := treeViewId s; isLoading := v; error := error s;
     prevProfilesRef := prevProfilesRef s |}.

Definition setError (v : option string) (s : State) : State :=
  {| profiles := profiles s; familyTrees := familyTrees s; circlePosts := circlePosts s;
     activeProfileId := activeProfileId s; selectedTreeId := selectedTreeId s;
     treeViewId := treeViewId s; isLoading := isLoading s; error := v;
     prevProfilesRef := prevProfilesRef s |}.

Definition setPrevProfilesRef (v : list ProfileObject) (s : State) : State :=
  {| profiles := profiles s; familyTrees := familyTrees s; circlePosts := circlePosts s;
     activeProfileId := activeProfileId s; selectedTreeId := selectedTreeId s;
     treeViewId := treeViewId s; isLoading := isLoading s; error := error s;
     prevProfilesRef := v |}.

(** A promise the hook has started and that has not settled yet, with
    what its handlers close over. *)
Inductive Promise : Type :=
| InitialLoad (cancelled : bool)
| UpsertProfilesPush (toUpsert : list ProfileObject)
| CreateTreePush (tree : FamilyTree)
| UpdateTreePush (tree_id : string) (patch : TreePatch)
| CreatePostPush (post : CirclePost)
| DeletePostPush (post_id : string)
| DeleteProfilePush (profileId : string).

Record Hook : Type := {
  user : option User;
  state : State;
  inflight : list Promise
}.

Definition withState (f : State → State) (h : Hook) : Hook :=
  {| user := user h; state := f (state h); inflight := inflight h |}.

Definition spawn (ps : list Promise) (h : Hook) : Hook :=
  {| user := user h; state := state h; inflight := inflight h ++ ps |}.

(** The cleanup of the load effect: [cancelled = true]. *)
Definition cancel (p : Promise) : Promise :=
  match p with
  | InitialLoad _ => InitialLoad true
  | _ => p
  end.

(** [useEffect(..., [user])]: the cleanup of the previous run, then the
    body with the new user. *)
Definition userChanged (u : option User) (h : Hook) : Hook :=
  let pending := map cancel (inflight h) in
  match u with
  | None =>
      {| user := None;
         state :=
           setTreeViewId None (setSelectedTreeId None (setActiveProfileId None
             (setCirclePostsRaw [] (setFamilyTreesRaw [] (setProfilesRaw [] (state h))))));
         inflight := pending |}
  | Some _ =>
      {| user := u;
         state := setError None (setIsLoading true (state h));
         inflight := pending ++ [InitialLoad false] |}
  end.

(** [new Map(prev.map((p) => [p.id, p]))]: a later entry replaces an
    earlier one with the same key. *)
Definition prevById (prev : list ProfileObject) : gmap string ProfileObject :=
  foldl (fun m (p : ProfileObject) => <[id p := p]> m) ∅ prev.

Definition changedProfile (prev : list ProfileObject) (p : ProfileObject) : bool :=
  match prevById prev !! id p with
  | None => true
  | Some old =>
      negb (bool_decide (stringify (profileJson old) = stringify (profileJson p)))
  end.

Definition setProfiles (valueOrUpdater : SetStateAction (list ProfileObject)) (h : Hook)
    : Hook :=
  let prev := profiles (state h) in
  let next := resolve valueOrUpdater prev in
  let toUpsert := filter (fun p => changedProfile prev p = true) next in
  let pushes :=
    if decide (0 < length toUpsert) then [UpsertProfilesPush toUpsert] else [] in
  spawn pushes (withState (fun s => setProfilesRaw next (setPrevProfilesRef next s)) h).

(** The body of [next.forEach] in [setFamilyTrees]. *)
Definition treePush (prev : list FamilyTree) (tree : FamilyTree) : list Promise :=
  let prevIds : gset string := list_to_set (map ft_id prev) in
  if decide (ft_id tree ∈ prevIds) then
    match List.find (fun t => bool_decide (ft_id t = ft_id tree)) prev with
    | Some old =>
        if decide (stringify (familyTreeJson old) = stringify (familyTreeJson tree))
        then []
        else [UpdateTreePush (ft_id tree)
                {| patch_homePersonId := Some (ft_homePersonId tree);
                   patch_memberIds := Some (ft_memberIds tree);
                   patch_name := Some (ft_name tree) |}]
    | None => []
    end
  else [CreateTreePush tree].

Definition setFamilyTrees (valueOrUpdater : SetStateAction (list FamilyTree)) (h : Hook)
    : Hook :=
  let prev := familyTrees (state h) in
  let next := resolve valueOrUpdater prev in
  spawn (flat_map (treePush prev) next) (withState (setFamilyTreesRaw next) h).

Definition addCirclePost (post : CirclePost) (h : Hook) : Hook :=
  spawn [CreatePostPush post]
    (withState (fun s => setCirclePostsRaw (post :: circlePosts s) s) h).

Definition withoutPost (post_id : string) (posts : list CirclePost) : list CirclePost :=
  filter (fun p => cp_id p ≠ post_id) posts.

Definition deleteCirclePost (post_id : string) (h : Hook) : Hook :=
  spawn [DeletePostPush post_id]
    (withState (fun s => setCirclePostsRaw (withoutPost post_id (circlePosts s)) s) h).

(** [{ ...p, ...patch }] *)
Definition applyPatch (patch : CirclePostPatch) (p : CirclePost) : CirclePost :=
  {| cp_id := default (cp_id p) (cpp_id patch);
     cp_userId := default (cp_userId p) (cpp_userId patch);
     cp_createdAt := default (cp_createdAt p) (cpp_createdAt patch);
     cp_authorLabel := default (cp_authorLabel p) (cpp_authorLabel patch);
     cp_body := default (cp_body p) (cpp_body patch);
     cp_attachments := default (cp_attachments p) (cpp_attachments patch);
     cp_taggedProfileIds := default (cp_taggedProfileIds p) (cpp_taggedProfileIds patch) |}.

Definition updateCirclePost (post_id : string) (patch : CirclePostPatch) (h : Hook) : Hook :=
  withState
    (fun s =>
       setCirclePostsRaw
         (map (fun p => if decide (cp_id p = post_id) then applyPatch patch p else p)
              (circlePosts s)) s) h.

Definition clearAll (h : Hook) : Hook :=
  withState
    (fun s =>
       setPrevProfilesRef [] (setTreeViewId None (setSelectedTreeId None
         (setActiveProfileId None (setCirclePostsRaw [] (setFamilyTreesRaw []
           (setProfilesRaw [] s))))))) h.

Definition deleteProfileById (profileId : string) (h : Hook) : Hook :=
  spawn [DeleteProfilePush profileId] h.

Section Settle.
Context {Σ : Type} (sb : Remote Σ).

(** [console.error(label, err)] *)
Definition logFailure (label e : string) (w : World Σ) : World Σ :=
  snd (console_error (label +:+ " " +:+ e) w).

(** [Promise.all([listTrees(), listProfiles(), listPosts()])]: the three
    requests are all sent; the promise rejects when one of them does,
    here with the error of the first in the array. *)
Definition loadAll : Async Σ (list FamilyTree * list Profile * list CirclePost) :=
  fun w =>
    let (trees, w1) := listTrees sb w in
    let (profs, w2) := listProfiles sb None w1 in
    let (posts, w3) := listPosts sb w2 in
    match trees, profs, posts with
    | Returned t, Returned p, Returned c => (Returned (t, p, c), w3)
    | Thrown e, _, _ => (Thrown e, w3)
    | _, Thrown e, _ => (Thrown e, w3)
    | _, _, Thrown e => (Thrown e, w3)
    end.

(** What the handlers attached to a promise do to the state cells once
    it settles. The profiles of a load are the objects that [rowToProfile]
    built, with the keys of its literal; [upsertProfiles] reads the fields of
    the objects it is given. *)
Definition settle (p : Promise) (s : State) (w : World Σ) : State * World Σ :=
  match p with
  | InitialLoad cancelled =>
      match loadAll w with
      | (Returned (trees, profs, posts), w') =>
          if cancelled then (s, w')
          else
            (setIsLoading false
               (setCirclePostsRaw posts
                  (setProfilesRaw (map literal profs) (setFamilyTreesRaw trees s))),
             w')
      | (Thrown msg, w') =>
          if cancelled then (s, w')
          else
            (setIsLoading false (setError (Some msg) s),
             logFailure "[useArchiveStore] initial load failed:" msg w')
      end
  | UpsertProfilesPush toUpsert =>
      match upsertProfiles sb (map fields toUpsert) None w with
      | (Returned _, w') => (s, w')
      | (Thrown err, w') => (s, logFailure "[useArchiveStore] upsertProfiles failed:" err w')
      end
  | CreateTreePush tree =>
      match createTree sb tree w with
      | (Returned _, w') => (s, w')
      | (Thrown err, w') => (s, logFailure "[useArchiveStore] createTree failed:" err w')
      end
  | UpdateTreePush tree_id patch =>
      match updateTree sb tree_id patch w with
      | (Returned _, w') => (s, w')
      | (Thrown err, w') => (s, logFailure "[useArchiveStore] updateTree failed:" err w')
      end
  | CreatePostPush post =>
      match createPost sb post w with
      | (Returned _, w') => (s, w')
      | (Thrown err, w') =>
          (setCirclePostsRaw (withoutPost (cp_id post) (circlePosts s)) s,
           logFailure "[useArchiveStore] createPost failed:" err w')
      end
  | DeletePostPush post_id =>
      match deletePost sb post_id w with
      | (Returned _, w') => (s, w')
      | (Thrown err, w') => (s, logFailure "[useArchiveStore] deletePost failed:" err w')
      end
  | DeleteProfilePush profileId =>
      match deleteProfile sb profileId w with
      | (Returned _, w') => (s, w')
      | (Thrown err, w') => (s, logFailure "[useArchiveStore] deleteProfile failed:" err w')
      end
  end.

(** The promise at position [i] of the in-flight list settles. *)
Definition settleAt (i : nat) (hw : Hook * World Σ) : Hook * World Σ :=
  let (h, w) := hw in
  match inflight h !! i with
  | Some p =>
      let (s', w') := settle p (state h) w in
      ({| user := user h; state := s'; inflight := delete i (inflight h) |}, w')
  | None => (h, w)
  end.

End Settle.

End ArchiveStore.

(** Promises settling one after another, each named by its position in the
    in-flight list at that moment. *)
Definition settleAll {Σ : Type} (sb : Remote Σ) (positions : list nat)
    (hw : ArchiveStore.Hook * World Σ) : ArchiveStore.Hook * World Σ :=
  foldl (fun hw i => ArchiveStore.settleAt sb i hw) hw positions.

(** ** hooks/useGedcomImport.ts *)

Inductive AppView : Type := SPLASH | LOGIN | HOME | SELECT_HOME.

Module GedcomImport.

(** What [parseGedcom] returns and [pendingImport] holds. *)
Record Imported : Type := {
  importedProfiles : list ProfileObject;
  tree : FamilyTree
}.

(** The import hook next to the store it is wired to: [user],
    [setProfiles], [setFamilyTrees], [setSelectedTreeId] and
    [setActiveProfileId] are those of [store]. *)
Record App : Type := {
  store : ArchiveStore.Hook;
  pendingImport : option Imported;
  view : AppView;
  toasts : list string
}.

Definition toast (m : string) (app : App) : App :=
  {| store := store app; pendingImport := pendingImport app; view := view app;
     toasts := toasts app ++ [m] |}.

(** The updater that [chooseHome] hands to [setProfiles]. *)
Definition mergeImported (imported : list ProfileObject) (prev : list ProfileObject)
    : list ProfileObject :=
  let existingIds : gset string := list_to_set (map idOf prev) in
  prev ++ filter (fun p : ProfileObject => id p ∉ existingIds) imported.

(** [{ ...pendingImport.tree, homePersonId: selected.id, name: ... }] *)
Definition updatedTree (pending : Imported) (selected : Profile) : FamilyTree :=
  {| ft_id := ft_id (tree pending);
     ft_userId := ft_userId (tree pending);
     ft_name := "The " +:+ name selected +:+ " Archive";
     ft_createdAt := ft_createdAt (tree pending);
     ft_homePersonId := id selected;
     ft_memberIds := ft_memberIds (tree pending) |}.

Definition chooseHome (selected : ProfileObject) (app : App) : App :=
  if assertAuthenticated (ArchiveStore.user (store app)) then
    match pendingImport app with
    | None => app
    | Some pending =>
        let h1 :=
          ArchiveStore.setProfiles
            (Updater (mergeImported (importedProfiles pending))) (store app) in
        let h2 :=
          ArchiveStore.setFamilyTrees
            (Updater (fun prev => updatedTree pending selected :: prev)) h1 in
        let h3 :=
          ArchiveStore.withState
            (fun s =>
               ArchiveStore.setActiveProfileId (Some (id selected))
                 (ArchiveStore.setSelectedTreeId
                    (Some (ft_id (updatedTree pending selected))) s)) h2 in
        {| store := h3; pendingImport := None; view := HOME;
           toasts := toasts app ++ ["Archive successfully imported"] |}
    end
  else toast "Please sign in to complete the import." app.

(** [handleGedcomUpload], with the text that the [FileReader] delivers for
    each chosen file and the parser it calls. *)
Definition handleGedcomUpload {Σ : Type}
    (parseGedcom : string → string → nat → Outcome Imported)
    (files : list string) (app : App) (w : World Σ) : App * World Σ :=
  match ArchiveStore.user (store app) with
  | Some u =>
      if assertAuthenticated (Some u) then
        match files with
        | [] => (app, w)
        | text :: _ =>
            match parseGedcom text (u_id u) 4 with
            | Returned result =>
                ({| store := store app;
                    pendingImport := Some result;
                    view := SELECT_HOME;
                    toasts :=
                      toasts app
                        ++ ["Loaded " +:+ show_nat (length (importedProfiles result))
                              +:+ " family members"] |},
                 w)
            | Thrown err => (toast "Error parsing GEDCOM" app, snd (console_error err w))
            end
        end
      else (toast "Please sign in to import a family archive." app, w)
  | None => (toast "Please sign in to import a family archive." app, w)
  end.

(** The tree invariant of the data model: a home person that is set is a
    member. The empty string is the unset [homePersonId]. *)
Definition homeIsMember (t : FamilyTree) : Prop :=
  ft_homePersonId t ≠ "" → ft_homePersonId t ∈ ft_memberIds t.

End GedcomImport.

(** ** utils/gedcom.ts

    The parser that [handleGedcomUpload] calls is not among the sources; the
    definitions of this module follow sections 4.1 to 4.3 of the
    specification. *)

Module Gedcom.

(** Modelled from the spec: the tuple the Record Tokenizer of utils/gedcom.ts
    emits for a physical line, "(level: integer, tag: string, value: string,
    optional cross-reference id)". *)
Record Token : Type := {
  level : nat;
  xref : option string;
  tag : string;
  value : string
}.

Definition is_space (c : ascii) : bool := Ascii.eqb c " "%char.

Fixpoint span (keep : ascii → bool) (l : list ascii) : list ascii * list ascii :=
  match l with
  | [] => ([], [])
  | c :: rest =>
      if keep c then let (taken, left) := span keep rest in (c :: taken, left)
      else ([], l)
  end.

Definition skip_spaces (l : list ascii) : list ascii := snd (span is_space l).

Definition digit_value (c : ascii) : nat := N.to_nat (N_of_ascii c) - 48.

Definition number (digits : list ascii) : nat :=
  foldl (fun n c => 10 * n + digit_value c) 0 digits.

(** Physical lines: the text cut at line feeds, carriage returns dropped. *)
Fixpoint lines_from (current : list ascii) (text : list ascii) : list (list ascii) :=
  match text with
  | [] => [rev current]
  | c :: rest =>
      if Ascii.eqb c (ascii_of_nat 10) then rev current :: lines_from [] rest
      else if Ascii.eqb c (ascii_of_nat 13) then lines_from current rest
      else lines_from (c :: current) rest
  end.

(** Modelled from the spec: the line reader of the Record Tokenizer of
    utils/gedcom.ts; a line is a level, an optional [@id@], a tag and the
    rest as value, and "malformed lines (missing level or tag) are
    skipped". *)
Definition tokenize_line (line : list ascii) : option Token :=
  let (digits, after_level) := span JsonRead.is_digit (skip_spaces line) in
  match digits with
  | [] => None
  | _ =>
      let rest := skip_spaces after_level in
      let (pointer, after_pointer) :=
        match rest with
        | c :: rest' =>
            if Ascii.eqb c "@"%char then
              let (ident, closing) := span (fun c => negb (Ascii.eqb c "@"%char)) rest' in
              (Some (string_of_list_ascii ident), skip_spaces (drop 1 closing))
            else (None, rest)
        | [] => (None, rest)
        end in
      let (name, after_tag) := span (fun c => negb (is_space c)) after_pointer in
      match name with
      | [] => None
      | _ =>
          Some {| level := number digits;
                  xref := pointer;
                  tag := string_of_list_ascii name;
                  value := string_of_list_ascii (drop 1 after_tag) |}
      end
  end.

(** Modelled from the spec: the Record Tokenizer of utils/gedcom.ts, "a
    sequence of tuples, one per physical line, in file order". *)
Definition tokenize (text : string) : list Token :=
  omap tokenize_line (lines_from [] (list_ascii_of_string text)).

(** Modelled from the spec: the Individual record of the Record Graph
    Builder of utils/gedcom.ts, "(name, sex, birth/death events, place)". *)
Record Individual : Type := {
  i_xref : string;
  i_name : string;
  i_sex : option GenderCodeEnum;
  i_birth : string;
  i_death : option string;
  i_place : string
}.

(** Modelled from the spec: the Family record of the Record Graph Builder of
    utils/gedcom.ts, "(spouse pair, child list, marriage event)". *)
Record Family : Type := {
  f_xref : string;
  f_husband : option string;
  f_wife : option string;
  f_children : list string;
  f_marriage : string
}.

Inductive Open : Type :=
| NoRecord
| OpenIndividual (i : Individual)
| OpenFamily (f : Family).

Inductive Event : Type := NoEvent | Birth | Death | Marriage.

Record Builder : Type := {
  individuals : list Individual;
  families : list Family;
  current : Open;
  event : Event
}.

(** [@I1@] as a value names the record [I1]. *)
Definition pointee (v : string) : string :=
  string_of_list_ascii
    (filter (fun c => c ≠ "@"%char) (list_ascii_of_string v)).

Definition sexOf (v : string) : option GenderCodeEnum :=
  if decide (v = "M") then Some GenderM
  else if decide (v = "F") then Some GenderF
  else if decide (v = "U") then Some GenderU
  else None.

(** The record under construction is closed and filed. *)
Definition close (b : Builder) : Builder :=
  match current b with
  | NoRecord => b
  | OpenIndividual i =>
      {| individuals := individuals b ++ [i]; families := families b;
         current := NoRecord; event := NoEvent |}
  | OpenFamily f =>
      {| individuals := individuals b; families := families b ++ [f];
         current := NoRecord; event := NoEvent |}
  end.

(** A level-0 line with a cross-reference id and the tag [INDI]. *)
Definition opensIndividual (t : Token) : bool :=
  bool_decide (level t = 0) && bool_decide (is_Some (xref t)) && bool_decide (tag t = "INDI").

Definition header (t : Token) : Open :=
  match xref t with
  | Some x =>
      if decide (tag t = "INDI") then
        OpenIndividual
          {| i_xref := x; i_name := ""; i_sex := None; i_birth := ""; i_death := None;
             i_place := "" |}
      else if decide (tag t = "FAM") then
        OpenFamily
          {| f_xref := x; f_husband := None; f_wife := None; f_children := [];
             f_marriage := "" |}
      else NoRecord
  | None => NoRecord
  end.

Definition inIndividual (t : Token) (ev : Event) (i : Individual) : Individual * Event :=
  if decide (level t = 1) then
    if decide (tag t = "NAME") then
      ({| i_xref := i_xref i; i_name := value t; i_sex := i_sex i; i_birth := i_birth i;
          i_death := i_death i; i_place := i_place i |}, NoEvent)
    else if decide (tag t = "SEX") then
      ({| i_xref := i_xref i; i_name := i_name i; i_sex := sexOf (value t);
          i_birth := i_birth i; i_death := i_death i; i_place := i_place i |}, NoEvent)
    else if decide (tag t = "BIRT") then (i, Birth)
    else if decide (tag t = "DEAT") then
      ({| i_xref := i_xref i; i_name := i_name i; i_sex := i_sex i; i_birth := i_birth i;
          i_death := Some (default "" (i_death i)); i_place := i_place i |}, Death)
    else (i, NoEvent)
  else if decide (tag t = "DATE") then
    match ev with
    | Birth =>
        ({| i_xref := i_xref i; i_name := i_name i; i_sex := i_sex i; i_birth := value t;
            i_death := i_death i; i_place := i_place i |}, ev)
    | Death =>
        ({| i_xref := i_xref i; i_name := i_name i; i_sex := i_sex i; i_birth := i_birth i;
            i_death := Some (value t); i_place := i_place i |}, ev)
    | _ => (i, ev)
    end
  else if decide (tag t = "PLAC") then
    ({| i_xref := i_xref i; i_name := i_name i; i_sex := i_sex i; i_birth := i_birth i;
        i_death := i_death i; i_place := value t |}, ev)
  else (i, ev).

Definition inFamily (t : Token) (ev : Event) (f : Family) : Family * Event :=
  if decide (level t = 1) then
    if decide (tag t = "HUSB") then
      ({| f_xref := f_xref f; f_husband := Some (pointee (value t)); f_wife := f_wife f;
          f_children := f_children f; f_marriage := f_marriage f |}, NoEvent)
    else if decide (tag t = "WIFE") then
      ({| f_xref := f_xref f; f_husband := f_husband f; f_wife := Some (pointee (value t));
          f_children := f_children f; f_marriage := f_marriage f |}, NoEvent)
    else if decide (tag t = "CHIL") then
      ({| f_xref := f_xref f; f_husband := f_husband f; f_wife := f_wife f;
          f_children := f_children f ++ [pointee (value t)];
          f_marriage := f_marriage f |}, NoEvent)
    else if decide (tag t = "MARR") then (f, Marriage)
    else (f, NoEvent)
  else if decide (tag t = "DATE") then
    match ev with
    | Marriage =>
        ({| f_xref := f_xref f; f_husband := f_husband f; f_wife := f_wife f;
            f_children := f_children f; f_marriage := value t |}, ev)
    | _ => (f, ev)
    end
  else (f, ev).

Definition feed (b : Builder) (t : Token) : Builder :=
  if decide (level t = 0) then
    let b' := close b in
    {| individuals := individuals b'; families := families b';
       current := header t; event := NoEvent |}
  else
    match current b with
    | NoRecord => b
    | OpenIndividual i =>
        let (i', ev) := inIndividual t (event b) i in
        {| individuals := individuals b; families := families b;
           current := OpenIndividual i'; event := ev |}
    | OpenFamily f =>
        let (f', ev) := inFamily t (event b) f in
        {| individuals := individuals b; families := families b;
           current := OpenFamily f'; event := ev |}
    end.

(** Individual records filed or under construction. *)
Definition individualCount (b : Builder) : nat :=
  length (individuals b)
  + match current b with OpenIndividual _ => 1 | _ => 0 end.

(** Modelled from the spec: the Record Graph Builder of utils/gedcom.ts,
    which "consumes the tokenizer's sequence and groups by cross-reference
    id into two record kinds". *)
Definition build (tokens : list Token) : Builder :=
  close
    (foldl feed
       {| individuals := []; families := []; current := NoRecord; event := NoEvent |}
       tokens).

Definition known (b : Builder) (x : string) : bool :=
  bool_decide (x ∈ map i_xref (individuals b)).

Definition spousePair (f : Family) : list string :=
  option_list (f_husband f) ++ option_list (f_wife f).

(** Modelled from the spec: the linkage the Import Engine of utils/gedcom.ts
    reads off the Family records, "with missing link ends simply omitted
    from the relevant id-set". *)
Definition parentsOf (b : Builder) (x : string) : list string :=
  filter (fun y => known b y = true)
    (flat_map (fun f => if bool_decide (x ∈ f_children f) then spousePair f else [])
       (families b)).

Definition childrenOf (b : Builder) (x : string) : list string :=
  filter (fun y => known b y = true)
    (flat_map (fun f => if bool_decide (x ∈ spousePair f) then f_children f else [])
       (families b)).

Definition spousesOf (b : Builder) (x : string) : list string :=
  filter (fun y => known b y = true)
    (flat_map
       (fun f =>
          if bool_decide (x ∈ spousePair f)
          then filter (fun y => y ≠ x) (spousePair f) else [])
       (families b)).

(** Modelled from the spec: the traversal of the Import Engine of
    utils/gedcom.ts, "a breadth-first expansion over parent/child/spouse
    edges, incrementing a generation counter only when crossing a
    parent/child edge"; an individual reached twice is visited once. *)
Fixpoint expand (b : Builder) (maxGenerations : nat) (fuel : nat)
    (queue : list (string * nat)) (visited : list string) : list string :=
  match fuel with
  | 0 => visited
  | S fuel' =>
      match queue with
      | [] => visited
      | (x, generation) :: rest =>
          if bool_decide (x ∈ visited) then expand b maxGenerations fuel' rest visited
          else
            let beside := map (fun y => (y, generation)) (spousesOf b x) in
            let across :=
              if decide (generation < maxGenerations) then
                map (fun y => (y, S generation)) (parentsOf b x ++ childrenOf b x)
              else [] in
            expand b maxGenerations fuel' (rest ++ beside ++ across) (visited ++ [x])
      end
  end.

(** One step for the start and one for every link end that can be queued. *)
Definition enoughFuel (b : Builder) : nat :=
  S (length (individuals b)
     + list_sum
         (map (fun i =>
                 length (spousesOf b (i_xref i)) + length (parentsOf b (i_xref i))
                 + length (childrenOf b (i_xref i)))
              (individuals b))).

(** Modelled from the spec: the conversion of a visited individual of
    utils/gedcom.ts "into a Person with relationship id-sets built from the
    Family-record linkage, and tagged with ownerId". *)
Definition toProfile (b : Builder) (ownerId : string) (i : Individual) : Profile :=
  {| id := i_xref i;
     userId := ownerId;
     name := i_name i;
     gender := i_sex i;
     birthYear := i_birth i;
     deathYear := i_death i;
     imageUrl := "";
     summary := "";
     historicalContext := None;
     isMemorial := bool_decide (is_Some (i_death i));
     parentIds := parentsOf b (i_xref i);
     childIds := childrenOf b (i_xref i);
     spouseIds := spousesOf b (i_xref i);
     timeline := [];
     memories := [];
     sources := [] |}.

(** What the specification leaves to the environment when "a fresh Tree is
    created": its id, its provisional name and its creation time. *)
Record Fresh : Type := {
  fresh_id : string;
  fresh_name : string;
  fresh_createdAt : string
}.

Definition ParseError : string := "ParseError: no individual records".

(** Modelled from the spec: [parseGedcom] of utils/gedcom.ts, the Import
    Engine's [import(text, ownerId, maxGenerations)]; it "fails with
    ParseError when the text contains zero Individual records", starts from
    the "first Individual record encountered", and creates a tree "with
    memberIds equal to all visited Person ids and homePersonId left
    unset".  The specification does not say in which order
    the imported objects hold their keys; they are given the order of
    [rowToProfile]'s literal. *)
Definition parseGedcom (fresh : Fresh) (text ownerId : string) (maxGenerations : nat)
    : Outcome GedcomImport.Imported :=
  let b := build (tokenize text) in
  match individuals b with
  | [] => Thrown ParseError
  | start :: _ =>
      let visited := expand b maxGenerations (enoughFuel b) [(i_xref start, 0)] [] in
      let people :=
        omap (fun x =>
                (fun i => literal (toProfile b ownerId i))
                  <$> List.find (fun i => bool_decide (i_xref i = x)) (individuals b))
             visited in
      Returned
        {| GedcomImport.importedProfiles := people;
           GedcomImport.tree :=
             {| ft_id := fresh_id fresh;
                ft_userId := ownerId;
                ft_name := fresh_name fresh;
                ft_createdAt := fresh_createdAt fresh;
                ft_homePersonId := "";
                ft_memberIds := visited |} |}
  end.

End Gedcom.

(** ** Sample remotes *)

Module Samples.

(** The row a well-behaved store answers a request with: what was sent,
    with server fields filled in. *)
Definition echo (r : Request) : Data r :=
  match r return Data r with
  | TreesInsertSingle row =>
      {| tr_cols := row; tr_created_at := "2024-01-01"; tr_updated_at := "2024-01-01" |}
  | TreesSelect _ _ => []
  | TreesUpdate _ _ => tt
  | ProfilesUpsertSingle row _ => storedProfileRow row "2024-01-01" "2024-01-01"
  | ProfilesUpsert rows _ =>
      map (fun row => storedProfileRow row "2024-01-01" "2024-01-01") rows
  | ProfilesSelect _ _ _ => []
  | ProfilesDelete _ => tt
  | PostsInsertSingle row =>
      {| por_cols := row; por_created_at := "2024-01-01"; por_updated_at := "2024-01-01" |}
  | PostPeopleInsert _ => tt
  | PostsSelect _ _ => []
  | PostsDelete _ => tt
  | StorageUpload _ _ _ _ _ => tt
  | StorageRemove _ _ => tt
  | MediaInsertSingle row =>
      {| mr_id := "m1"; mr_user_id := mi_user_id row; mr_name := mi_name row;
         mr_kind := mi_kind row; mr_storage_path := mi_storage_path row;
         mr_public_url := mi_public_url row; mr_mime := mi_mime row;
         mr_size := Some (mi_size row);
         mr_created_at := "2024-01-01"; mr_updated_at := "2024-01-01" |}
  | MediaPeopleInsert _ => tt
  | StorageCreateSignedUrl _ path _ => "https://signed/" +:+ path
  end.

(** A store that follows a script: the head of the script says whether the
    next request is refused; past the end of the script every request is
    accepted. *)
Definition scripted : Remote (list bool) :=
  fun r script =>
    match script with
    | true :: rest => (Failure {| message := "refused" |}, rest)
    | false :: rest => (Success (echo r), rest)
    | [] => (Success (echo r), [])
    end.

Definition world (script : list bool) : World (list bool) :=
  {| remote := script; trace := []; console := []; clock := 1700000000000%Z |}.

(** A store that holds one profile and accepts every request. *)
Definition stocked : Remote unit :=
  fun r σ =>
    (Success
       match r as r' return Data r' with
       | ProfilesSelect _ _ _ =>
           [{| pr_cols :=
                 {| pi_id := "a"; pi_user_id := "u1"; pi_tree_id := None; pi_name := "Ada";
                    pi_gender := None; pi_birth_year := Some "1900"; pi_death_year := None;
                    pi_image_url := None; pi_summary := None;
                    pi_historical_context := None; pi_is_memorial := false;
                    pi_parent_ids := []; pi_child_ids := []; pi_spouse_ids := [];
                    pi_timeline := []; pi_memories := []; pi_sources := [] |};
               pr_created_at := "2024-01-01"; pr_updated_at := "2024-01-01" |}]
       | r' => echo r'
       end,
     σ).

Definition person (ident label : string) : Profile :=
  {| id := ident; userId := "u1"; name := label; gender := None;
     birthYear := "1900"; deathYear := None; imageUrl := ""; summary := "";
     historicalContext := None; isMemorial := false;
     parentIds := []; childIds := []; spouseIds := [];
     timeline := []; memories := []; sources := [] |}.

(** A profile with empty optional strings and the given [deathYear]. *)
Definition sampleProfile (death : option string) : Profile :=
  {| id := "p1"; userId := "u1"; name := "Ada"; gender := None;
     birthYear := ""; deathYear := death; imageUrl := ""; summary := "";
     historicalContext := None; isMemorial := false;
     parentIds := []; childIds := ["p2"]; spouseIds := [];
     timeline := []; memories := []; sources := [] |}.

Definition post (ident : string) (tagged : list string) : CirclePost :=
  {| cp_id := ident; cp_userId := "u1"; cp_createdAt := "2024-01-01";
     cp_authorLabel := "Ada"; cp_body := "hello"; cp_attachments := [];
     cp_taggedProfileIds := tagged |}.

Definition ada : User :=
  {| u_id := "u1"; u_email := "ada@example.org"; u_name := "Ada";
     u_createdAt := "2024-01-01" |}.

(** Three individuals and two families; the first family also names a
    husband [I9] and a child [I7] that have no record, and one line has no
    level. *)
Definition danglingGedcom : string := "0 HEAD
0 @I1@ INDI
1 NAME Alice /Archer/
1 SEX F
1 BIRT
2 DATE 1 JAN 1900
0 @I2@ INDI
1 NAME Bob /Archer/
a line without a level
0 @I3@ INDI
1 NAME Carol /Baker/
0 @F1@ FAM
1 WIFE @I1@
1 HUSB @I9@
1 CHIL @I2@
1 CHIL @I7@
0 @F2@ FAM
1 HUSB @I2@
1 WIFE @I3@
0 TRLR".

(** A header, one family and a trailer: no individual record. *)
Definition emptyGedcom : string := "0 HEAD
0 @F1@ FAM
1 HUSB @I1@
0 TRLR".

Definition fresh : Gedcom.Fresh :=
  {| Gedcom.fresh_id := "t1"; Gedcom.fresh_name := "Imported";
     Gedcom.fresh_createdAt := "2024-01-01" |}.

Definition signedIn (s : ArchiveStore.State) (pending : list ArchiveStore.Promise)
    : ArchiveStore.Hook :=
  {| ArchiveStore.user := Some ada; ArchiveStore.state := s;
     ArchiveStore.inflight := pending |}.

End Samples.

(** ** The requests of [createPost] and [uploadMedia], by name *)

Definition postMentions (data : PostRow) (post : CirclePost) : list PostPersonRow :=
  map (fun profileId =>
         {| pp_post_id := po_id (por_cols data);
            pp_profile_id := profileId;
            pp_user_id := cp_userId post |})
      (cp_taggedProfileIds post).

Definition storagePathOf {Σ} (opts : UploadMediaOptions) (w : World Σ) : string :=
  opt_userId opts +:+ "/" +:+ show_Z (clock w) +:+ "-" +:+ sanitise (file_name (opt_file opts)).

Definition uploadRequest {Σ} (opts : UploadMediaOptions) (w : World Σ) : Request :=
  StorageUpload BUCKET (storagePathOf opts w) (opt_file opts)
    (if decide (file_type (opt_file opts) = "") then "application/octet-stream"
     else file_type (opt_file opts))
    false.

Definition mediaInsertRequest {Σ} (opts : UploadMediaOptions) (w : World Σ) : Request :=
  MediaInsertSingle
    {| mi_user_id := opt_userId opts;
       mi_name := file_name (opt_file opts);
       mi_kind := inferKind (file_type (opt_file opts));
       mi_storage_path := storagePathOf opts w;
       mi_public_url := None;
       mi_mime := or_null (file_type (opt_file opts));
       mi_size := file_size (opt_file opts) |}.

Definition mediaTags (row : MediaRow) (opts : UploadMediaOptions) : list MediaPersonRow :=
  map (fun profileId =>
         {| mp_media_id := mr_id row;
            mp_profile_id := profileId;
            mp_user_id := opt_userId opts |})
      (default [] (opt_taggedProfileIds opts)).

(** The last step of [uploadMedia]: the signed URL decides the result. *)
Definition finishUpload {Σ} (row : MediaRow) (signed : Outcome string * World Σ)
    : Outcome MediaItem * World Σ :=
  match signed with
  | (Returned signedUrl, w) => (Returned (rowToMediaItem row signedUrl), w)
  | (Thrown e, w) => (Thrown e, w)
  end.

(** A load whose result would still be applied. *)
Definition liveLoad (p : ArchiveStore.Promise) : bool :=
  match p with
  | ArchiveStore.InitialLoad cancelled => negb cancelled
  | _ => false
  end.

(** ** The batching rule, as the specification words it

    "Split into fixed-size chunks and issue one remote call per chunk,
    sequentially": chunk [k] of a list holds the items at positions
    [k * size] to [k * size + size - 1], and a list of [len] items has
    [chunkCount size len] chunks. *)

Definition chunk {A} (size : nat) (xs : list A) (k : nat) : list A :=
  take size (drop (k * size) xs).

Definition chunkCount (size len : nat) : nat := (len + (size - 1)) / size.

Definition chunks {A} (size : nat) (xs : list A) : list (list A) :=
  map (chunk size xs) (seq 0 (chunkCount size (length xs))).

Definition accepted (r : Request) : Entry := {| request := r; rejected := false |}.
Definition refused (r : Request) : Entry := {| request := r; rejected := true |}.

(** The rows of a bulk upsert and the request that carries chunk [k]. *)
Definition upsertRows (profiles : list Profile) (treeId : option string) : list ProfileInsert :=
  map (fun p => profileToInsert p treeId) profiles.

Definition upsertCall (profiles : list Profile) (treeId : option string) (k : nat) : Request :=
  ProfilesUpsert (chunk CHUNK (upsertRows profiles treeId) k) "id".

(** The message of the error thrown when the chunk starting at item [i] is
    refused. *)
Definition chunkError (i : nat) (error : PostgrestError) : string :=
  "upsertProfiles (chunk " +:+ show_nat i +:+ "): " +:+ message error.

(** ** Derived state of the hook (hooks/useArchiveStore.ts)

    [profiles.find((p) => p.id === activeProfileId) ?? null] and its two
    siblings; a [null] id matches no item. *)

Definition activeProfile (s : ArchiveStore.State) : option ProfileObject :=
  match ArchiveStore.activeProfileId s with
  | Some wanted =>
      List.find (fun p : ProfileObject => bool_decide (id p = wanted)) (ArchiveStore.profiles s)
  | None => None
  end.

Definition selectedTree (s : ArchiveStore.State) : option FamilyTree :=
  match ArchiveStore.selectedTreeId s with
  | Some wanted =>
      List.find (fun t => bool_decide (ft_id t = wanted)) (ArchiveStore.familyTrees s)
  | None => None
  end.

Definition selectedTreeForView (s : ArchiveStore.State) : option FamilyTree :=
  match ArchiveStore.treeViewId s with
  | Some wanted =>
      List.find (fun t => bool_decide (ft_id t = wanted)) (ArchiveStore.familyTrees s)
  | None => None
  end.

(** The row the database holds for an inserted tree. *)
Definition storedTreeRow (cols : TreeInsert) (created updated : string) : TreeRow :=
  {| tr_cols := cols; tr_created_at := created; tr_updated_at := updated |}.

(** The requests a computation adds to the trace. *)
Definition requestsOf {Σ A : Type} (m : Async Σ A) (w : World Σ) : list Request :=
  map request (drop (length (trace w)) (trace (snd (m w)))).

(** The lines a computation adds to the console. *)
Definition linesOf {Σ A : Type} (m : Async Σ A) (w : World Σ) : list string :=
  drop (length (console w)) (console (snd (m w))).

(** The profiles of a pending import that [chooseHome] adds to the store. *)
Definition newlyImported (imported prev : list ProfileObject) : list ProfileObject :=
  filter (fun p : ProfileObject => id p ∉ map idOf prev) imported.

(** ** hooks/useArchiveStore.ts, the earlier hook (src/hooks)

    The hook as it was while the archive lived in memory only. The
    remote-backed hook above keeps its public surface. *)

(** A call on the object that either hook returns, with its argument. *)
Inductive StoreCall : Type :=
| CallSetProfiles (valueOrUpdater : SetStateAction (list ProfileObject))
| CallSetFamilyTrees (valueOrUpdater : SetStateAction (list FamilyTree))
| CallSetActiveProfileId (valueOrUpdater : SetStateAction (option string))
| CallSetSelectedTreeId (valueOrUpdater : SetStateAction (option string))
| CallSetTreeViewId (valueOrUpdater : SetStateAction (option string))
| CallAddCirclePost (post : CirclePost)
| CallDeleteCirclePost (post_id : string)
| CallUpdateCirclePost (post_id : string) (patch : CirclePostPatch)
| CallClearAll
| CallDeleteProfileById (profileId : string).

Module LocalStore.

Record State : Type := {
  profiles : list ProfileObject;
  familyTrees : list FamilyTree;
  activeProfileId : option string;
  selectedTreeId : option string;
  treeViewId : option string;
  circlePosts : list CirclePost
}.

Definition initialState : State :=
  {| profiles := []; familyTrees := []; activeProfileId := None;
     selectedTreeId := None; treeViewId := None; circlePosts := [] |}.

Definition setProfiles (v : list ProfileObject) (s : State) : State :=
  {| profiles := v; familyTrees := familyTrees s; activeProfileId := activeProfileId s;
     selectedTreeId := selectedTreeId s; treeViewId := treeViewId s;
     circlePosts := circlePosts s |}.

Definition setFamilyTrees (v : list FamilyTree) (s : State) : State :=
  {| profiles := profiles s; familyTrees := v; activeProfileId := activeProfileId s;
     selectedTreeId := selectedTreeId s; treeViewId := treeViewId s;
     circlePosts := circlePosts s |}.

Definition setActiveProfileId (v : option string) (s : State) : State :=
  {| profiles := profiles s; familyTrees := familyTrees s; activeProfileId := v;
     selectedTreeId := selectedTreeId s; treeViewId := treeViewId s;
     circlePosts := circlePosts s |}.

Definition setSelectedTreeId (v : option string) (s : State) : State :=
  {| profiles := profiles s; familyTrees := familyTrees s;
     activeProfileId := activeProfileId s; selectedTreeId := v;
     treeViewId := treeViewId s; circlePosts := circlePosts s |}.

Definition setTreeViewId (v : option string) (s : State) : State :=
  {| profiles := profiles s; familyTrees := familyTrees s;
     activeProfileId := activeProfileId s; selectedTreeId := selectedTreeId s;
     treeViewId := v; circlePosts := circlePosts s |}.

Definition setCirclePosts (v : list CirclePost) (s : State) : State :=
  {| profiles := profiles s; familyTrees := familyTrees s;
     activeProfileId := activeProfileId s; selectedTreeId := selectedTreeId s;
     treeViewId := treeViewId s; circlePosts := v |}.

Definition addCirclePost (post : CirclePost) (s : State) : State :=
  setCirclePosts (post :: circlePosts s) s.

Definition deleteCirclePost (post_id : string) (s : State) : State :=
  setCirclePosts (filter (fun p => cp_id p ≠ post_id) (circlePosts s)) s.

Definition updateCirclePost (post_id : string) (patch : CirclePostPatch) (s : State) : State :=
  setCirclePosts
    (map (fun p => if decide (cp_id p = post_id) then ArchiveStore.applyPatch patch p else p)
         (circlePosts s)) s.

Definition activeProfile (s : State) : option ProfileObject :=
  match activeProfileId s with
  | Some wanted => List.find (fun p : ProfileObject => bool_decide (id p = wanted)) (profiles s)
  | None => None
  end.

Definition selectedTree (s : State) : option FamilyTree :=
  match selectedTreeId s with
  | Some wanted => List.find (fun t => bool_decide (ft_id t = wanted)) (familyTrees s)
  | None => None
  end.

Definition selectedTreeForView (s : State) : option FamilyTree :=
  match treeViewId s with
  | Some wanted => List.find (fun t => bool_decide (ft_id t = wanted)) (familyTrees s)
  | None => None
  end.

Definition clearAll (s : State) : State :=
  setCirclePosts [] (setTreeViewId None (setSelectedTreeId None (setActiveProfileId None
    (setFamilyTrees [] (setProfiles [] s))))).

Definition deleteProfileById (profileId : string) (s : State) : State :=
  setProfiles (filter (fun p : ProfileObject => id p ≠ profileId) (profiles s)) s.

(** The returned object, call by call. *)
Definition call (c : StoreCall) (s : State) : State :=
  match c with
  | CallSetProfiles a => setProfiles (resolve a (profiles s)) s
  | CallSetFamilyTrees a => setFamilyTrees (resolve a (familyTrees s)) s
  | CallSetActiveProfileId a => setActiveProfileId (resolve a (activeProfileId s)) s
  | CallSetSelectedTreeId a => setSelectedTreeId (resolve a (selectedTreeId s)) s
  | CallSetTreeViewId a => setTreeViewId (resolve a (treeViewId s)) s
  | CallAddCirclePost post => addCirclePost post s
  | CallDeleteCirclePost post_id => deleteCirclePost post_id s
  | CallUpdateCirclePost post_id patch => updateCirclePost post_id patch s
  | CallClearAll => clearAll s
  | CallDeleteProfileById profileId => deleteProfileById profileId s
  end.

End LocalStore.

(** The object the remote-backed hook returns, call by call; the three
    selection setters are the [useState] setters themselves. *)
Definition archiveCall (c : StoreCall) (h : ArchiveStore.Hook) : ArchiveStore.Hook :=
  match c with
  | CallSetProfiles a => ArchiveStore.setProfiles a h
  | CallSetFamilyTrees a => ArchiveStore.setFamilyTrees a h
  | CallSetActiveProfileId a =>
      ArchiveStore.withState
        (fun s => ArchiveStore.setActiveProfileId (resolve a (ArchiveStore.activeProfileId s)) s)
        h
  | CallSetSelectedTreeId a =>
      ArchiveStore.withState
        (fun s => ArchiveStore.setSelectedTreeId (resolve a (ArchiveStore.selectedTreeId s)) s)
        h
  | CallSetTreeViewId a =>
      ArchiveStore.withState
        (fun s => ArchiveStore.setTreeViewId (resolve a (ArchiveStore.treeViewId s)) s) h
  | CallAddCirclePost post => ArchiveStore.addCirclePost post h
  | CallDeleteCirclePost post_id => ArchiveStore.deleteCirclePost post_id h
  | CallUpdateCirclePost post_id patch => ArchiveStore.updateCirclePost post_id patch h
  | CallClearAll => ArchiveStore.clearAll h
  | CallDeleteProfileById profileId => ArchiveStore.deleteProfileById profileId h
  end.

(** The six cells that both hooks hold. *)
Definition cached (s : ArchiveStore.State) : LocalStore.State :=
  {| LocalStore.profiles := ArchiveStore.profiles s;
     LocalStore.familyTrees := ArchiveStore.familyTrees s;
     LocalStore.activeProfileId := ArchiveStore.activeProfileId s;
     LocalStore.selectedTreeId := ArchiveStore.selectedTreeId s;
     LocalStore.treeViewId := ArchiveStore.treeViewId s;
     LocalStore.circlePosts := ArchiveStore.circlePosts s |}.

(** [deleteProfileById] of the remote-backed hook is to be called
    "alongside [setProfiles(prev => prev.filter(...))]". *)
Definition companion (c : StoreCall) : list StoreCall :=
  match c with
  | CallDeleteProfileById profileId =>
      [CallSetProfiles (Updater (filter (fun p : ProfileObject => id p ≠ profileId)));
       CallDeleteProfileById profileId]
  | _ => [c]
  end.

(** ** Strings of the language

    [String.prototype.trim] and [s.split(sep)[0]] on strings of code units
    below 256: white space and line terminators there are TAB, LF, VT, FF,
    CR, SP and NBSP. *)

Module Js.

Definition is_space (c : ascii) : bool :=
  let n := N_of_ascii c in
  ((9 <=? n) && (n <=? 13) || (n =? 32) || (n =? 160))%N.

Fixpoint trimStart (s : string) : string :=
  match s with
  | String c rest => if is_space c then trimStart rest else s
  | EmptyString => EmptyString
  end.

Fixpoint trimEnd (s : string) : string :=
  match s with
  | String c rest =>
      match trimEnd rest with
      | EmptyString => if is_space c then EmptyString else String c EmptyString
      | kept => String c kept
      end
  | EmptyString => EmptyString
  end.

Definition trim (s : string) : string := trimEnd (trimStart s).

(** [s.split(sep)[0]] for a one-character separator. *)
Fixpoint before (sep : ascii) (s : string) : string :=
  match s with
  | String c rest => if Ascii.eqb c sep then EmptyString else String c (before sep rest)
  | EmptyString => EmptyString
  end.

End Js.

(** ** The session hook [useSession] and components/Auth.tsx *)

Module Session.

(** What the code reads of [session.user]. *)
Record AuthUser : Type := {
  au_id : string;
  au_email : option string;
  au_display_name : option string;
  au_created_at : string
}.

Definition sessionToUser (session : AuthUser) : User :=
  {| u_id := au_id session;
     u_email := default "" (au_email session);
     u_name :=
       match au_display_name session with
       | Some display_name => display_name
       | None =>
           match au_email session with
           | Some email => Js.before "@" email
           | None => "User"
           end
       end;
     u_createdAt := au_created_at session |}.

(** The cells of [useSession], and whether the splash timer of the
    mount effect is running; nothing ever clears that timer. [Logout]
    below is [logout] once [signOut] has resolved. *)
Record State : Type := {
  view : AppView;
  user : option User;
  loading : bool;
  splashTimer : bool
}.

Definition initialState : State :=
  {| view := SPLASH; user := None; loading := true; splashTimer := false |}.

Inductive Event : Type :=
| GetSessionResolved (session : option AuthUser)
| SplashTimeout
| AuthStateChange (session : option AuthUser)
| Login (u : User)
| Logout
| SetView (v : AppView)
| SetUser (u : option User).

Definition step (e : Event) (s : State) : State :=
  match e with
  | GetSessionResolved (Some session) =>
      {| view := HOME; user := Some (sessionToUser session); loading := false;
         splashTimer := splashTimer s |}
  | GetSessionResolved None =>
      {| view := view s; user := user s; loading := loading s; splashTimer := true |}
  | SplashTimeout =>
      if splashTimer s then
        {| view := LOGIN; user := user s; loading := loading s; splashTimer := false |}
      else s
  | AuthStateChange (Some session) =>
      {| view :=
           match view s with
           | LOGIN | SPLASH => HOME
           | prev => prev
           end;
         user := Some (sessionToUser session);
         loading := loading s; splashTimer := splashTimer s |}
  | AuthStateChange None =>
      {| view := LOGIN; user := None; loading := loading s; splashTimer := splashTimer s |}
  | Login u =>
      {| view := HOME; user := Some u; loading := loading s; splashTimer := splashTimer s |}
  | Logout =>
      {| view := LOGIN; user := None; loading := loading s; splashTimer := splashTimer s |}
  | SetView v =>
      {| view := v; user := user s; loading := loading s; splashTimer := splashTimer s |}
  | SetUser u =>
      {| view := view s; user := u; loading := loading s; splashTimer := splashTimer s |}
  end.

Definition run (events : list Event) (s : State) : State :=
  foldl (fun s e => step e s) s events.

(** An event that comes from the hook itself or from Supabase, not from a
    component using the exposed [setView] or [setUser]. *)
Definition internal (e : Event) : bool :=
  match e with
  | SetView _ | SetUser _ => false
  | _ => true
  end.

(** *** The sign-in form (components/Auth.tsx) *)

Inductive Mode : Type := signin | signup.

Record Form : Type := {
  email : string;
  password : string;
  displayName : string;
  showPassword : bool;
  isLoading : bool;
  error : string;
  mode : Mode
}.

Definition setError (e : string) (f : Form) : Form :=
  {| email := email f; password := password f; displayName := displayName f;
     showPassword := showPassword f; isLoading := isLoading f; error := e; mode := mode f |}.

Definition setIsLoading (b : bool) (f : Form) : Form :=
  {| email := email f; password := password f; displayName := displayName f;
     showPassword := showPassword f; isLoading := b; error := error f; mode := mode f |}.

(** The two calls on [supabase.auth]. *)
Inductive AuthCall : Type :=
| SignInWithPassword (email password : string)
| SignUp (email password display_name : string).

(** [{ data, error }]: an error, or the user with or without a session. *)
Inductive AuthReply : Type :=
| AuthError (message : string)
| NoSession (user : option AuthUser)
| WithSession (user : AuthUser).

(** What a handler leaves behind: the form, the calls made, and the user
    handed to [onLogin] if it was called. *)
Record Handled : Type := {
  form : Form;
  calls : list AuthCall;
  onLogin : option User
}.

Definition handleSignIn (auth : AuthCall → AuthReply) (f : Form) : Handled :=
  if decide (email f = "" ∨ password f = "") then
    {| form := setError "Email and password are required." f; calls := []; onLogin := None |}
  else
    let f1 := setError "" (setIsLoading true f) in
    let call := SignInWithPassword (Js.trim (email f)) (password f) in
    match auth call with
    | AuthError message =>
        {| form := setIsLoading false (setError message f1); calls := [call];
           onLogin := None |}
    | NoSession _ =>
        {| form := setIsLoading false (setError "Sign in failed. Please try again." f1);
           calls := [call]; onLogin := None |}
    | WithSession user =>
        {| form := setIsLoading false f1; calls := [call];
           onLogin := Some (sessionToUser user) |}
    end.

Definition handleSignUp (auth : AuthCall → AuthReply) (f : Form) : Handled :=
  if decide (email f = "" ∨ password f = "") then
    {| form := setError "Email and password are required." f; calls := []; onLogin := None |}
  else if decide (String.length (password f) < 8) then
    {| form := setError "Password must be at least 8 characters." f; calls := [];
       onLogin := None |}
  else
    let f1 := setError "" (setIsLoading true f) in
    let name :=
      if decide (Js.trim (displayName f) = "") then Js.before "@" (email f)
      else Js.trim (displayName f) in
    let call := SignUp (Js.trim (email f)) (password f) name in
    match auth call with
    | AuthError message =>
        {| form := setIsLoading false (setError message f1); calls := [call];
           onLogin := None |}
    | WithSession user =>
        {| form := setIsLoading false f1; calls := [call];
           onLogin :=
             Some {| u_id := au_id user; u_email := default "" (au_email user);
                     u_name := name; u_createdAt := au_created_at user |} |}
    | NoSession _ =>
        {| form := setError "CHECK_EMAIL" (setIsLoading false (setError "" f1));
           calls := [call]; onLogin := None |}
    end.

End Session.

(** ** api/gemini.ts, the serverless function *)

Module GeminiApi.

(** [`"${s}"`] *)
Definition quoted (s : string) : string :=
  String Json.dquote (s +:+ String Json.dquote EmptyString).

(** [xs.join(sep)] *)
Fixpoint joinWith (sep : string) (xs : list string) : string :=
  match xs with
  | [] => ""
  | [x] => x
  | x :: rest => x +:+ sep +:+ joinWith sep rest
  end.

(** [body.key] on a parsed object: [JSON.parse] keeps the last of the
    members that share a key. *)
Definition member (key : string) (members : list (string * Json.value)) : option Json.value :=
  snd <$> List.find (fun m => bool_decide (fst m = key)) (rev members).

Inductive GeminiAction : Type := summary | research | portrait.

Definition actionName (a : GeminiAction) : string :=
  match a with
  | summary => "summary"
  | research => "research"
  | portrait => "portrait"
  end.

Definition VALID_ACTIONS : list GeminiAction := [summary; research; portrait].

(** [VALID_ACTIONS.has(action)], with the member found. *)
Definition validAction (action : string) : option GeminiAction :=
  List.find (fun a => bool_decide (actionName a = action)) VALID_ACTIONS.

Definition MAX_PROMPT_LENGTH : N := 8000.

Record GeminiRequest : Type := {
  action : GeminiAction;
  prompt : string
}.

(** What is thrown inside the function: a [RequestError] with its status,
    or anything else. *)
Inductive Thrown : Type :=
| RequestError (status : nat) (message : string)
| OtherError (err : string).

Definition validate (body : option Json.value) : Thrown + GeminiRequest :=
  match body with
  | Some (Json.JObj members) =>
      match member "action" members with
      | Some (Json.JStr a) =>
          match validAction a with
          | Some known =>
              match member "prompt" members with
              | Some (Json.JStr p) =>
                  if decide (String.length (Js.trim p) = 0) then
                    inl (RequestError 400 (quoted "prompt" +:+ " must be a non-empty string."))
                  else if decide (MAX_PROMPT_LENGTH < N.of_nat (String.length p))%N then
                    inl (RequestError 400
                           (quoted "prompt" +:+ " exceeds the maximum length of "
                              +:+ show_Z (Z.of_N MAX_PROMPT_LENGTH) +:+ " characters."))
                  else inr {| action := known; prompt := p |}
              | _ => inl (RequestError 400 (quoted "prompt" +:+ " must be a non-empty string."))
              end
          | None =>
              inl (RequestError 400
                     (quoted "action" +:+ " must be one of: "
                        +:+ joinWith ", " (map actionName VALID_ACTIONS) +:+ "."))
          end
      | _ =>
          inl (RequestError 400
                 (quoted "action" +:+ " must be one of: "
                    +:+ joinWith ", " (map actionName VALID_ACTIONS) +:+ "."))
      end
  | Some (Json.JArr _) =>
      inl (RequestError 400
             (quoted "action" +:+ " must be one of: "
                +:+ joinWith ", " (map actionName VALID_ACTIONS) +:+ "."))
  | _ => inl (RequestError 400 "Request body must be a JSON object.")
  end.

(** *** The Gemini client, as far as the function reads its answers *)

Record InlineData : Type := { data : option string }.

Record Part : Type := { inlineData : option InlineData }.

Record Content : Type := { parts : option (list Part) }.

Record GroundingMetadata : Type := { groundingChunks : option (list Json.value) }.

Record Candidate : Type := {
  content : option Content;
  groundingMetadata : option GroundingMetadata
}.

Record GenerateContentResponse : Type := {
  text : option string;
  candidates : option (list Candidate)
}.

(** [contents: prompt] or [contents: [{ parts: [{ text: prompt }] }]] *)
Inductive Contents : Type :=
| PlainText (prompt : string)
| TextPart (prompt : string).

Record GenerateContentParameters : Type := {
  model : string;
  contents : Contents;
  googleSearch : bool
}.

(** [ai.models.generateContent]: the promise rejects or resolves. *)
Definition GoogleGenAI : Type := GenerateContentParameters → string + GenerateContentResponse.

Inductive GeminiResponse : Type :=
| TextResponse (text : string)
| ResearchResponse (text : string) (sources : list Json.value)
| PortraitResponse (imageBase64 : string).

(** A helper's result next to the parameters it called the model with. *)
Definition Ran : Type := GenerateContentParameters * (Thrown + GeminiResponse).

Definition runSummary (ai : GoogleGenAI) (prompt : string) : Ran :=
  let params :=
    {| model := "gemini-2.0-flash"; contents := PlainText prompt; googleSearch := false |} in
  (params,
   match ai params with
   | inl err => inl (OtherError err)
   | inr response => inr (TextResponse (default "Summary unavailable." (text response)))
   end).

Definition runResearch (ai : GoogleGenAI) (prompt : string) : Ran :=
  let params :=
    {| model := "gemini-2.5-pro-preview-05-06"; contents := PlainText prompt;
       googleSearch := true |} in
  (params,
   match ai params with
   | inl err => inl (OtherError err)
   | inr response =>
       let sources :=
         match candidates response with
         | Some (first :: _) =>
             match groundingMetadata first with
             | Some metadata => default [] (groundingChunks metadata)
             | None => []
             end
         | _ => []
         end in
       inr (ResearchResponse (default "Historical research unavailable." (text response))
              sources)
   end).

(** [part.inlineData?.data], when truthy. *)
Definition imageOf (part : Part) : option string :=
  match inlineData part ≫= data with
  | Some d => if decide (d = "") then None else Some d
  | None => None
  end.

(** The inner loop of [runPortrait], over [candidate.content?.parts ?? []]. *)
Fixpoint firstImage (ps : list Part) : option string :=
  match ps with
  | [] => None
  | part :: rest =>
      match imageOf part with
      | Some d => Some d
      | None => firstImage rest
      end
  end.

Definition partsOf (candidate : Candidate) : list Part :=
  default [] (content candidate ≫= parts).

(** The outer loop. *)
Fixpoint firstImageOf (cs : list Candidate) : option string :=
  match cs with
  | [] => None
  | candidate :: rest =>
      match firstImage (partsOf candidate) with
      | Some d => Some d
      | None => firstImageOf rest
      end
  end.

Definition runPortrait (ai : GoogleGenAI) (prompt : string) : Ran :=
  let params :=
    {| model := "gemini-2.0-flash-preview-image-generation"; contents := TextPart prompt;
       googleSearch := false |} in
  (params,
   match ai params with
   | inl err => inl (OtherError err)
   | inr response =>
       match firstImageOf (default [] (candidates response)) with
       | Some d => inr (PortraitResponse d)
       | None => inl (RequestError 502 "Gemini did not return an image.")
       end
   end).

Definition dispatch (ai : GoogleGenAI) (request : GeminiRequest) : Ran :=
  match action request with
  | summary => runSummary ai (prompt request)
  | research => runResearch ai (prompt request)
  | portrait => runPortrait ai (prompt request)
  end.

(** *** The handler *)

Record VercelRequest : Type := {
  method : string;
  body : option Json.value
}.

(** [res.setHeader('Allow', ...)], [res.status(...)] and [res.json(...)]. *)
Record VercelResponse : Type := {
  allow : option string;
  status : nat;
  json : Json.value
}.

Definition errorResponse (message : string) : Json.value :=
  Json.JObj [("error", Json.JStr message)].

Definition responseJson (r : GeminiResponse) : Json.value :=
  match r with
  | TextResponse t => Json.JObj [("text", Json.JStr t)]
  | ResearchResponse t sources =>
      Json.JObj [("text", Json.JStr t); ("sources", Json.JArr sources)]
  | PortraitResponse d => Json.JObj [("imageBase64", Json.JStr d)]
  end.

(** What one invocation leaves behind: the response, the lines logged and
    the calls made to the model. *)
Record Handled : Type := {
  response : VercelResponse;
  console : list string;
  generated : list GenerateContentParameters
}.

Definition handler (GEMINI_API_KEY : option string) (ai : GoogleGenAI) (req : VercelRequest)
    : Handled :=
  if decide (method req = "POST") then
    match GEMINI_API_KEY with
    | Some apiKey =>
        if decide (apiKey = "") then
          {| response :=
               {| allow := None; status := 500;
                  json := errorResponse "Server misconfiguration: AI service is unavailable." |};
             console := ["[/api/gemini] GEMINI_API_KEY is not set."];
             generated := [] |}
        else
          match validate (body req) with
          | inl (RequestError status message) =>
              {| response := {| allow := None; status := status; json := errorResponse message |};
                 console := []; generated := [] |}
          | inl (OtherError err) =>
              {| response := {| allow := None; status := 400; json := errorResponse err |};
                 console := []; generated := [] |}
          | inr request =>
              match dispatch ai request with
              | (params, inr result) =>
                  {| response := {| allow := None; status := 200; json := responseJson result |};
                     console := []; generated := [params] |}
              | (params, inl (RequestError status message)) =>
                  {| response :=
                       {| allow := None; status := status; json := errorResponse message |};
                     console := []; generated := [params] |}
              | (params, inl (OtherError err)) =>
                  {| response :=
                       {| allow := None; status := 502;
                          json :=
                            errorResponse "The AI service returned an error. Please try again." |};
                     console := ["[/api/gemini] Gemini API error:" +:+ " " +:+ err];
                     generated := [params] |}
              end
          end
    | None =>
        {| response :=
             {| allow := None; status := 500;
                json := errorResponse "Server misconfiguration: AI service is unavailable." |};
           console := ["[/api/gemini] GEMINI_API_KEY is not set."];
           generated := [] |}
    end
  else
    {| response :=
         {| allow := Some "POST"; status := 405; json := errorResponse "Method not allowed." |};
       console := []; generated := [] |}.

End GeminiApi.

(** ** services/gemini.ts, the transport of the browser side *)

Module GeminiClient.

Definition ENDPOINT : string := "/api/gemini".

(** The argument of [fetch]. *)
Record FetchInit : Type := {
  url : string;
  method : string;
  contentType : string;
  body : string
}.

Definition callGemini (action : GeminiApi.GeminiAction) (prompt : string) : FetchInit :=
  {| url := ENDPOINT;
     method := "POST";
     contentType := "application/json";
     body :=
       stringify
         (Json.JObj [("action", Json.JStr (GeminiApi.actionName action));
                     ("prompt", Json.JStr prompt)]) |}.

(** The prompt of [generateAiPortrait]. *)
Definition portraitPrompt (profile : Profile) : string :=
  "A period-accurate, elegant studio portrait of a person named " +:+ name profile
    +:+ " born in " +:+ birthYear profile
    +:+ ". Style: historical photographic daguerreotype or charcoal sketch, highly detailed, archival museum quality.".

End GeminiClient.

(** ** [listMedia] (repos/mediaRepo.ts), from the reply of its select on *)

Section MediaListing.
Context {Σ : Type} (sb : Remote Σ).

(** [getSignedUrl(r.storage_path).catch(() => '')] *)
Definition signedOrEmpty (r : MediaRow) : Async Σ string :=
  catch (getSignedUrl sb (mr_storage_path r)) (fun _ => ret "").

(** [Promise.all(rows.map(...))], the requests leaving in row order. *)
Fixpoint signAll (rows : list MediaRow) : Async Σ (list string) :=
  match rows with
  | [] => ret []
  | r :: rest =>
      let* signedUrl := signedOrEmpty r in
      let* signedUrls := signAll rest in
      ret (signedUrl :: signedUrls)
  end.

Definition listMedia_from (reply : Response (list MediaRow)) : Async Σ (list MediaItem) :=
  match reply with
  | Failure error => throw ("listMedia: " +:+ message error)
  | Success rows =>
      let* signedUrls := signAll rows in
      ret (imap (fun i row => rowToMediaItem row (default "" (signedUrls !! i))) rows)
  end.

End MediaListing.

(** The answers of the store to the signed-URL requests for [rows], asked
    one after another in row order, starting in world [w]. *)
Fixpoint signReplies {Σ : Type} (sb : Remote Σ) (rows : list MediaRow) (w : World Σ)
    : list (Response string) :=
  match rows with
  | [] => []
  | r :: rest =>
      let (reply, w') :=
        send sb (StorageCreateSignedUrl BUCKET (mr_storage_path r) SIGNED_URL_EXPIRY_SECONDS)
          w in
      reply :: signReplies sb rest w'
  end.

(** The URL an item gets for an answer: the signed URL, or the empty string
    when the request was refused. *)
Definition urlOrEmpty (reply : Response string) : string :=
  match reply with
  | Success signedUrl => signedUrl
  | Failure _ => ""
  end.

(* ===================================================================== *)
(** * Part II. Properties                                                 *)
(* ===================================================================== *)

(** ** The profile mappers *)

Lemma or_null_default (s : string) : default "" (or_null s) = s.
Proof. unfold or_null. destruct (decide (s = "")) as [->|]; reflexivity. Qed.

Lemma opt_or_null_fixed (s : option string) :
  s ≠ Some "" → opt_or_null s = s.
Proof.
  destruct s as [s|]; simpl; [|reflexivity].
  intros Hs. unfold or_null. destruct (decide (s = "")) as [->|]; congruence.
Qed.

(** C10, as stated, fails: a profile whose [deathYear] is the empty string
    comes back with [deathYear] undefined, because [p.deathYear || null]
    sends the empty string to [null] and [row.death_year ?? undefined] has
    nothing to restore it from. *)
Lemma profile_roundtrip_empty_deathYear :
  let p := Samples.sampleProfile (Some "") in
  rowToProfile (storedProfileRow (profileToInsert p None) "t0" "t0") ≠ p
  ∧ deathYear (rowToProfile (storedProfileRow (profileToInsert p None) "t0" "t0")) = None.
Proof. split; [discriminate | reflexivity]. Qed.

(** C10 (amended): for every profile whose [deathYear] is not the empty
    string, [profileToInsert] followed by [rowToProfile] on the stored row
    gives the profile back, whatever tree id and timestamps the row carries;
    empty [birthYear], [imageUrl] and [summary] travel as [null], and so do
    an undefined [gender], [deathYear] and [historicalContext]. *)
Theorem profile_roundtrip (p : Profile) (treeId : option string) (created updated : string) :
  deathYear p ≠ Some "" →
  rowToProfile (storedProfileRow (profileToInsert p treeId) created updated) = p
  ∧ (birthYear p = "" → pi_birth_year (profileToInsert p treeId) = None)
  ∧ (imageUrl p = "" → pi_image_url (profileToInsert p treeId) = None)
  ∧ (summary p = "" → pi_summary (profileToInsert p treeId) = None)
  ∧ (gender p = None → pi_gender (profileToInsert p treeId) = None)
  ∧ (deathYear p = None → pi_death_year (profileToInsert p treeId) = None).
Proof.
  intros Hd. split.
  - destruct p; unfold rowToProfile, profileToInsert, storedProfileRow; simpl in *.
    rewrite !or_null_default, (opt_or_null_fixed _ Hd). reflexivity.
  - repeat split; simpl; intros ->; reflexivity.
Qed.

Lemma profile_roundtrip_witness :
  let p := Samples.sampleProfile None in
  deathYear p ≠ Some ""
  ∧ rowToProfile (storedProfileRow (profileToInsert p (Some "t1")) "c" "u") = p
  ∧ pi_birth_year (profileToInsert p (Some "t1")) = None.
Proof.
  intros p.
  assert (deathYear p ≠ Some "") as Hd by (simpl; discriminate).
  destruct (profile_roundtrip p (Some "t1") "c" "u" Hd) as (Hback & Hbirth & _).
  split; [exact Hd|]. split; [exact Hback|]. apply Hbirth. reflexivity.
Defined.

(** ** Batched upserts (repos/profileRepo.ts) *)

Section Batching.
Context {Σ : Type} (sb : Remote Σ).

Lemma upsertProfiles_from_step profiles treeId i results (w : World Σ) :
  upsertProfiles_from sb profiles treeId i results w =
  if decide (i < length profiles) then
    match
      send sb
        (ProfilesUpsert
           (map (fun p => profileToInsert p treeId) (slice profiles i (i + CHUNK))) "id") w
    with
    | (Failure error, w') =>
        (Thrown ("upsertProfiles (chunk " +:+ show_nat i +:+ "): " +:+ message error), w')
    | (Success data, w') =>
        upsertProfiles_from sb profiles treeId (i + CHUNK)
          (results ++ map rowToProfile data) w'
    end
  else (Returned results, w).
Proof.
  rewrite upsertProfiles_from_equation_1.
  unfold upsertProfiles_from_unfold_clause_1.
  destruct (decide (i < length profiles)); [|reflexivity].
  simpl. destruct (send _ _ _) as [[data|error] w']; reflexivity.
Qed.

Lemma send_trace (r : Request) (w : World Σ) :
  trace (snd (send sb r w))
  = trace w ++ [{| request := r; rejected := failed (fst (send sb r w)) |}].
Proof. unfold send. destruct (sb r (remote w)); reflexivity. Qed.

End Batching.

Lemma chunkCount_lt (size len k : nat) :
  0 < size → k < chunkCount size len ↔ k * size < len.
Proof.
  intros Hs. unfold chunkCount.
  pose proof (Nat.div_mod_eq (len + (size - 1)) size) as Hdm.
  pose proof (Nat.mod_upper_bound (len + (size - 1)) size ltac:(lia)) as Hr.
  set (q := (len + (size - 1)) / size) in *.
  set (r := (len + (size - 1)) mod size) in *.
  split; intros H; nia.
Qed.

Lemma slice_map {A B} (f : A → B) (xs : list A) (a b : nat) :
  map f (slice xs a b) = slice (map f xs) a b.
Proof. unfold slice. by rewrite <- firstn_map, <- skipn_map. Qed.

Lemma slice_chunk {A} (xs : list A) (size k : nat) :
  slice xs (k * size) (k * size + size) = chunk size xs k.
Proof. unfold slice, chunk. f_equal. lia. Qed.

Lemma concat_chunks_from {A} (size : nat) (xs : list A) (m k : nat) :
  concat (map (chunk size xs) (seq k m)) = take (m * size) (drop (k * size) xs).
Proof.
  revert k. induction m as [|m IH]; intros k; simpl; [reflexivity|].
  rewrite IH. unfold chunk.
  replace (S k * size) with (k * size + size) by lia.
  rewrite <- drop_drop. apply take_take_drop.
Qed.

Lemma concat_chunks {A} (size : nat) (xs : list A) :
  0 < size → concat (chunks size xs) = xs.
Proof.
  intros Hs. unfold chunks. rewrite concat_chunks_from. simpl. rewrite drop_0.
  apply take_ge.
  destruct (decide (length xs ≤ chunkCount size (length xs) * size)) as [|Hn]; [done|].
  exfalso. apply Hn.
  assert (¬ chunkCount size (length xs) < chunkCount size (length xs)) as Hirr by lia.
  rewrite (chunkCount_lt size (length xs) _ Hs) in Hirr. lia.
Qed.

Lemma length_chunk {A} (size : nat) (xs : list A) (k : nat) :
  length (chunk size xs k) = size `min` (length xs - k * size).
Proof. unfold chunk. by rewrite length_take, length_drop. Qed.

Lemma CHUNK_pos : 0 < CHUNK.
Proof. unfold CHUNK. lia. Qed.

Section BatchingTrace.
Context {Σ : Type} (sb : Remote Σ).

Lemma upsert_request profiles treeId k :
  ProfilesUpsert
    (map (fun p => profileToInsert p treeId)
         (slice profiles (k * CHUNK) (k * CHUNK + CHUNK))) "id"
  = upsertCall profiles treeId k.
Proof. unfold upsertCall, upsertRows. by rewrite slice_map, slice_chunk. Qed.

(** From chunk [k] on, with [n] chunks left: either every remaining chunk
    is accepted, or the first refusal ends the run. *)
Lemma upsertProfiles_from_trace profiles treeId (n k : nat) results (w : World Σ) :
  chunkCount CHUNK (length profiles) = k + n →
  let res := upsertProfiles_from sb profiles treeId (k * CHUNK) results w in
  (∃ results',
      fst res = Returned results'
      ∧ trace (snd res)
        = trace w ++ map (fun j => accepted (upsertCall profiles treeId j)) (seq k n))
  ∨ (∃ j error,
        k ≤ j < k + n
        ∧ fst res = Thrown (chunkError (j * CHUNK) error)
        ∧ trace (snd res)
          = trace w
              ++ map (fun j => accepted (upsertCall profiles treeId j)) (seq k (j - k))
              ++ [refused (upsertCall profiles treeId j)]).
Proof.
  revert k results w. induction n as [|n IH]; intros k results w Hcount res; subst res.
  - rewrite upsertProfiles_from_step.
    destruct (decide (k * CHUNK < length profiles)) as [Hlt|_].
    + pose proof (proj2 (chunkCount_lt CHUNK (length profiles) k CHUNK_pos) Hlt). lia.
    + left. exists results. simpl. by rewrite app_nil_r.
  - rewrite upsertProfiles_from_step.
    destruct (decide (k * CHUNK < length profiles)) as [_|Hge].
    2:{ exfalso. apply Hge.
        apply (proj1 (chunkCount_lt CHUNK (length profiles) k CHUNK_pos)). lia. }
    match goal with
    | |- context [send sb ?r w] =>
        pose proof (send_trace sb r w) as Htr;
        destruct (send sb r w) as [[data|error] w']
    end; simpl in Htr; rewrite (upsert_request profiles treeId k) in Htr.
    + replace (k * CHUNK + CHUNK) with (S k * CHUNK) by lia.
      destruct (IH (S k) (results ++ map rowToProfile data) w' ltac:(lia))
        as [(results' & Hout & Htrace)|(j & error & Hj & Hout & Htrace)].
      * left. exists results'. split; [exact Hout|].
        rewrite Htrace, Htr. simpl. by rewrite <- app_assoc.
      * right. exists j, error. split; [lia|]. split; [exact Hout|].
        rewrite Htrace, Htr.
        replace (j - k) with (S (j - S k)) by lia. simpl. by rewrite <- app_assoc.
    + right. exists k, error. split; [lia|]. split; [reflexivity|].
      simpl. rewrite Htr. by rewrite Nat.sub_diag.
Qed.

End BatchingTrace.

(** C1: [upsertProfiles] cuts the rows into consecutive chunks of at most
    200 items (450 rows give chunks of 200, 200 and 50) and sends one upsert
    per chunk, in order.  Either every chunk is accepted and the function
    returns, or some chunk [k] is refused: the chunks before it were
    accepted, the refused one is the last request sent, and the function
    throws an error naming the chunk by the offset [200 * k] of its first
    item, from which [k] is recovered. *)
Theorem upsertProfiles_batches {Σ : Type} (sb : Remote Σ)
    (profiles : list Profile) (treeId : option string) (w : World Σ) :
  let rows := upsertRows profiles treeId in
  let res := upsertProfiles sb profiles treeId w in
  let sent := map (upsertCall profiles treeId) (seq 0 (chunkCount CHUNK (length profiles))) in
  concat (chunks CHUNK rows) = rows
  ∧ Forall (fun c => length c ≤ 200) (chunks CHUNK rows)
  ∧ sent = map (fun c => ProfilesUpsert c "id") (chunks CHUNK rows)
  ∧ (length profiles = 450 → map length (chunks CHUNK rows) = [200; 200; 50])
  ∧ ((∃ results,
         fst res = Returned results ∧ trace (snd res) = trace w ++ map accepted sent)
     ∨ (∃ k error,
           k < length sent
           ∧ fst res = Thrown (chunkError (200 * k) error)
           ∧ (200 * k) / 200 = k
           ∧ trace (snd res)
             = trace w ++ map accepted (take k sent)
                 ++ [refused (upsertCall profiles treeId k)])).
Proof.
  intros rows res sent.
  assert (length rows = length profiles) as Hlen by (unfold rows, upsertRows; apply length_map).
  split; [apply concat_chunks; unfold CHUNK; lia|].
  split.
  { unfold chunks. apply Forall_forall. intros c Hc.
    apply list_elem_of_In, in_map_iff in Hc. destruct Hc as (k & <- & _).
    rewrite length_chunk. unfold CHUNK. lia. }
  split.
  { unfold sent, chunks, upsertCall. rewrite Hlen. fold rows. by rewrite map_map. }
  split.
  { intros H450. unfold chunks. rewrite Hlen, H450.
    change (chunkCount CHUNK 450) with 3. simpl.
    rewrite !length_chunk, Hlen, H450. reflexivity. }
  pose proof (upsertProfiles_from_trace sb profiles treeId
                (chunkCount CHUNK (length profiles)) 0 [] w eq_refl) as Hmain.
  change (0 * CHUNK) with 0 in Hmain. cbv zeta in Hmain.
  destruct Hmain as [(results & Hout & Htrace)|(j & error & Hj & Hout & Htrace)].
  - left. exists results. split; [exact Hout|].
    unfold res, upsertProfiles, sent. rewrite Htrace. by rewrite map_map.
  - right. exists j, error.
    split; [unfold sent; rewrite length_map, length_seq; lia|].
    split; [unfold res, upsertProfiles; rewrite Hout; do 2 f_equal; unfold CHUNK; lia|].
    split; [rewrite Nat.mul_comm; apply Nat.div_mul; lia|].
    unfold res, upsertProfiles. rewrite Htrace. do 2 f_equal.
    rewrite Nat.sub_0_r. unfold sent.
    rewrite firstn_map, take_seq, map_map.
    do 2 f_equal. lia.
Qed.

Lemma upsertProfiles_batches_witness :
  let profiles := replicate 450 (Samples.person "a" "Ada") in
  length profiles = 450
  ∧ map length (chunks CHUNK (upsertRows profiles None)) = [200; 200; 50].
Proof.
  intros profiles.
  destruct (upsertProfiles_batches Samples.scripted profiles None (Samples.world [false; true]))
    as (_ & _ & _ & H450 & _).
  split; [reflexivity|]. apply H450. reflexivity.
Defined.

(** ** Ordering requested by the list calls *)

(** C9: [listProfiles] asks for [name] ascending, with or without a tree
    filter; [listTrees] and [listPosts] ask for [created_at] descending.
    Each sends exactly that one request. *)
Theorem list_calls_ordering {Σ : Type} (sb : Remote Σ) (treeId : option string) (w : World Σ) :
  (∃ eqs,
      map request (trace (snd (listProfiles sb treeId w)))
      = map request (trace w)
          ++ [ProfilesSelect "*" eqs {| ob_column := "name"; ob_ascending := true |}])
  ∧ map request (trace (snd (listTrees sb w)))
    = map request (trace w)
        ++ [TreesSelect "*" {| ob_column := "created_at"; ob_ascending := false |}]
  ∧ map request (trace (snd (listPosts sb w)))
    = map request (trace w)
        ++ [PostsSelect "*, post_people ( profile_id )"
              {| ob_column := "created_at"; ob_ascending := false |}].
Proof.
  split; [|split].
  - eexists. unfold listProfiles, bind, perform, send.
    destruct (sb _ (remote w)) as [[data|err] σ]; simpl; by rewrite map_app.
  - unfold listTrees, bind, perform, send.
    destruct (sb _ (remote w)) as [[data|err] σ]; simpl; by rewrite map_app.
  - unfold listPosts, bind, perform, send.
    destruct (sb _ (remote w)) as [[data|err] σ]; simpl; by rewrite map_app.
Qed.

(** ** Join-relation writes (repos/postRepo.ts, repos/mediaRepo.ts) *)

Section JoinWrites.
Context {Σ : Type} (sb : Remote Σ).


Lemma createPost_insert_accepted post (w w1 : World Σ) data :
  send sb (PostsInsertSingle (postToInsert post)) w = (Success data, w1) →
  fst (createPost sb post w) = Returned (rowToPost data (cp_taggedProfileIds post)).
Proof.
  intros H. unfold createPost, bind, perform. rewrite H.
  destruct (decide (0 < length (cp_taggedProfileIds post))); [|reflexivity].
  destruct (send sb _ w1) as [[?|?] ?]; reflexivity.
Qed.


Lemma uploadMedia_upload_refused opts (w w1 : World Σ) err :
  send sb (uploadRequest opts w) w = (Failure err, w1) →
  uploadMedia sb opts w = (Thrown ("uploadMedia storage: " +:+ message err), w1).
Proof.
  intros H. unfold uploadMedia, bind, perform, now.
  fold (storagePathOf opts w). fold (uploadRequest opts w). rewrite H. reflexivity.
Qed.

Lemma uploadMedia_insert_refused opts (w w1 w2 : World Σ) err :
  send sb (uploadRequest opts w) w = (Success tt, w1) →
  send sb (mediaInsertRequest opts w) w1 = (Failure err, w2) →
  fst (uploadMedia sb opts w) = Thrown ("uploadMedia insert: " +:+ message err).
Proof.
  intros H1 H2. unfold uploadMedia, bind, perform, now.
  fold (storagePathOf opts w). fold (uploadRequest opts w). rewrite H1.
  fold (mediaInsertRequest opts w). rewrite H2.
  destruct (send sb _ w2) as [? ?]. reflexivity.
Qed.

Lemma uploadMedia_tagging opts (w w1 w2 w3 : World Σ) row reply :
  send sb (uploadRequest opts w) w = (Success tt, w1) →
  send sb (mediaInsertRequest opts w) w1 = (Success row, w2) →
  0 < length (default [] (opt_taggedProfileIds opts)) →
  send sb (MediaPeopleInsert (mediaTags row opts)) w2 = (reply, w3) →
  uploadMedia sb opts w
  = finishUpload row
      (getSignedUrl sb (storagePathOf opts w)
         match reply with
         | Failure tagError =>
             snd (console_error ("uploadMedia tagging failed: " +:+ message tagError) w3)
         | Success _ => w3
         end).
Proof.
  intros H1 H2 Hlen H3. unfold uploadMedia, bind, perform, now.
  fold (storagePathOf opts w). fold (uploadRequest opts w). rewrite H1.
  fold (mediaInsertRequest opts w). rewrite H2.
  destruct (decide (0 < length (default [] (opt_taggedProfileIds opts)))); [|lia].
  fold (mediaTags row opts). rewrite H3.
  destruct reply as [[]|tagError]; simpl;
    unfold finishUpload; destruct (getSignedUrl sb _ _) as [[?|?] ?]; reflexivity.
Qed.

Lemma uploadMedia_untagged opts (w w1 w2 : World Σ) row :
  send sb (uploadRequest opts w) w = (Success tt, w1) →
  send sb (mediaInsertRequest opts w) w1 = (Success row, w2) →
  ¬ 0 < length (default [] (opt_taggedProfileIds opts)) →
  uploadMedia sb opts w = finishUpload row (getSignedUrl sb (storagePathOf opts w) w2).
Proof.
  intros H1 H2 Hlen. unfold uploadMedia, bind, perform, now.
  fold (storagePathOf opts w). fold (uploadRequest opts w). rewrite H1.
  fold (mediaInsertRequest opts w). rewrite H2.
  destruct (decide (0 < length (default [] (opt_taggedProfileIds opts)))); [lia|].
  simpl. unfold finishUpload. destruct (getSignedUrl sb _ _) as [[?|?] ?]; reflexivity.
Qed.

End JoinWrites.




(** ** Deleting and creating posts through the cache (hooks/useArchiveStore.ts) *)

Lemma withoutPost_absent (post_id : string) (posts : list CirclePost) (p : CirclePost) :
  p ∈ ArchiveStore.withoutPost post_id posts → cp_id p ≠ post_id.
Proof. unfold ArchiveStore.withoutPost. rewrite list_elem_of_filter. tauto. Qed.

Lemma withoutPost_fresh (post_id : string) (posts : list CirclePost) :
  Forall (fun p => cp_id p ≠ post_id) posts → ArchiveStore.withoutPost post_id posts = posts.
Proof.
  unfold ArchiveStore.withoutPost. induction 1 as [|p posts Hp _ IH]; [reflexivity|].
  rewrite filter_cons_True by exact Hp. by rewrite IH.
Qed.

(** C7: [deleteCirclePost] takes out of the in-memory collection the posts
    with the given id and no other: the remaining posts are the previous
    ones, in their order, and every other cell is left alone. It starts one
    remote delete, and when that settles, accepted or refused, the state is
    left as it was, so the post stays absent. A refusal, however, is not
    surfaced through the hook's [error] cell: [deletePost] throws, the catch
    handler writes one [console.error] line, and [error] keeps the value it
    had. *)
Theorem deleteCirclePost_not_rolled_back {Σ : Type} (sb : Remote Σ)
    (post_id : string) (h : ArchiveStore.Hook) (w : World Σ) :
  let posts := ArchiveStore.circlePosts (ArchiveStore.state h) in
  let h1 := ArchiveStore.deleteCirclePost post_id h in
  let res := ArchiveStore.settle sb (ArchiveStore.DeletePostPush post_id)
               (ArchiveStore.state h1) w in
  let reply := fst (send sb (PostsDelete post_id) w) in
  ArchiveStore.state h1
  = ArchiveStore.setCirclePostsRaw (filter (fun p => cp_id p ≠ post_id) posts)
      (ArchiveStore.state h)
  ∧ (∀ p, p ∈ ArchiveStore.circlePosts (ArchiveStore.state h1)
          ↔ p ∈ posts ∧ cp_id p ≠ post_id)
  ∧ (Forall (fun p => cp_id p ≠ post_id) posts → ArchiveStore.state h1 = ArchiveStore.state h)
  ∧ ArchiveStore.inflight h1 = ArchiveStore.inflight h ++ [ArchiveStore.DeletePostPush post_id]
  ∧ trace (snd res)
    = trace w ++ [{| request := PostsDelete post_id; rejected := failed reply |}]
  ∧ fst res = ArchiveStore.state h1
  ∧ ArchiveStore.error (fst res) = ArchiveStore.error (ArchiveStore.state h)
  ∧ match reply with
    | Failure err =>
        fst (deletePost sb post_id w) = Thrown ("deletePost: " +:+ message err)
        ∧ console (snd res)
          = console w
              ++ ["[useArchiveStore] deletePost failed: deletePost: " +:+ message err]
    | Success _ =>
        fst (deletePost sb post_id w) = Returned tt ∧ console (snd res) = console w
    end.
Proof.
  intros posts h1 res reply.
  split; [reflexivity|]. split.
  { intros p. subst h1. simpl. unfold ArchiveStore.withoutPost. fold posts.
    rewrite list_elem_of_filter. tauto. }
  split.
  { intros Hfresh. subst h1. simpl. fold posts.
    rewrite (withoutPost_fresh post_id posts Hfresh). subst posts.
    by destruct (ArchiveStore.state h). }
  split; [reflexivity|].
  subst res reply. unfold ArchiveStore.settle, deletePost, bind, perform.
  pose proof (send_trace sb (PostsDelete post_id) w) as Htr.
  destruct (send sb (PostsDelete post_id) w) as [[[]|err] w1] eqn:Hsend; simpl in *.
  - rewrite Htr. repeat split; try done.
    unfold send in Hsend. destruct (sb _ _); by inversion Hsend.
  - rewrite Htr. repeat split; try done.
    unfold send in Hsend. destruct (sb _ _); by inversion Hsend.
Qed.

(** C3, at a failing input: a post is added in front of an existing one and
    its insert is refused.  The rollback restores the collection and one
    line goes to the console, but the hook's [error] cell, the only error
    state the hook hands to its caller, stays empty. *)
Theorem addCirclePost_failure_not_reported :
  let q := Samples.post "q" [] in
  let p := Samples.post "p" ["a"] in
  let h := Samples.signedIn (ArchiveStore.setCirclePostsRaw [q] ArchiveStore.initialState) [] in
  let h1 := ArchiveStore.addCirclePost p h in
  let res := ArchiveStore.settleAt Samples.scripted 0 (h1, Samples.world [true]) in
  ArchiveStore.circlePosts (ArchiveStore.state h1) = [p; q]
  ∧ ArchiveStore.inflight h1 = [ArchiveStore.CreatePostPush p]
  ∧ ArchiveStore.circlePosts (ArchiveStore.state (fst res)) = [q]
  ∧ console (snd res) = ["[useArchiveStore] createPost failed: createPost: refused"]
  ∧ ArchiveStore.error (ArchiveStore.state (fst res)) = None.
Proof. vm_compute. repeat split. Qed.

(** The rollback of [addCirclePost] in general: whatever the state, a
    rejected [createPost] filters the collection by the post's id, writes
    one console line and leaves the [error] cell alone. *)
Lemma addCirclePost_rollback {Σ : Type} (sb : Remote Σ) (post : CirclePost)
    (s : ArchiveStore.State) (w w1 : World Σ) (e : string) :
  createPost sb post w = (Thrown e, w1) →
  let res := ArchiveStore.settle sb (ArchiveStore.CreatePostPush post) s w in
  ArchiveStore.circlePosts (fst res)
  = ArchiveStore.withoutPost (cp_id post) (ArchiveStore.circlePosts s)
  ∧ ArchiveStore.error (fst res) = ArchiveStore.error s
  ∧ console (snd res) = console w1 ++ ["[useArchiveStore] createPost failed: " +:+ e].
Proof. intros H. simpl. rewrite H. repeat split. Qed.

(** ** Teardown (hooks/useArchiveStore.ts) *)

Section Teardown.
Context {Σ : Type} (sb : Remote Σ).

Lemma setCirclePostsRaw_same (s : ArchiveStore.State) :
  ArchiveStore.setCirclePostsRaw (ArchiveStore.circlePosts s) s = s.
Proof. by destruct s. Qed.

(** With no post in memory, no settling promise other than a live load
    touches the state cells. *)
Lemma settle_quiet (p : ArchiveStore.Promise) (s : ArchiveStore.State) (w : World Σ) :
  ArchiveStore.circlePosts s = [] → liveLoad p = false →
  fst (ArchiveStore.settle sb p s w) = s.
Proof.
  intros Hposts Hlive. destruct p as [cancelled| | | | | |]; simpl.
  - destruct cancelled; [|discriminate].
    destruct (ArchiveStore.loadAll sb w) as [[[[? ?] ?]|?] ?]; reflexivity.
  - destruct (upsertProfiles sb (map fields toUpsert) None w) as [[?|?] ?]; reflexivity.
  - destruct (createTree sb tree w) as [[?|?] ?]; reflexivity.
  - destruct (updateTree sb tree_id patch w) as [[?|?] ?]; reflexivity.
  - destruct (createPost sb post w) as [[?|?] ?]; simpl; [reflexivity|].
    transitivity (ArchiveStore.setCirclePostsRaw (ArchiveStore.circlePosts s) s);
      [by rewrite Hposts | apply setCirclePostsRaw_same].
  - destruct (deletePost sb post_id w) as [[?|?] ?]; reflexivity.
  - destruct (deleteProfile sb profileId w) as [[?|?] ?]; reflexivity.
Qed.

Lemma settleAll_quiet (positions : list nat) (h : ArchiveStore.Hook) (w : World Σ) :
  ArchiveStore.circlePosts (ArchiveStore.state h) = [] →
  Forall (fun p => liveLoad p = false) (ArchiveStore.inflight h) →
  ArchiveStore.state (fst (settleAll sb positions (h, w))) = ArchiveStore.state h.
Proof.
  revert h w. induction positions as [|i positions IH]; intros h w Hposts Hquiet;
    [reflexivity|].
  unfold settleAll in *. simpl.
  destruct (ArchiveStore.inflight h !! i) as [p|] eqn:Hp; [|by apply IH].
  pose proof (settle_quiet p (ArchiveStore.state h) w Hposts
                (proj1 (Forall_lookup _ _) Hquiet i p Hp)) as Hs.
  destruct (ArchiveStore.settle sb p (ArchiveStore.state h) w) as [s' w'].
  simpl in Hs. subst s'.
  rewrite IH; simpl; [reflexivity|exact Hposts|by apply Forall_delete].
Qed.

End Teardown.

(** C8, as stated, fails for [clearAll]: it empties the cells but cancels
    nothing, so an initial load that is still pending settles afterwards and
    fills the cleared collections again. *)
Lemma clearAll_pending_load_repopulates :
  let signedOut :=
    {| ArchiveStore.user := None; ArchiveStore.state := ArchiveStore.initialState;
       ArchiveStore.inflight := [] |} in
  let h := ArchiveStore.userChanged (Some Samples.ada) signedOut in
  let h0 := ArchiveStore.clearAll h in
  let w := {| remote := tt; trace := []; console := []; clock := 0%Z |} in
  let h1 := fst (settleAll Samples.stocked [0] (h0, w)) in
  ArchiveStore.inflight h0 = [ArchiveStore.InitialLoad false]
  ∧ ArchiveStore.profiles (ArchiveStore.state h0) = []
  ∧ map idOf (ArchiveStore.profiles (ArchiveStore.state h1)) = ["a"]
  ∧ ArchiveStore.state h1 ≠ ArchiveStore.state h0.
Proof.
  intros signedOut h h0 w h1.
  split; [reflexivity|]. split; [reflexivity|]. split; [vm_compute; reflexivity|].
  intros Heq. apply (f_equal ArchiveStore.profiles) in Heq. vm_compute in Heq. discriminate.
Qed.

(** C8 (amended): once the user has signed out, or once [clearAll] has run
    with no uncancelled load pending, promises started earlier may settle in any
    number and any order, accepted or refused by any remote store: the state
    cells of the hook, its three collections among them, keep the values the
    teardown gave them. *)
Theorem teardown_discards_settlements {Σ : Type} (sb : Remote Σ)
    (h : ArchiveStore.Hook) (w : World Σ) (positions : list nat) :
  (let h0 := ArchiveStore.userChanged None h in
   ArchiveStore.state (fst (settleAll sb positions (h0, w))) = ArchiveStore.state h0
   ∧ ArchiveStore.profiles (ArchiveStore.state h0) = []
   ∧ ArchiveStore.familyTrees (ArchiveStore.state h0) = []
   ∧ ArchiveStore.circlePosts (ArchiveStore.state h0) = [])
  ∧ (Forall (fun p => liveLoad p = false) (ArchiveStore.inflight h) →
     let h0 := ArchiveStore.clearAll h in
     ArchiveStore.state (fst (settleAll sb positions (h0, w))) = ArchiveStore.state h0
     ∧ ArchiveStore.profiles (ArchiveStore.state h0) = []
     ∧ ArchiveStore.familyTrees (ArchiveStore.state h0) = []
     ∧ ArchiveStore.circlePosts (ArchiveStore.state h0) = []).
Proof.
  split.
  - intros h0. split; [|repeat split].
    apply settleAll_quiet; [reflexivity|].
    simpl. apply Forall_forall. intros p Hp.
    apply list_elem_of_In, in_map_iff in Hp. destruct Hp as (p0 & <- & _).
    by destruct p0.
  - intros Hquiet h0. split; [|repeat split].
    by apply settleAll_quiet.
Qed.

Lemma teardown_discards_settlements_witness :
  let p := Samples.post "p" [] in
  let h := Samples.signedIn (ArchiveStore.setCirclePostsRaw [p] ArchiveStore.initialState)
             [ArchiveStore.CreatePostPush p; ArchiveStore.InitialLoad true] in
  Forall (fun p => liveLoad p = false) (ArchiveStore.inflight h)
  ∧ ArchiveStore.circlePosts
      (ArchiveStore.state
         (fst (settleAll Samples.scripted [0; 0]
                 (ArchiveStore.clearAll h, Samples.world [true])))) = [].
Proof.
  intros p h.
  assert (Forall (fun p => liveLoad p = false) (ArchiveStore.inflight h)) as Hquiet
    by (repeat constructor).
  split; [exact Hquiet|].
  pose proof (teardown_discards_settlements Samples.scripted h (Samples.world [true]) [0; 0])
    as (_ & Hclear).
  destruct (Hclear Hquiet) as (-> & _). reflexivity.
Defined.

(** ** [JSON.stringify] tells values apart *)

Module JsonFacts.
Import JsonRead.

Lemma value_ind_nested (P : Json.value → Prop) :
  P JNull → (∀ b, P (JBool b)) → (∀ z, P (JNum z)) → (∀ s, P (JStr s)) →
  (∀ vs, Forall P vs → P (JArr vs)) →
  (∀ ms, Forall (fun m => P (snd m)) ms → P (JObj ms)) →
  ∀ v, P v.
Proof.
  intros HN HB HZ HS HA HO.
  fix IH 1. intros [ |b|z|s|vs|ms].
  - exact HN.
  - apply HB.
  - apply HZ.
  - apply HS.
  - apply HA. induction vs as [|v vs IHvs]; constructor; [apply IH | exact IHvs].
  - apply HO. induction ms as [|m ms IHms]; constructor; [apply IH | exact IHms].
Qed.

Lemma unescape_escape (c : ascii) (rest : list ascii) :
  unescape_char (escape_char c ++ rest) = Some (c, rest).
Proof. destruct c as [[] [] [] [] [] [] [] []]; reflexivity. Qed.

Lemma escape_head (c : ascii) (rest : list ascii) :
  ∃ h t, escape_char c ++ rest = h :: t ∧ h ≠ dquote.
Proof.
  destruct c as [[] [] [] [] [] [] [] []];
    (eexists; eexists; split; [reflexivity | discriminate]).
Qed.

Lemma escaped_inj (l1 l2 r1 r2 : list ascii) :
  flat_map escape_char l1 ++ dquote :: r1 = flat_map escape_char l2 ++ dquote :: r2 →
  l1 = l2 ∧ r1 = r2.
Proof.
  revert l2. induction l1 as [|c1 l1 IH]; intros [|c2 l2]; simpl; intros H.
  - by injection H.
  - rewrite <- app_assoc in H.
    destruct (escape_head c2 (flat_map escape_char l2 ++ dquote :: r2))
      as (h & t & Heq & Hne).
    rewrite Heq in H. injection H as <- _. done.
  - rewrite <- app_assoc in H.
    destruct (escape_head c1 (flat_map escape_char l1 ++ dquote :: r1))
      as (h & t & Heq & Hne).
    rewrite Heq in H. injection H as -> _. done.
  - rewrite <- !app_assoc in H.
    pose proof (f_equal unescape_char H) as Hu.
    rewrite !unescape_escape in Hu. injection Hu as -> Hrest.
    destruct (IH _ Hrest) as [-> ->]. done.
Qed.

Lemma quote_inj (s1 s2 : string) (r1 r2 : list ascii) :
  quote s1 ++ r1 = quote s2 ++ r2 → s1 = s2 ∧ r1 = r2.
Proof.
  unfold quote. simpl. rewrite <- !app_assoc. simpl. intros [= H].
  destruct (escaped_inj _ _ _ _ H) as [Hc ->]. split; [|done].
  rewrite <- (string_of_list_ascii_of_string s1), <- (string_of_list_ascii_of_string s2).
  unfold chars in Hc. by rewrite Hc.
Qed.

Lemma print_uint_inj (u1 u2 : Decimal.uint) (r1 r2 : list ascii) :
  print_uint u1 ++ r1 = print_uint u2 ++ r2 → delimited r1 → delimited r2 →
  u1 = u2 ∧ r1 = r2.
Proof.
  revert u2. induction u1 as [|u1 IH|u1 IH|u1 IH|u1 IH|u1 IH|u1 IH|u1 IH|u1 IH|u1 IH|u1 IH];
    intros [|u2|u2|u2|u2|u2|u2|u2|u2|u2|u2]; simpl; intros H D1 D2;
    try discriminate H;
    try (subst; simpl in *; discriminate);
    try (injection H as H; destruct (IH _ H D1 D2) as [-> ->]; done).
  done.
Qed.

Lemma print_uint_head (u : Decimal.uint) (r : list ascii) :
  u ≠ Nil → ∃ c t, print_uint u ++ r = c :: t ∧ is_digit c = true.
Proof. destruct u; intros Hu; try done; simpl; eauto. Qed.

Lemma print_Z_inj (z1 z2 : Z) (r1 r2 : list ascii) :
  print_Z z1 ++ r1 = print_Z z2 ++ r2 → delimited r1 → delimited r2 →
  z1 = z2 ∧ r1 = r2.
Proof.
  intros H D1 D2.
  destruct z1 as [|p1|p1], z2 as [|p2|p2]; simpl in H.
  - by injection H.
  - change ("0"%char :: r1) with (print_uint (D0 Nil) ++ r1) in H.
    destruct (print_uint_inj _ _ _ _ H D1 D2) as [Hu _].
    symmetry in Hu. by apply Unsigned.to_uint_nonzero in Hu.
  - discriminate.
  - change ("0"%char :: r2) with (print_uint (D0 Nil) ++ r2) in H.
    destruct (print_uint_inj _ _ _ _ H D1 D2) as [Hu _].
    by apply Unsigned.to_uint_nonzero in Hu.
  - destruct (print_uint_inj _ _ _ _ H D1 D2) as [Hu ->].
    apply Unsigned.to_uint_inj in Hu. by subst.
  - destruct (print_uint_head (Pos.to_uint p1) r1 (Unsigned.to_uint_nonnil p1))
      as (c & t & Heq & Hc).
    rewrite Heq in H. injection H as -> _. discriminate.
  - discriminate.
  - destruct (print_uint_head (Pos.to_uint p2) r2 (Unsigned.to_uint_nonnil p2))
      as (c & t & Heq & Hc).
    rewrite Heq in H. injection H as <- _. discriminate.
  - injection H as H.
    destruct (print_uint_inj _ _ _ _ H D1 D2) as [Hu ->].
    apply Unsigned.to_uint_inj in Hu. by subst.
Qed.

Lemma join_cons (p : list ascii) (rest : list (list ascii)) :
  join (p :: rest) = p ++ join_rest rest.
Proof.
  revert p. induction rest as [|q rest IH]; intros p; simpl.
  - by rewrite app_nil_r.
  - f_equal. f_equal. apply IH.
Qed.

Section Joined.
Context {A : Type} (f : A → list ascii) (close : ascii).
Hypothesis close_not_comma : close ≠ ","%char.
Hypothesis close_not_digit : is_digit close = false.
Hypothesis f_head : ∀ a r, ∃ c t, f a ++ r = c :: t ∧ c ≠ close.

Lemma join_rest_delimited (l : list A) (r : list ascii) :
  delimited (join_rest (map f l) ++ close :: r).
Proof. destruct l; simpl; [exact close_not_digit | reflexivity]. Qed.

Lemma join_rest_inj (l l' : list A) (r r' : list ascii) :
  Forall (told_apart f) l →
  join_rest (map f l) ++ close :: r = join_rest (map f l') ++ close :: r' →
  l = l' ∧ r = r'.
Proof.
  intros Hall. revert l'. induction Hall as [|a l Ha _ IH]; intros [|a' l']; simpl; intros H.
  - by injection H.
  - injection H as Hc _. done.
  - injection H as Hc _. done.
  - injection H as H. rewrite <- !app_assoc in H.
    destruct (Ha a' _ _ H (join_rest_delimited l r) (join_rest_delimited l' r'))
      as [-> Hrest].
    destruct (IH _ Hrest) as [-> ->]. done.
Qed.

Lemma join_inj (l l' : list A) (r r' : list ascii) :
  Forall (told_apart f) l →
  join (map f l) ++ close :: r = join (map f l') ++ close :: r' →
  l = l' ∧ r = r'.
Proof.
  intros Hall. destruct l as [|a l], l' as [|a' l']; simpl map; intros H.
  - by injection H.
  - rewrite join_cons, <- app_assoc in H. simpl in H.
    destruct (f_head a' (join_rest (map f l') ++ close :: r')) as (c & t & Heq & Hc).
    rewrite Heq in H. injection H as -> _. done.
  - rewrite join_cons, <- app_assoc in H. simpl in H.
    destruct (f_head a (join_rest (map f l) ++ close :: r)) as (c & t & Heq & Hc).
    rewrite Heq in H. injection H as <- _. done.
  - rewrite !join_cons, <- !app_assoc in H.
    inversion Hall as [|? ? Ha Hl]; subst.
    destruct (Ha a' _ _ H (join_rest_delimited l r) (join_rest_delimited l' r'))
      as [-> Hrest].
    destruct (join_rest_inj _ _ _ _ Hl Hrest) as [-> ->]. done.
Qed.

End Joined.

Lemma print_head (v : Json.value) (r : list ascii) :
  ∃ c t, print v ++ r = c :: t ∧ kindOfHead c = Some (kindOf v).
Proof.
  destruct v as [ |[]|[|p|p]|s|vs|ms]; simpl; eauto.
  destruct (print_uint_head (Pos.to_uint p) r (Unsigned.to_uint_nonnil p))
    as (c & t & -> & Hc).
  exists c, t. split; [done|]. unfold kindOfHead. rewrite Hc.
  destruct c as [[] [] [] [] [] [] [] []]; try discriminate Hc; reflexivity.
Qed.

Lemma print_head_not (close : ascii) (v : Json.value) (r : list ascii) :
  kindOfHead close = None → ∃ c t, print v ++ r = c :: t ∧ c ≠ close.
Proof.
  intros Hclose. destruct (print_head v r) as (c & t & Heq & Hk).
  exists c, t. split; [done|]. intros ->. congruence.
Qed.

Lemma print_kind (v1 v2 : Json.value) (r1 r2 : list ascii) :
  print v1 ++ r1 = print v2 ++ r2 → kindOf v1 = kindOf v2.
Proof.
  intros H.
  destruct (print_head v1 r1) as (c1 & t1 & E1 & K1).
  destruct (print_head v2 r2) as (c2 & t2 & E2 & K2).
  rewrite E1, E2 in H. injection H as -> _. congruence.
Qed.

Theorem print_inj (v1 : Json.value) :
  ∀ v2 r1 r2,
    print v1 ++ r1 = print v2 ++ r2 → delimited r1 → delimited r2 → v1 = v2 ∧ r1 = r2.
Proof.
  induction v1 as [ |b1|z1|s1|vs1 IH|ms1 IH] using value_ind_nested;
    intros v2 r1 r2 H D1 D2.
  all: pose proof (print_kind _ _ _ _ H) as Hkind.
  all: destruct v2 as [ |b2|z2|s2|vs2|ms2]; try discriminate Hkind; clear Hkind.
  - simpl in H. by injection H.
  - destruct b1, b2; simpl in H; try discriminate H; by injection H.
  - simpl in H. destruct (print_Z_inj _ _ _ _ H D1 D2) as [-> ->]. done.
  - simpl in H. destruct (quote_inj _ _ _ _ H) as [-> ->]. done.
  - simpl in H. rewrite <- !app_assoc in H. simpl in H. injection H as H.
    destruct (join_inj print "]"%char ltac:(discriminate) eq_refl
                (fun v r => print_head_not "]"%char v r eq_refl) vs1 vs2 r1 r2) as [-> ->];
      [|exact H|done].
    eapply Forall_impl; [exact IH|]. intros v Hv a' r r'. apply Hv.
  - simpl in H. rewrite <- !app_assoc in H. simpl in H. injection H as H.
    destruct (join_inj (fun m => quote (fst m) ++ ":"%char :: print (snd m)) "}"%char
                ltac:(discriminate) eq_refl) with (l := ms1) (l' := ms2) (r := r1) (r' := r2)
      as [-> ->]; [| |exact H|done].
    + intros [k v] r. simpl. eexists _, _. split; [reflexivity | discriminate].
    + eapply Forall_impl; [exact IH|]. intros [k v] Hv [k' v'] r r'. cbn [fst snd] in *.
      rewrite <- !app_assoc, <- !app_comm_cons. intros Heq Dr Dr'.
      destruct (quote_inj _ _ _ _ Heq) as [-> Hrest]. injection Hrest as Hrest.
      destruct (Hv _ _ _ Hrest Dr Dr') as [-> ->]. done.
Qed.

Corollary stringify_inj (v1 v2 : Json.value) : stringify v1 = stringify v2 → v1 = v2.
Proof.
  unfold stringify. intros H.
  pose proof (f_equal list_ascii_of_string H) as Hl.
  rewrite !list_ascii_of_string_of_list_ascii in Hl.
  destruct (print_inj v1 v2 [] []) as [-> _]; [by rewrite !app_nil_r|done|done|done].
Qed.

End JsonFacts.

(** ** Reconciliation of the profile collection (hooks/useArchiveStore.ts) *)









Section PrevById.
Import ArchiveStore.

Lemma prevById_from_absent (prev : list ProfileObject) (m : gmap string ProfileObject)
    (k : string) :
  k ∉ map idOf prev →
  foldl (fun m (p : ProfileObject) => <[id p := p]> m) m prev !! k = m !! k.
Proof.
  revert m. induction prev as [|p prev IH]; intros m Hk; simpl; [reflexivity|].
  rewrite IH by (intros Hin; apply Hk; simpl; by right).
  apply lookup_insert_ne. intros Heq. apply Hk. simpl. rewrite Heq. by left.
Qed.

Lemma prevById_from_present (prev : list ProfileObject) (m : gmap string ProfileObject)
    (p : ProfileObject) :
  NoDup (map idOf prev) → p ∈ prev →
  foldl (fun m (p : ProfileObject) => <[id p := p]> m) m prev !! id p = Some p.
Proof.
  revert m. induction prev as [|q prev IH]; intros m Hnd Hp; [by inversion Hp|].
  simpl in *. apply NoDup_cons in Hnd as [Hq Hnd].
  apply elem_of_cons in Hp as [->|Hp].
  - rewrite prevById_from_absent by exact Hq. apply lookup_insert_eq.
  - by apply IH.
Qed.

Lemma changedProfile_kept (prev : list ProfileObject) (p : ProfileObject) :
  NoDup (map idOf prev) → p ∈ prev →
  changedProfile prev p = false.
Proof.
  intros Hnd Hp. unfold changedProfile, prevById.
  rewrite (prevById_from_present prev ∅ p Hnd Hp).
  by rewrite bool_decide_eq_true_2.
Qed.




End PrevById.

Lemma filter_none {A} (P : A → Prop) `{∀ x, Decision (P x)} (l : list A) :
  (∀ x, x ∈ l → ¬ P x) → filter P l = [].
Proof.
  induction l as [|x l IH]; intros Hl; [reflexivity|].
  rewrite filter_cons_False by (apply Hl; by left).
  apply IH. intros y Hy. apply Hl. by right.
Qed.

Section SingleUpsert.
Context {Σ : Type} (sb : Remote Σ).



End SingleUpsert.




(** ** Home-person selection (hooks/useGedcomImport.ts) *)

(** C4, as stated, fails: [chooseHome] takes any profile and checks no
    membership, so a profile outside the pending tree becomes its home
    person and the stored tree breaks the invariant. *)
Lemma chooseHome_accepts_non_member :
  let pending :=
    {| GedcomImport.importedProfiles := [literal (Samples.person "a" "Ada")];
       GedcomImport.tree :=
         {| ft_id := "t1"; ft_userId := "u1"; ft_name := "Imported";
            ft_createdAt := "2024-01-01"; ft_homePersonId := "";
            ft_memberIds := ["a"] |} |} in
  let app :=
    {| GedcomImport.store := Samples.signedIn ArchiveStore.initialState [];
       GedcomImport.pendingImport := Some pending;
       GedcomImport.view := SELECT_HOME;
       GedcomImport.toasts := [] |} in
  let app' := GedcomImport.chooseHome (literal (Samples.person "z" "Zed")) app in
  ∃ t, ArchiveStore.familyTrees (ArchiveStore.state (GedcomImport.store app')) = [t]
       ∧ ft_homePersonId t = "z"
       ∧ ft_memberIds t = ["a"]
       ∧ ¬ GedcomImport.homeIsMember t.
Proof.
  eexists. split; [vm_compute; reflexivity|]. split; [reflexivity|]. split; [reflexivity|].
  unfold GedcomImport.homeIsMember. simpl. intros H.
  specialize (H ltac:(discriminate)).
  inversion H as [|? ? ? H']; subst. inversion H'.
Qed.

(** C4 (amended): with a signed-in user and a pending import, choosing
    profile B puts the pending tree in front of the stored trees with
    [homePersonId = B.id], a new name and the same [memberIds], and leaves
    the trees already stored as they were.  The function does not check that
    B belongs to the tree: the new tree satisfies the invariant exactly when
    [B.id] is one of its [memberIds] or is empty, which is the case when B
    is one of the imported profiles and the tree lists all of their ids. *)
Theorem chooseHome_sets_home (selected : ProfileObject) (app : GedcomImport.App)
    (pending : GedcomImport.Imported) :
  assertAuthenticated (ArchiveStore.user (GedcomImport.store app)) = true →
  GedcomImport.pendingImport app = Some pending →
  let app' := GedcomImport.chooseHome selected app in
  let t := GedcomImport.updatedTree pending selected in
  ArchiveStore.familyTrees (ArchiveStore.state (GedcomImport.store app'))
  = t :: ArchiveStore.familyTrees (ArchiveStore.state (GedcomImport.store app))
  ∧ ft_homePersonId t = id selected
  ∧ ft_memberIds t = ft_memberIds (GedcomImport.tree pending)
  ∧ (GedcomImport.homeIsMember t
     ↔ id selected = "" ∨ id selected ∈ ft_memberIds (GedcomImport.tree pending))
  ∧ (selected ∈ GedcomImport.importedProfiles pending →
     (∀ p : ProfileObject, p ∈ GedcomImport.importedProfiles pending →
           id p ∈ ft_memberIds (GedcomImport.tree pending)) →
     GedcomImport.homeIsMember t)
  ∧ GedcomImport.pendingImport app' = None.
Proof.
  intros Hauth Hpending app' t. subst app'.
  unfold GedcomImport.chooseHome. rewrite Hauth, Hpending.
  split; [reflexivity|]. split; [reflexivity|]. split; [reflexivity|].
  split; [|split; [|reflexivity]].
  - unfold GedcomImport.homeIsMember. simpl.
    destruct (decide (id selected = "")) as [Hempty|Hset]; split; intros H; auto.
    + intros Hne. by destruct H.
    + intros _. by destruct H.
  - intros Hin Hall _. simpl. by apply Hall.
Qed.

Lemma chooseHome_sets_home_witness :
  let pending :=
    {| GedcomImport.importedProfiles :=
         [literal (Samples.person "a" "Ada"); literal (Samples.person "b" "Bob")];
       GedcomImport.tree :=
         {| ft_id := "t1"; ft_userId := "u1"; ft_name := "Imported";
            ft_createdAt := "2024-01-01"; ft_homePersonId := "";
            ft_memberIds := ["a"; "b"] |} |} in
  let app :=
    {| GedcomImport.store := Samples.signedIn ArchiveStore.initialState [];
       GedcomImport.pendingImport := Some pending;
       GedcomImport.view := SELECT_HOME;
       GedcomImport.toasts := [] |} in
  assertAuthenticated (ArchiveStore.user (GedcomImport.store app)) = true
  ∧ GedcomImport.pendingImport app = Some pending
  ∧ ft_homePersonId (GedcomImport.updatedTree pending (literal (Samples.person "b" "Bob"))) = "b"
  ∧ GedcomImport.homeIsMember
      (GedcomImport.updatedTree pending (literal (Samples.person "b" "Bob"))).
Proof.
  intros pending app.
  pose proof (chooseHome_sets_home (literal (Samples.person "b" "Bob")) app pending eq_refl eq_refl)
    as (_ & Hhome & _ & Hinv & _ & _).
  split; [reflexivity|]. split; [reflexivity|]. split; [exact Hhome|].
  apply Hinv. right. simpl. apply elem_of_cons. right. apply elem_of_cons. by left.
Defined.

(** ** GEDCOM import (utils/gedcom.ts as specified, hooks/useGedcomImport.ts) *)

Section GedcomBuilder.
Import Gedcom.

Lemma close_count (b : Builder) : length (individuals (close b)) = individualCount b.
Proof.
  unfold close, individualCount. destruct (current b); simpl; [lia| |lia].
  rewrite length_app. simpl. lia.
Qed.

Lemma close_current (b : Builder) : current (close b) = NoRecord.
Proof. unfold close. by destruct (current b) eqn:E; simpl. Qed.

Lemma header_count (t : Token) :
  match header t with OpenIndividual _ => 1 | _ => 0 end
  = if bool_decide (is_Some (xref t)) && bool_decide (tag t = "INDI") then 1 else 0.
Proof.
  unfold header. destruct (xref t) as [x|].
  - rewrite (bool_decide_eq_true_2 (is_Some (Some x))) by eauto.
    destruct (decide (tag t = "INDI")) as [Ht|Ht].
    + by rewrite (bool_decide_eq_true_2 _ Ht).
    + rewrite (bool_decide_eq_false_2 _ Ht). by destruct (decide (tag t = "FAM")).
  - rewrite (bool_decide_eq_false_2 (is_Some None)) by (intros [? ?]; discriminate).
    reflexivity.
Qed.

Lemma feed_count (b : Builder) (t : Token) :
  individualCount (feed b t)
  = individualCount b + if opensIndividual t then 1 else 0.
Proof.
  unfold feed, opensIndividual.
  destruct (decide (level t = 0)) as [H0|H0].
  - rewrite (bool_decide_eq_true_2 _ H0).
    unfold individualCount at 1. cbn [individuals current andb].
    by rewrite close_count, header_count.
  - rewrite (bool_decide_eq_false_2 _ H0). cbn [andb].
    unfold individualCount. destruct (current b) as [|i|f] eqn:E; simpl.
    + rewrite E. lia.
    + destruct (inIndividual t (event b) i). simpl. lia.
    + destruct (inFamily t (event b) f). simpl. lia.
Qed.

Lemma foldl_feed_count (tokens : list Token) (b : Builder) :
  individualCount (foldl feed b tokens)
  = individualCount b + length (filter (fun t => opensIndividual t = true) tokens).
Proof.
  revert b. induction tokens as [|t tokens IH]; intros b; simpl; [lia|].
  rewrite IH, feed_count.
  destruct (opensIndividual t) eqn:E.
  - rewrite filter_cons_True by done. simpl. lia.
  - rewrite filter_cons_False by (rewrite E; done). lia.
Qed.

(** The builder files one individual record per [INDI] header line. *)
Lemma build_individuals (tokens : list Token) :
  length (individuals (build tokens))
  = length (filter (fun t => opensIndividual t = true) tokens).
Proof. unfold build. rewrite close_count, foldl_feed_count. reflexivity. Qed.

Lemma no_individual_iff (tokens : list Token) :
  individuals (build tokens) = [] ↔ Forall (fun t => opensIndividual t = false) tokens.
Proof.
  rewrite <- length_zero_iff_nil, build_individuals, length_zero_iff_nil.
  split.
  - intros Hnone. apply Forall_forall. intros t Ht.
    destruct (opensIndividual t) eqn:E; [|reflexivity].
    assert (t ∈ filter (fun t => opensIndividual t = true) tokens) as Hin
      by (apply list_elem_of_filter; done).
    rewrite Hnone in Hin. inversion Hin.
  - intros Hall. apply filter_none. intros t Ht.
    rewrite (proj1 (Forall_forall _ _) Hall t Ht). discriminate.
Qed.

Lemma linked_known (b : Builder) (x y : string) :
  y ∈ parentsOf b x ∨ y ∈ childrenOf b x ∨ y ∈ spousesOf b x →
  y ∈ map i_xref (individuals b).
Proof.
  unfold parentsOf, childrenOf, spousesOf, known.
  intros [H|[H|H]]; apply list_elem_of_filter in H as [H _];
    by apply bool_decide_eq_true_1 in H.
Qed.

End GedcomBuilder.

(** C5: [parseGedcom] fails exactly when no line of the text opens an
    Individual record, and then with [ParseError].  When it returns, every
    id in a person's parent, child and spouse sets is the id of an
    Individual record of the text, so a family link to a missing individual
    is left out rather than refused, and the tree has no home person.  A
    failure reaches [handleGedcomUpload] at the call: the pending import and
    the view stay as they were, and the user is told with one toast. *)
Theorem parseGedcom_fails_iff_no_individual {Σ : Type}
    (fresh : Gedcom.Fresh) (text ownerId : string) (maxGenerations : nat) :
  let parsed := Gedcom.parseGedcom fresh text ownerId maxGenerations in
  let known := map Gedcom.i_xref (Gedcom.individuals (Gedcom.build (Gedcom.tokenize text))) in
  ((∃ e, parsed = Thrown e)
   ↔ Forall (fun t => Gedcom.opensIndividual t = false) (Gedcom.tokenize text))
  ∧ (∀ e, parsed = Thrown e → e = Gedcom.ParseError)
  ∧ (∀ result, parsed = Returned result →
       ft_homePersonId (GedcomImport.tree result) = ""
       ∧ ∀ (p : ProfileObject) y, p ∈ GedcomImport.importedProfiles result →
                y ∈ parentIds p ∨ y ∈ childIds p ∨ y ∈ spouseIds p → y ∈ known)
  ∧ (∀ e (app : GedcomImport.App) (w : World Σ) (u : User) (others : list string),
       ArchiveStore.user (GedcomImport.store app) = Some u →
       assertAuthenticated (Some u) = true →
       Gedcom.parseGedcom fresh text (u_id u) 4 = Thrown e →
       let res :=
         GedcomImport.handleGedcomUpload (Gedcom.parseGedcom fresh) (text :: others) app w in
       GedcomImport.pendingImport (fst res) = GedcomImport.pendingImport app
       ∧ GedcomImport.view (fst res) = GedcomImport.view app
       ∧ GedcomImport.store (fst res) = GedcomImport.store app
       ∧ GedcomImport.toasts (fst res) = GedcomImport.toasts app ++ ["Error parsing GEDCOM"]
       ∧ console (snd res) = console w ++ [e]).
Proof.
  intros parsed known.
  refine (conj _ (conj _ (conj _ _))).
  - rewrite <- no_individual_iff. subst parsed. unfold Gedcom.parseGedcom.
    destruct (Gedcom.individuals (Gedcom.build (Gedcom.tokenize text))) as [|start rest].
    + split; [reflexivity | eauto].
    + split; [intros [e He]; discriminate | discriminate].
  - intros e. subst parsed. unfold Gedcom.parseGedcom.
    destruct (Gedcom.individuals (Gedcom.build (Gedcom.tokenize text))) as [|start rest];
      [by intros [= <-] | discriminate].
  - intros result Hres. subst parsed known. unfold Gedcom.parseGedcom in Hres.
    set (b := Gedcom.build (Gedcom.tokenize text)) in *.
    destruct (Gedcom.individuals b) as [|start rest] eqn:E; [discriminate|].
    injection Hres as <-. cbn [GedcomImport.tree GedcomImport.importedProfiles ft_homePersonId].
    split; [reflexivity|].
    intros p y Hp Hy.
    apply list_elem_of_omap in Hp as (x & _ & Hx).
    apply fmap_Some in Hx as (i & _ & ->).
    pose proof (linked_known b (Gedcom.i_xref i) y Hy) as Hk.
    by rewrite E in Hk.
  - intros e app w u others Hu Hauth Hparse res. subst res.
    unfold GedcomImport.handleGedcomUpload. rewrite Hu, Hauth, Hparse.
    repeat split.
Qed.

Lemma parseGedcom_fails_iff_no_individual_witness :
  let app :=
    {| GedcomImport.store := Samples.signedIn ArchiveStore.initialState [];
       GedcomImport.pendingImport := None;
       GedcomImport.view := HOME;
       GedcomImport.toasts := [] |} in
  let res :=
    GedcomImport.handleGedcomUpload (Gedcom.parseGedcom Samples.fresh)
      [Samples.emptyGedcom] app (Samples.world []) in
  Gedcom.parseGedcom Samples.fresh Samples.emptyGedcom "u1" 4 = Thrown Gedcom.ParseError
  ∧ GedcomImport.pendingImport (fst res) = None
  ∧ GedcomImport.toasts (fst res) = ["Error parsing GEDCOM"]
  ∧ (∃ result,
        Gedcom.parseGedcom Samples.fresh Samples.danglingGedcom "u1" 4 = Returned result
        ∧ map idOf (GedcomImport.importedProfiles result)
          = ["I1"; "I2"; "I3"]
        ∧ map (fun p : ProfileObject => parentIds p) (GedcomImport.importedProfiles result)
          = [[]; ["I1"]; []]
        ∧ map (fun p : ProfileObject => childIds p) (GedcomImport.importedProfiles result)
          = [["I2"]; []; []]).
Proof.
  intros app res.
  assert (Gedcom.parseGedcom Samples.fresh Samples.emptyGedcom "u1" 4
          = Thrown Gedcom.ParseError) as Hfail by (vm_compute; reflexivity).
  pose proof (@parseGedcom_fails_iff_no_individual (list bool)
                Samples.fresh Samples.emptyGedcom "u1" 4) as (_ & _ & _ & Hupload).
  destruct (Hupload Gedcom.ParseError app (Samples.world []) Samples.ada []
              eq_refl eq_refl Hfail) as (Hpending & _ & _ & Htoasts & _).
  split; [exact Hfail|]. split; [exact Hpending|]. split; [exact Htoasts|].
  eexists. split; [vm_compute; reflexivity|]. repeat split.
Defined.

(* ===================================================================== *)
(** * Part III. Further properties of the code                            *)
(* ===================================================================== *)

(** ** The tree mappers (lib/mappers.ts) *)

(** X1: writing a tree with [treeToInsert] and reading the stored row back
    with [rowToTree] gives the tree again, with the creation time of the
    row: id, owner, name, member ids and home person are kept, an unset
    home person (the empty string) travelling as [null]. *)
Theorem tree_roundtrip (t : FamilyTree) (created updated : string) :
  rowToTree (storedTreeRow (treeToInsert t) created updated)
  = {| ft_id := ft_id t; ft_userId := ft_userId t; ft_name := ft_name t;
       ft_createdAt := created; ft_homePersonId := ft_homePersonId t;
       ft_memberIds := ft_memberIds t |}
  ∧ (ti_home_person_id (treeToInsert t) = None ↔ ft_homePersonId t = "")
  ∧ (GedcomImport.homeIsMember t
     → GedcomImport.homeIsMember
         (rowToTree (storedTreeRow (treeToInsert t) created updated))).
Proof.
  assert (rowToTree (storedTreeRow (treeToInsert t) created updated)
          = {| ft_id := ft_id t; ft_userId := ft_userId t; ft_name := ft_name t;
               ft_createdAt := created; ft_homePersonId := ft_homePersonId t;
               ft_memberIds := ft_memberIds t |}) as Hback.
  { unfold rowToTree, treeToInsert, storedTreeRow. simpl. by rewrite or_null_default. }
  split; [exact Hback|]. split.
  - simpl. unfold or_null. destruct (decide (ft_homePersonId t = "")); split; congruence.
  - rewrite Hback. unfold GedcomImport.homeIsMember. simpl. tauto.
Qed.

Lemma tree_roundtrip_witness :
  let t := {| ft_id := "t1"; ft_userId := "u1"; ft_name := "The Ada Archive";
              ft_createdAt := "2024-01-01"; ft_homePersonId := "a";
              ft_memberIds := ["a"; "b"] |} in
  GedcomImport.homeIsMember t
  ∧ GedcomImport.homeIsMember (rowToTree (storedTreeRow (treeToInsert t) "c" "u")).
Proof.
  intros t.
  assert (GedcomImport.homeIsMember t) as Hinv
    by (intros _; simpl; apply elem_of_cons; by left).
  split; [exact Hinv|].
  destruct (tree_roundtrip t "c" "u") as (_ & _ & Hkeep). by apply Hkeep.
Defined.

(** X2: reading a profile row with [rowToProfile] and writing it back with
    [profileToInsert] under the row's own tree id gives the same columns,
    provided none of the four nullable text columns holds an empty string;
    an empty string in one of them is written back as [null]. *)
Theorem profile_row_roundtrip (row : ProfileRow) :
  let cols := pr_cols row in
  pi_birth_year cols ≠ Some "" → pi_death_year cols ≠ Some "" →
  pi_image_url cols ≠ Some "" → pi_summary cols ≠ Some "" →
  profileToInsert (rowToProfile row) (pi_tree_id cols) = cols.
Proof.
  destruct row as [[i u tr n g b d im su h m pa ch sp ti me so] c up]. simpl.
  intros Hb Hd Him Hsu. unfold profileToInsert, rowToProfile. simpl.
  assert (∀ o : option string, o ≠ Some "" → or_null (default "" o) = o) as Hnorm.
  { intros [x|] Hx; simpl; unfold or_null.
    - destruct (decide (x = "")); congruence.
    - reflexivity. }
  rewrite (Hnorm b Hb), (Hnorm im Him), (Hnorm su Hsu), (opt_or_null_fixed d Hd).
  reflexivity.
Qed.

Lemma profile_row_roundtrip_witness :
  let row := storedProfileRow (profileToInsert (Samples.person "a" "Ada") (Some "t1")) "c" "u" in
  pi_birth_year (pr_cols row) ≠ Some ""
  ∧ profileToInsert (rowToProfile row) (Some "t1") = pr_cols row.
Proof.
  intros row. split; [simpl; discriminate|].
  apply (profile_row_roundtrip row); simpl; discriminate.
Defined.

(** ** Requests of the post and media repositories *)

Section RepoRequests.
Context {Σ : Type} (sb : Remote Σ).

Lemma send_requests (r : Request) (w : World Σ) :
  map request (trace (snd (send sb r w))) = map request (trace w) ++ [r].
Proof. rewrite send_trace, map_app. reflexivity. Qed.

Lemma send_console (r : Request) (w : World Σ) :
  console (snd (send sb r w)) = console w.
Proof. unfold send. destruct (sb r (remote w)); reflexivity. Qed.

Lemma send_clock (r : Request) (w : World Σ) :
  clock (snd (send sb r w)) = clock w.
Proof. unfold send. destruct (sb r (remote w)); reflexivity. Qed.

End RepoRequests.

(** X3: [createPost] sends the insert of the post row and, only when that
    insert is accepted and the post tags at least one profile, one
    [post_people] insert after it, with one row per tagged id, each carrying
    the id of the row the database returned and the author's user id.
    Nothing else is sent, and nothing at all after a refused insert. *)
Theorem createPost_requests {Σ : Type} (sb : Remote Σ) (post : CirclePost) (w : World Σ) :
  let sent := map request (trace (snd (createPost sb post w))) in
  match fst (send sb (PostsInsertSingle (postToInsert post)) w) with
  | Failure _ => sent = map request (trace w) ++ [PostsInsertSingle (postToInsert post)]
  | Success data =>
      sent
      = map request (trace w)
          ++ PostsInsertSingle (postToInsert post)
          :: (if decide (cp_taggedProfileIds post = []) then []
              else [PostPeopleInsert (postMentions data post)])
      ∧ map pp_profile_id (postMentions data post) = cp_taggedProfileIds post
      ∧ Forall (fun m => pp_post_id m = po_id (por_cols data)
                         ∧ pp_user_id m = cp_userId post) (postMentions data post)
  end.
Proof.
  intros sent. subst sent. unfold createPost, bind, perform.
  pose proof (send_requests sb (PostsInsertSingle (postToInsert post)) w) as Htr.
  destruct (send sb (PostsInsertSingle (postToInsert post)) w) as [[data|err] w1];
    simpl in *; [|exact Htr].
  split; [|split].
  - destruct (decide (0 < length (cp_taggedProfileIds post))) as [Hlen|Hlen].
    + destruct (decide (cp_taggedProfileIds post = [])) as [Hnil|_];
        [rewrite Hnil in Hlen; simpl in Hlen; lia|].
      fold (postMentions data post).
      pose proof (send_requests sb (PostPeopleInsert (postMentions data post)) w1) as Htr2.
      destruct (send sb (PostPeopleInsert (postMentions data post)) w1) as [[[]|me] w2];
        simpl in *; rewrite Htr2, Htr, <- app_assoc; reflexivity.
    + destruct (decide (cp_taggedProfileIds post = [])) as [_|Hne].
      * simpl. exact Htr.
      * destruct (cp_taggedProfileIds post); [done | simpl in Hlen; lia].
  - unfold postMentions. rewrite map_map. simpl. apply map_id.
  - unfold postMentions. apply Forall_forall. intros m Hm.
    apply list_elem_of_In, in_map_iff in Hm. destruct Hm as (x & <- & _). done.
Qed.

Lemma finishUpload_trace {Σ : Type} (row : MediaRow) (signed : Outcome string * World Σ) :
  trace (snd (finishUpload row signed)) = trace (snd signed).
Proof. by destruct signed as [[?|?] ?]. Qed.

Lemma getSignedUrl_trace {Σ : Type} (sb : Remote Σ) (path : string) (w : World Σ) :
  ∃ rejected,
    trace (snd (getSignedUrl sb path w))
    = trace w
        ++ [{| request := StorageCreateSignedUrl BUCKET path SIGNED_URL_EXPIRY_SECONDS;
               rejected := rejected |}].
Proof.
  unfold getSignedUrl, bind, perform.
  pose proof (send_trace sb (StorageCreateSignedUrl BUCKET path SIGNED_URL_EXPIRY_SECONDS) w)
    as T.
  destruct (send sb _ w) as [[url|e] w1]; simpl in T.
  - destruct (decide (url = "")); simpl; eauto.
  - simpl. eauto.
Qed.

(** X4: the requests of [uploadMedia] follow the answers of the store,
    all for the one storage path built at the start. When the upload is
    refused, the upload is the only request. When the upload is accepted and
    the row insert refused, the requests are the upload, the insert and one
    removal of the uploaded path. When both are accepted, they are the
    upload, the insert, the [media_people] insert if and only if a profile is
    tagged, with one row per tagged id carrying the id of the returned row,
    and last the signed-URL request for the path with the 3600 second expiry,
    whatever the tagging answered. The inserted row stores the uploaded
    path. *)
Theorem uploadMedia_requests {Σ : Type} (sb : Remote Σ)
    (opts : UploadMediaOptions) (w : World Σ) :
  let path := storagePathOf opts w in
  let file := opt_file opts in
  let tagged := default [] (opt_taggedProfileIds opts) in
  let sent := requestsOf (uploadMedia sb opts) w in
  let upload :=
    StorageUpload BUCKET path file
      (if decide (file_type file = "") then "application/octet-stream" else file_type file)
      false in
  let insert :=
    MediaInsertSingle
      {| mi_user_id := opt_userId opts; mi_name := file_name file;
         mi_kind := inferKind (file_type file); mi_storage_path := path;
         mi_public_url := None; mi_mime := or_null (file_type file);
         mi_size := file_size file |} in
  let sign := StorageCreateSignedUrl BUCKET path 3600 in
  match send sb upload w with
  | (Failure uploadError, _) =>
      sent = [upload]
      ∧ fst (uploadMedia sb opts w)
        = Thrown ("uploadMedia storage: " +:+ message uploadError)
  | (Success _, w1) =>
      match send sb insert w1 with
      | (Failure insertError, _) =>
          sent = [upload; insert; StorageRemove BUCKET [path]]
          ∧ fst (uploadMedia sb opts w)
            = Thrown ("uploadMedia insert: " +:+ message insertError)
      | (Success row, _) =>
          sent
          = upload :: insert
              :: (if decide (tagged = []) then [] else [MediaPeopleInsert (mediaTags row opts)])
              ++ [sign]
          ∧ map mp_profile_id (mediaTags row opts) = tagged
          ∧ Forall (fun t => mp_media_id t = mr_id row ∧ mp_user_id t = opt_userId opts)
              (mediaTags row opts)
      end
  end.
Proof.
  intros path file tagged sent upload insert sign.
  change upload with (uploadRequest opts w). change insert with (mediaInsertRequest opts w).
  subst sent sign path tagged. unfold requestsOf.
  pose proof (send_trace sb (uploadRequest opts w) w) as T1.
  destruct (send sb (uploadRequest opts w) w) as [[[]|e1] w1] eqn:E1; simpl in T1.
  2:{ rewrite (uploadMedia_upload_refused sb opts w w1 e1 E1). simpl.
      rewrite T1, drop_app_length. by split. }
  pose proof (send_trace sb (mediaInsertRequest opts w) w1) as T2.
  destruct (send sb (mediaInsertRequest opts w) w1) as [[row|e2] w2] eqn:E2; simpl in T2.
  2:{ split; [|by apply (uploadMedia_insert_refused sb opts w w1 w2)].
      unfold uploadMedia, bind, perform, now.
      fold (storagePathOf opts w). fold (uploadRequest opts w). rewrite E1.
      fold (mediaInsertRequest opts w). rewrite E2.
      pose proof (send_trace sb (StorageRemove BUCKET [storagePathOf opts w]) w2) as T3.
      destruct (send sb (StorageRemove BUCKET [storagePathOf opts w]) w2) as [r3 w3].
      simpl in *. rewrite T3, T2, T1, <- !app_assoc, drop_app_length. reflexivity. }
  split; [|split].
  2:{ unfold mediaTags. rewrite map_map. simpl. apply map_id. }
  2:{ unfold mediaTags. apply Forall_forall. intros t Ht.
      apply list_elem_of_In, in_map_iff in Ht. destruct Ht as (x & <- & _). done. }
  destruct (decide (0 < length (default [] (opt_taggedProfileIds opts)))) as [Hlen|Hlen].
  - destruct (decide (default [] (opt_taggedProfileIds opts) = [])) as [Hnil|_];
      [rewrite Hnil in Hlen; simpl in Hlen; lia|].
    pose proof (send_trace sb (MediaPeopleInsert (mediaTags row opts)) w2) as T3.
    destruct (send sb (MediaPeopleInsert (mediaTags row opts)) w2) as [reply w3] eqn:E3.
    rewrite (uploadMedia_tagging sb opts w w1 w2 w3 row reply E1 E2 Hlen E3).
    rewrite finishUpload_trace.
    destruct (getSignedUrl_trace sb (storagePathOf opts w)
                (match reply with
                 | Success _ => w3
                 | Failure tagError =>
                     snd (console_error
                            ("uploadMedia tagging failed: " +:+ message tagError) w3)
                 end)) as [rej ->].
    assert (trace (match reply with
                   | Success _ => w3
                   | Failure tagError =>
                       snd (console_error
                              ("uploadMedia tagging failed: " +:+ message tagError) w3)
                   end) = trace w3) as -> by (by destruct reply).
    simpl in T3. rewrite T3, T2, T1, <- !app_assoc, drop_app_length. reflexivity.
  - destruct (decide (default [] (opt_taggedProfileIds opts) = [])) as [_|Hne];
      [|destruct (default [] (opt_taggedProfileIds opts)); [done|simpl in Hlen; lia]].
    rewrite (uploadMedia_untagged sb opts w w1 w2 row E1 E2 Hlen).
    rewrite finishUpload_trace.
    destruct (getSignedUrl_trace sb (storagePathOf opts w) w2) as [rej ->].
    rewrite T2, T1, <- !app_assoc, drop_app_length. reflexivity.
Qed.

(** ** Storage paths (repos/mediaRepo.ts) *)

Lemma chars_app (a b : string) :
  list_ascii_of_string (a +:+ b) = list_ascii_of_string a ++ list_ascii_of_string b.
Proof. induction a as [|c a IH]; simpl; [reflexivity | by rewrite IH]. Qed.

Lemma string_chars_inj (a b : string) :
  list_ascii_of_string a = list_ascii_of_string b → a = b.
Proof.
  intros H. rewrite <- (string_of_list_ascii_of_string a), <- (string_of_list_ascii_of_string b).
  by rewrite H.
Qed.

Lemma sanitise_chars (s : string) :
  Forall (fun c => safe_char c = true) (list_ascii_of_string (sanitise s)).
Proof.
  induction s as [|c s IH]; simpl; constructor; [|exact IH].
  destruct (safe_char c) eqn:E; [exact E | reflexivity].
Qed.

(** X5: [sanitise] keeps the length of a file name, leaves only characters
    of the class [a-zA-Z0-9._-], changes nothing in a name that is already
    in that class, and so is idempotent. *)
Theorem sanitise_safe (s : string) :
  String.length (sanitise s) = String.length s
  ∧ Forall (fun c => safe_char c = true) (list_ascii_of_string (sanitise s))
  ∧ (Forall (fun c => safe_char c = true) (list_ascii_of_string s) → sanitise s = s)
  ∧ sanitise (sanitise s) = sanitise s.
Proof.
  assert (∀ t, Forall (fun c => safe_char c = true) (list_ascii_of_string t) → sanitise t = t)
    as Hfix.
  { induction t as [|c t IH]; simpl; intros H; [reflexivity|].
    inversion H as [|? ? Hc Ht]; subst. rewrite Hc. f_equal. by apply IH. }
  split; [|split; [apply sanitise_chars | split; [apply Hfix | apply Hfix, sanitise_chars]]].
  induction s as [|c s IH]; simpl; [reflexivity | by rewrite IH].
Qed.

Lemma sanitise_safe_witness :
  Forall (fun c => safe_char c = true) (list_ascii_of_string "family-tree_1900.png")
  ∧ sanitise "family-tree_1900.png" = "family-tree_1900.png"
  ∧ sanitise "my photo (1).png" = "my_photo__1_.png".
Proof.
  assert (Forall (fun c => safe_char c = true) (list_ascii_of_string "family-tree_1900.png"))
    as Hsafe by (simpl; repeat constructor).
  split; [exact Hsafe|]. split; [|reflexivity].
  destruct (sanitise_safe "family-tree_1900.png") as (_ & _ & Hfix & _). by apply Hfix.
Defined.

Lemma split_at_last (sep : ascii) (u1 u2 r1 r2 : list ascii) :
  sep ∉ r1 → sep ∉ r2 → u1 ++ sep :: r1 = u2 ++ sep :: r2 → u1 = u2 ∧ r1 = r2.
Proof.
  intros H1 H2. revert u2. induction u1 as [|c u1 IH]; intros [|d u2]; simpl; intros H.
  - by injection H.
  - injection H as <- ->. exfalso. apply H1. apply elem_of_app. right. by left.
  - injection H as -> <-. exfalso. apply H2. apply elem_of_app. right. by left.
  - injection H as -> H. by destruct (IH _ H) as [-> ->].
Qed.

Lemma print_uint_digits (d : Decimal.uint) :
  Forall (fun c => JsonRead.is_digit c = true) (print_uint d).
Proof. induction d; simpl; constructor; try reflexivity; assumption. Qed.

Lemma print_Z_no_slash (z : Z) : "/"%char ∉ print_Z z.
Proof.
  assert (∀ d, "/"%char ∉ print_uint d) as Hd.
  { intros d Hin. pose proof (print_uint_digits d) as Hall.
    rewrite Forall_forall in Hall. specialize (Hall _ Hin). discriminate. }
  destruct z as [|p|p]; simpl.
  - intros Hin. apply list_elem_of_singleton in Hin. discriminate.
  - apply Hd.
  - intros Hin. apply elem_of_cons in Hin as [Heq|Hin]; [discriminate | by apply (Hd _ Hin)].
Qed.

Lemma path_tail_no_slash (z : Z) (name : string) :
  "/"%char ∉ print_Z z ++ "-"%char :: list_ascii_of_string (sanitise name).
Proof.
  intros Hin. apply elem_of_app in Hin as [Hin|Hin]; [by apply (print_Z_no_slash z)|].
  apply elem_of_cons in Hin as [Heq|Hin]; [discriminate|].
  pose proof (sanitise_chars name) as Hall. rewrite Forall_forall in Hall.
  specialize (Hall _ Hin). discriminate.
Qed.

Lemma storagePath_chars {Σ : Type} (opts : UploadMediaOptions) (w : World Σ) :
  list_ascii_of_string (storagePathOf opts w)
  = list_ascii_of_string (opt_userId opts)
      ++ "/"%char
      :: (print_Z (clock w)
            ++ "-"%char :: list_ascii_of_string (sanitise (file_name (opt_file opts)))).
Proof.
  unfold storagePathOf, show_Z. rewrite !chars_app, list_ascii_of_string_of_list_ascii.
  reflexivity.
Qed.

(** X6: the storage path of an upload determines the user id, the clock
    reading and the sanitised file name it was built from.  Two uploads get
    the same path only when all three agree, so uploads of different users
    never share a path. *)
Theorem storagePath_separates {Σ : Type} (o1 o2 : UploadMediaOptions) (w1 w2 : World Σ) :
  (storagePathOf o1 w1 = storagePathOf o2 w2
   ↔ opt_userId o1 = opt_userId o2
     ∧ clock w1 = clock w2
     ∧ sanitise (file_name (opt_file o1)) = sanitise (file_name (opt_file o2)))
  ∧ (opt_userId o1 ≠ opt_userId o2 → storagePathOf o1 w1 ≠ storagePathOf o2 w2).
Proof.
  assert (storagePathOf o1 w1 = storagePathOf o2 w2 →
          opt_userId o1 = opt_userId o2
          ∧ clock w1 = clock w2
          ∧ sanitise (file_name (opt_file o1)) = sanitise (file_name (opt_file o2))) as Hinj.
  { intros H. apply (f_equal list_ascii_of_string) in H.
    rewrite !storagePath_chars in H.
    apply split_at_last in H as [Hu Hrest]; [|apply path_tail_no_slash..].
    apply JsonFacts.print_Z_inj in Hrest as [Hz Hn]; [|reflexivity..].
    injection Hn as Hn.
    split; [by apply string_chars_inj|]. split; [exact Hz | by apply string_chars_inj]. }
  split; [split; [exact Hinj|] | intros Hne Heq; by apply Hne, Hinj].
  intros (Hu & Hc & Hn). unfold storagePathOf. by rewrite Hu, Hc, Hn.
Qed.

Lemma storagePath_separates_witness :
  let file := {| file_name := "a.png"; file_type := "image/png"; file_size := 3 |} in
  let o1 := {| opt_userId := "u1"; opt_file := file; opt_taggedProfileIds := None |} in
  let o2 := {| opt_userId := "u2"; opt_file := file; opt_taggedProfileIds := None |} in
  opt_userId o1 ≠ opt_userId o2
  ∧ storagePathOf o1 (Samples.world []) ≠ storagePathOf o2 (Samples.world []).
Proof.
  intros file o1 o2.
  assert (opt_userId o1 ≠ opt_userId o2) as Hne by (simpl; discriminate).
  split; [exact Hne|].
  destruct (storagePath_separates o1 o2 (Samples.world []) (Samples.world [])) as (_ & Hsep).
  by apply Hsep.
Defined.

(** ** Reconciliation of the tree collection (hooks/useArchiveStore.ts) *)


Lemma find_unique {A : Type} (key : A → string) (l : list A) (x : A) :
  NoDup (map key l) → x ∈ l → List.find (fun y => bool_decide (key y = key x)) l = Some x.
Proof.
  induction l as [|y l IH]; intros Hnd Hx; [by inversion Hx|].
  simpl in *. apply NoDup_cons in Hnd as [Hy Hnd].
  apply elem_of_cons in Hx as [->|Hx].
  - by rewrite bool_decide_eq_true_2.
  - rewrite bool_decide_eq_false_2; [by apply IH|].
    intros Heq. apply Hy. rewrite Heq. apply list_elem_of_In, in_map, list_elem_of_In, Hx.
Qed.

Lemma treePush_kept (prev : list FamilyTree) (t : FamilyTree) :
  NoDup (map ft_id prev) → t ∈ prev → ArchiveStore.treePush prev t = [].
Proof.
  intros Hnd Ht. unfold ArchiveStore.treePush.
  destruct (decide (ft_id t ∈ (list_to_set (map ft_id prev) : gset string))) as [_|Hout].
  - rewrite (find_unique ft_id prev t Hnd Ht). by destruct (decide _).
  - exfalso. apply Hout, elem_of_list_to_set, list_elem_of_In, in_map, list_elem_of_In, Ht.
Qed.

Lemma treePush_new (prev : list FamilyTree) (t : FamilyTree) :
  ft_id t ∉ map ft_id prev → ArchiveStore.treePush prev t = [ArchiveStore.CreateTreePush t].
Proof.
  intros Hnew. unfold ArchiveStore.treePush.
  destruct (decide (ft_id t ∈ (list_to_set (map ft_id prev) : gset string))) as [Hin|_];
    [|reflexivity].
  exfalso. apply Hnew. by apply elem_of_list_to_set in Hin.
Qed.


Lemma flat_map_nil {A B : Type} (f : A → list B) (l : list A) :
  (∀ x, x ∈ l → f x = []) → flat_map f l = [].
Proof.
  induction l as [|x l IH]; intros H; simpl; [reflexivity|].
  rewrite (H x) by (by left). apply IH. intros y Hy. apply H. by right.
Qed.



(** ** Settlements of the hook's promises (hooks/useArchiveStore.ts) *)

Section Settlements.
Context {Σ : Type} (sb : Remote Σ).

Lemma upsertProfiles_from_console profiles treeId (n k : nat) results (w : World Σ) :
  chunkCount CHUNK (length profiles) = k + n →
  console (snd (upsertProfiles_from sb profiles treeId (k * CHUNK) results w)) = console w.
Proof.
  revert k results w. induction n as [|n IH]; intros k results w Hcount;
    rewrite upsertProfiles_from_step.
  - destruct (decide (k * CHUNK < length profiles)) as [Hlt|_]; [|reflexivity].
    pose proof (proj2 (chunkCount_lt CHUNK (length profiles) k CHUNK_pos) Hlt). lia.
  - destruct (decide (k * CHUNK < length profiles)) as [_|_]; [|reflexivity].
    match goal with
    | |- context [send sb ?r w] =>
        pose proof (send_console sb r w) as Hc; destruct (send sb r w) as [[data|error] w']
    end; simpl in Hc; [|exact Hc].
    replace (k * CHUNK + CHUNK) with (S k * CHUNK) by lia.
    rewrite IH by lia. exact Hc.
Qed.

Lemma upsertProfiles_console profiles treeId (w : World Σ) :
  console (snd (upsertProfiles sb profiles treeId w)) = console w.
Proof.
  unfold upsertProfiles.
  apply (upsertProfiles_from_console profiles treeId
           (chunkCount CHUNK (length profiles)) 0 [] w). lia.
Qed.

Lemma createTree_console tree (w : World Σ) :
  console (snd (createTree sb tree w)) = console w.
Proof.
  unfold createTree, bind, perform.
  match goal with
  | |- context [send sb ?r w] =>
      pose proof (send_console sb r w) as Hc; destruct (send sb r w) as [[?|?] ?]
  end; exact Hc.
Qed.

Lemma updateTree_console tree_id patch (w : World Σ) :
  console (snd (updateTree sb tree_id patch w)) = console w.
Proof.
  unfold updateTree, bind, perform.
  match goal with
  | |- context [send sb ?r w] =>
      pose proof (send_console sb r w) as Hc; destruct (send sb r w) as [[?|?] ?]
  end; exact Hc.
Qed.

Lemma deletePost_console postId (w : World Σ) :
  console (snd (deletePost sb postId w)) = console w.
Proof.
  unfold deletePost, bind, perform.
  match goal with
  | |- context [send sb ?r w] =>
      pose proof (send_console sb r w) as Hc; destruct (send sb r w) as [[?|?] ?]
  end; exact Hc.
Qed.

Lemma deleteProfile_console profileId (w : World Σ) :
  console (snd (deleteProfile sb profileId w)) = console w.
Proof.
  unfold deleteProfile, bind, perform.
  match goal with
  | |- context [send sb ?r w] =>
      pose proof (send_console sb r w) as Hc; destruct (send sb r w) as [[?|?] ?]
  end; exact Hc.
Qed.

(** [createPost] logs only when it goes on to return the post. *)
Lemma createPost_console post (w : World Σ) :
  console (snd (createPost sb post w)) = console w
  ∨ (∃ saved line, fst (createPost sb post w) = Returned saved
                   ∧ console (snd (createPost sb post w)) = console w ++ [line]).
Proof.
  unfold createPost, bind, perform.
  pose proof (send_console sb (PostsInsertSingle (postToInsert post)) w) as Hc.
  destruct (send sb (PostsInsertSingle (postToInsert post)) w) as [[data|err] w1];
    simpl in *; [|by left].
  destruct (decide (0 < length (cp_taggedProfileIds post))) as [_|_]; [|by left].
  match goal with
  | |- context [send sb ?r w1] =>
      pose proof (send_console sb r w1) as Hc2; destruct (send sb r w1) as [[[]|me] w2]
  end; simpl in *.
  - left. by rewrite Hc2, Hc.
  - right. eexists _, _. split; [reflexivity|]. simpl. by rewrite Hc2, Hc.
Qed.

Lemma loadAll_console (w : World Σ) :
  console (snd (ArchiveStore.loadAll sb w)) = console w.
Proof.
  unfold ArchiveStore.loadAll, listTrees, listProfiles, listPosts, bind, perform.
  repeat (match goal with
          | |- context [send sb ?r ?w0] =>
              let Hc := fresh "Hc" in
              pose proof (send_console sb r w0) as Hc;
              destruct (send sb r w0) as [[?|?] ?]
          end; simpl in *);
    congruence.
Qed.

Lemma logFailure_console (label e : string) (w : World Σ) :
  console (ArchiveStore.logFailure label e w) = console w ++ [label +:+ " " +:+ e].
Proof. reflexivity. Qed.

End Settlements.

(** X8: a settling promise of the hook, whatever it is and whatever the
    remote store answers, adds at most one line to the console. *)
Theorem settle_logs_at_most_once {Σ : Type} (sb : Remote Σ)
    (p : ArchiveStore.Promise) (s : ArchiveStore.State) (w : World Σ) :
  let after := snd (ArchiveStore.settle sb p s w) in
  console after = console w ∨ ∃ line, console after = console w ++ [line].
Proof.
  intros after. subst after. destruct p as [cancelled| | | | | |]; simpl.
  - pose proof (loadAll_console sb w) as Hc.
    destruct (ArchiveStore.loadAll sb w) as [[[[? ?] ?]|msg] w']; simpl in Hc;
      destruct cancelled; simpl; try (by left).
    right. eexists. rewrite ?logFailure_console. by rewrite Hc.
  - pose proof (upsertProfiles_console sb (map fields toUpsert) None w) as Hc.
    destruct (upsertProfiles sb (map fields toUpsert) None w) as [[?|?] ?]; simpl in *;
      [by left|].
    right. eexists. rewrite ?logFailure_console. by rewrite Hc.
  - pose proof (createTree_console sb tree w) as Hc.
    destruct (createTree sb tree w) as [[?|?] ?]; simpl in *; [by left|].
    right. eexists. rewrite ?logFailure_console. by rewrite Hc.
  - pose proof (updateTree_console sb tree_id patch w) as Hc.
    destruct (updateTree sb tree_id patch w) as [[?|?] ?]; simpl in *; [by left|].
    right. eexists. rewrite ?logFailure_console. by rewrite Hc.
  - pose proof (createPost_console sb post w) as Hc.
    destruct (createPost sb post w) as [[?|?] ?]; simpl in *.
    + destruct Hc as [Hc|(? & line & _ & Hc)]; [by left|]. right. by exists line.
    + destruct Hc as [Hc|(? & ? & Hret & _)]; [|discriminate].
      right. eexists. rewrite ?logFailure_console. by rewrite Hc.
  - pose proof (deletePost_console sb post_id w) as Hc.
    destruct (deletePost sb post_id w) as [[?|?] ?]; simpl in *; [by left|].
    right. eexists. rewrite ?logFailure_console. by rewrite Hc.
  - pose proof (deleteProfile_console sb profileId w) as Hc.
    destruct (deleteProfile sb profileId w) as [[?|?] ?]; simpl in *; [by left|].
    right. eexists. rewrite ?logFailure_console. by rewrite Hc.
Qed.

(** X9: a settling push, or a load that was cancelled, never writes the
    profiles, the trees, the three selection ids, [isLoading] or [error]:
    the only cell it can change is the post collection, and only by
    filtering out the post of a refused [createPost]. *)
Theorem push_settlement_frame {Σ : Type} (sb : Remote Σ)
    (p : ArchiveStore.Promise) (s : ArchiveStore.State) (w : World Σ) :
  liveLoad p = false →
  let s' := fst (ArchiveStore.settle sb p s w) in
  s' = s
  ∨ (∃ post err,
        p = ArchiveStore.CreatePostPush post
        ∧ fst (createPost sb post w) = Thrown err
        ∧ s' = ArchiveStore.setCirclePostsRaw
                 (ArchiveStore.withoutPost (cp_id post) (ArchiveStore.circlePosts s)) s).
Proof.
  intros Hlive s'. subst s'. destruct p as [cancelled| | | | | |]; simpl.
  - destruct cancelled; [|discriminate]. left.
    destruct (ArchiveStore.loadAll sb w) as [[[[? ?] ?]|?] ?]; reflexivity.
  - left. destruct (upsertProfiles sb (map fields toUpsert) None w) as [[?|?] ?]; reflexivity.
  - left. destruct (createTree sb tree w) as [[?|?] ?]; reflexivity.
  - left. destruct (updateTree sb tree_id patch w) as [[?|?] ?]; reflexivity.
  - destruct (createPost sb post w) as [[?|err] ?] eqn:Hpost; simpl; [by left|].
    right. exists post, err. rewrite Hpost. repeat split.
  - left. destruct (deletePost sb post_id w) as [[?|?] ?]; reflexivity.
  - left. destruct (deleteProfile sb profileId w) as [[?|?] ?]; reflexivity.
Qed.

Lemma push_settlement_frame_witness :
  let s := ArchiveStore.setCirclePostsRaw [Samples.post "p" []; Samples.post "q" []]
             ArchiveStore.initialState in
  liveLoad (ArchiveStore.CreatePostPush (Samples.post "p" [])) = false
  ∧ ArchiveStore.error
      (fst (ArchiveStore.settle Samples.scripted
              (ArchiveStore.CreatePostPush (Samples.post "p" [])) s (Samples.world [true])))
    = None.
Proof.
  intros s. split; [reflexivity|].
  destruct (push_settlement_frame Samples.scripted
              (ArchiveStore.CreatePostPush (Samples.post "p" [])) s (Samples.world [true])
              eq_refl) as [->|(post & err & _ & _ & ->)]; reflexivity.
Defined.

(** X10: when the signed-in user changes, every promise already in flight
    stays in flight at its position, loads among them cancelled, so that none
    of them is a live load any more; a sign-in adds exactly one live load,
    keeps the three collections and the selection, raises [isLoading] and
    clears [error]; a sign-out adds no promise, empties the collections and
    the selection and leaves [isLoading] and [error] as they were. *)
Theorem userChanged_supersedes_loads (u : option User) (h : ArchiveStore.Hook) :
  let h1 := ArchiveStore.userChanged u h in
  (∀ i p, ArchiveStore.inflight h !! i = Some p →
          ArchiveStore.inflight h1 !! i = Some (ArchiveStore.cancel p)
          ∧ liveLoad (ArchiveStore.cancel p) = false
          ∧ (liveLoad p = false → ArchiveStore.cancel p = p))
  ∧ match u with
    | Some _ =>
        ArchiveStore.inflight h1
        = map ArchiveStore.cancel (ArchiveStore.inflight h) ++ [ArchiveStore.InitialLoad false]
        ∧ filter (fun p => liveLoad p = true) (ArchiveStore.inflight h1)
          = [ArchiveStore.InitialLoad false]
        ∧ ArchiveStore.state h1
          = ArchiveStore.setError None (ArchiveStore.setIsLoading true (ArchiveStore.state h))
    | None =>
        ArchiveStore.inflight h1 = map ArchiveStore.cancel (ArchiveStore.inflight h)
        ∧ filter (fun p => liveLoad p = true) (ArchiveStore.inflight h1) = []
        ∧ ArchiveStore.profiles (ArchiveStore.state h1) = []
        ∧ ArchiveStore.familyTrees (ArchiveStore.state h1) = []
        ∧ ArchiveStore.circlePosts (ArchiveStore.state h1) = []
        ∧ ArchiveStore.activeProfileId (ArchiveStore.state h1) = None
        ∧ ArchiveStore.selectedTreeId (ArchiveStore.state h1) = None
        ∧ ArchiveStore.treeViewId (ArchiveStore.state h1) = None
        ∧ ArchiveStore.isLoading (ArchiveStore.state h1)
          = ArchiveStore.isLoading (ArchiveStore.state h)
        ∧ ArchiveStore.error (ArchiveStore.state h1) = ArchiveStore.error (ArchiveStore.state h)
    end.
Proof.
  intros h1. subst h1.
  assert (filter (fun p => liveLoad p = true) (map ArchiveStore.cancel (ArchiveStore.inflight h))
          = []) as Hdead.
  { induction (ArchiveStore.inflight h) as [|p l IH]; [reflexivity|].
    simpl. rewrite filter_cons_False; [exact IH|]. by destruct p. }
  split.
  - intros i p Hp. split; [|split].
    + destruct u; simpl.
      * rewrite lookup_app_l.
        -- by rewrite list_lookup_fmap, Hp.
        -- rewrite length_map. by apply lookup_lt_Some in Hp.
      * by rewrite list_lookup_fmap, Hp.
    + by destruct p.
    + destruct p as [[]| | | | | |]; simpl; congruence.
  - destruct u; simpl.
    + split; [reflexivity|]. split; [|reflexivity].
      by rewrite filter_app, Hdead.
    + by rewrite Hdead.
Qed.

(** X11: signing out while the initial load is still pending leaves
    [isLoading] raised: the load was cancelled, and no later settlement, in
    any number and order and under any remote store, lowers it. *)
Theorem signout_during_load_keeps_loading {Σ : Type} (sb : Remote Σ)
    (u : User) (h : ArchiveStore.Hook) (w : World Σ) (positions : list nat) :
  let h1 := ArchiveStore.userChanged None (ArchiveStore.userChanged (Some u) h) in
  ArchiveStore.inflight h1
  = map ArchiveStore.cancel (ArchiveStore.inflight h) ++ [ArchiveStore.InitialLoad true]
  ∧ ArchiveStore.isLoading (ArchiveStore.state (fst (settleAll sb positions (h1, w)))) = true.
Proof.
  intros h1. subst h1. split.
  - simpl. rewrite map_app, map_map. simpl. f_equal.
    apply map_ext. intros p. by destruct p.
  - rewrite settleAll_quiet; [reflexivity|reflexivity|].
    simpl. apply Forall_forall. intros p Hp.
    apply list_elem_of_In, in_map_iff in Hp. destruct Hp as (p0 & <- & _).
    by destruct p0.
Qed.

(** X12: the initial load, when it settles uncancelled, has sent the three
    list requests in the order trees, profiles, posts, all three whatever the
    first answers were, and lowers [isLoading]. If all were accepted the three
    collections are replaced by the mapped rows, [error] is left as it was and
    nothing is logged; otherwise the collections are left as they were,
    [error] holds the message of a list call that was refused, and that
    message is the one line logged. The selection ids are never touched. *)
Theorem initialLoad_settles {Σ : Type} (sb : Remote Σ) (s : ArchiveStore.State) (w : World Σ) :
  let treesReq := TreesSelect "*" {| ob_column := "created_at"; ob_ascending := false |} in
  let profilesReq := ProfilesSelect "*" [] {| ob_column := "name"; ob_ascending := true |} in
  let postsReq :=
    PostsSelect "*, post_people ( profile_id )"
      {| ob_column := "created_at"; ob_ascending := false |} in
  let r1 := send sb treesReq w in
  let r2 := send sb profilesReq (snd r1) in
  let r3 := send sb postsReq (snd r2) in
  let res := ArchiveStore.settle sb (ArchiveStore.InitialLoad false) s w in
  map request (trace (snd res)) = map request (trace w) ++ [treesReq; profilesReq; postsReq]
  ∧ ArchiveStore.isLoading (fst res) = false
  ∧ ArchiveStore.activeProfileId (fst res) = ArchiveStore.activeProfileId s
  ∧ ArchiveStore.selectedTreeId (fst res) = ArchiveStore.selectedTreeId s
  ∧ ArchiveStore.treeViewId (fst res) = ArchiveStore.treeViewId s
  ∧ match fst r1, fst r2, fst r3 with
    | Success trees, Success profs, Success posts =>
        ArchiveStore.familyTrees (fst res) = map rowToTree trees
        ∧ ArchiveStore.profiles (fst res) = map literal (map rowToProfile profs)
        ∧ ArchiveStore.circlePosts (fst res)
          = map (fun row => rowToPost (pwp_row row) (pwp_post_people row)) posts
        ∧ ArchiveStore.error (fst res) = ArchiveStore.error s
        ∧ console (snd res) = console w
    | t, p, c =>
        ArchiveStore.familyTrees (fst res) = ArchiveStore.familyTrees s
        ∧ ArchiveStore.profiles (fst res) = ArchiveStore.profiles s
        ∧ ArchiveStore.circlePosts (fst res) = ArchiveStore.circlePosts s
        ∧ ∃ msg,
            ArchiveStore.error (fst res) = Some msg
            ∧ console (snd res)
              = console w ++ ["[useArchiveStore] initial load failed:" +:+ " " +:+ msg]
            ∧ ((∃ e, t = Failure e ∧ msg = "listTrees: " +:+ message e)
               ∨ (∃ e, p = Failure e ∧ msg = "listProfiles: " +:+ message e)
               ∨ (∃ e, c = Failure e ∧ msg = "listPosts: " +:+ message e))
    end.
Proof.
  intros treesReq profilesReq postsReq r1 r2 r3 res. subst res r3 r2 r1.
  unfold ArchiveStore.settle, ArchiveStore.loadAll, listTrees, listProfiles, listPosts,
    bind, perform.
  fold treesReq profilesReq postsReq.
  pose proof (send_requests sb treesReq w) as H1.
  pose proof (send_console sb treesReq w) as C1.
  destruct (send sb treesReq w) as [t w1]. simpl in H1, C1.
  destruct t as [trees|e1]; cbn [fst snd ret throw]; cbv beta iota;
    pose proof (send_requests sb profilesReq w1) as H2;
    pose proof (send_console sb profilesReq w1) as C2;
    destruct (send sb profilesReq w1) as [p w2]; simpl in H2, C2;
    destruct p as [profs|e2]; cbn [fst snd ret throw]; cbv beta iota;
    pose proof (send_requests sb postsReq w2) as H3;
    pose proof (send_console sb postsReq w2) as C3;
    destruct (send sb postsReq w2) as [c w3]; simpl in H3, C3;
    destruct c as [posts|e3]; cbn [fst snd ret throw]; cbv beta iota;
    (assert (map request (trace w3)
             = map request (trace w) ++ [treesReq; profilesReq; postsReq]) as Htr
       by (rewrite H3, H2, H1, <- !app_assoc; reflexivity));
    (assert (console w3 = console w) as Hc by congruence);
    (split; [exact Htr|]); repeat (split; [reflexivity|]);
    try (split; [reflexivity|]); try exact Hc;
    eexists; (split; [reflexivity|]); rewrite ?logFailure_console, Hc;
    (split; [reflexivity|]); eauto.
Qed.

(** ** Completing an import (hooks/useGedcomImport.ts) *)

Lemma changedProfile_new (prev : list ProfileObject) (p : ProfileObject) :
  id p ∉ map idOf prev →
  ArchiveStore.changedProfile prev p = true.
Proof.
  intros Hnew. unfold ArchiveStore.changedProfile, ArchiveStore.prevById.
  by rewrite (prevById_from_absent prev ∅ (id p) Hnew), lookup_empty.
Qed.

Lemma filter_all {A} (P : A → Prop) `{∀ x, Decision (P x)} (l : list A) :
  (∀ x, x ∈ l → P x) → filter P l = l.
Proof.
  induction l as [|x l IH]; intros Hl; [reflexivity|].
  rewrite filter_cons_True by (apply Hl; by left).
  f_equal. apply IH. intros y Hy. apply Hl. by right.
Qed.

Lemma mergeImported_newlyImported (imported prev : list ProfileObject) :
  GedcomImport.mergeImported imported prev = prev ++ newlyImported imported prev.
Proof.
  unfold GedcomImport.mergeImported, newlyImported. f_equal.
  apply list_filter_iff. intros p.
  split; intros Hout Hin; apply Hout; [by apply elem_of_list_to_set|].
  by apply elem_of_list_to_set in Hin.
Qed.

Lemma newlyImported_elem (imported prev : list ProfileObject) (p : ProfileObject) :
  p ∈ newlyImported imported prev
  ↔ (id p ∉ map idOf prev) ∧ (p ∈ imported).
Proof.
  unfold newlyImported.
  apply (list_elem_of_filter
           (fun q : ProfileObject => id q ∉ map idOf prev)).
Qed.

Lemma NoDup_map_filter {A B} (f : A → B) (P : A → Prop) `{∀ x, Decision (P x)}
    (l : list A) :
  NoDup (map f l) → NoDup (map f (filter P l)).
Proof.
  induction l as [|x l IH]; intros Hnd; [constructor|].
  simpl in Hnd. apply NoDup_cons in Hnd as [Hx Hnd].
  destruct (decide (P x)) as [HP|HP].
  - rewrite filter_cons_True by exact HP. simpl. apply NoDup_cons. split; [|by apply IH].
    intros Hin. apply Hx.
    apply list_elem_of_In, in_map_iff in Hin. destruct Hin as (y & Hy & Hin).
    rewrite <- Hy. apply list_elem_of_In, in_map, list_elem_of_In.
    apply list_elem_of_In, list_elem_of_filter in Hin. tauto.
  - rewrite filter_cons_False by exact HP. by apply IH.
Qed.

Lemma find_app_found {A} (f : A → bool) (l k : list A) (x : A) :
  List.find f l = Some x → List.find f (l ++ k) = Some x.
Proof.
  induction l as [|y l IH]; simpl; [discriminate|]. destruct (f y); auto.
Qed.

Lemma find_app_missing {A} (f : A → bool) (l k : list A) :
  List.find f l = None → List.find f (l ++ k) = List.find f k.
Proof.
  induction l as [|y l IH]; simpl; [reflexivity|]. destruct (f y); [discriminate|auto].
Qed.

Lemma find_absent {A : Type} (key : A → string) (l : list A) (wanted : string) :
  wanted ∉ map key l → List.find (fun y => bool_decide (key y = wanted)) l = None.
Proof.
  induction l as [|y l IH]; intros Hout; simpl; [reflexivity|].
  rewrite bool_decide_eq_false_2.
  - apply IH. intros Hin. apply Hout. simpl. by right.
  - intros Heq. apply Hout. simpl. rewrite Heq. by left.
Qed.

(** X13: for a signed-in user with a pending import, [chooseHome] appends
    to the stored profiles those imported profiles whose id is not stored
    yet, in import order, and changes no stored profile. If the stored ids
    and the imported ids are each pairwise distinct, so are the ids of the
    result. If the stored profile ids and tree ids are pairwise distinct and
    the tree id is new, the writes started are one bulk upsert of exactly the
    appended profiles, left out when there are none, followed by one
    [createTree] of the tree with its home person set. *)
Theorem chooseHome_merges (selected : ProfileObject) (app : GedcomImport.App)
    (pending : GedcomImport.Imported) :
  assertAuthenticated (ArchiveStore.user (GedcomImport.store app)) = true →
  GedcomImport.pendingImport app = Some pending →
  let prev := ArchiveStore.profiles (ArchiveStore.state (GedcomImport.store app)) in
  let trees := ArchiveStore.familyTrees (ArchiveStore.state (GedcomImport.store app)) in
  let added := newlyImported (GedcomImport.importedProfiles pending) prev in
  let app' := GedcomImport.chooseHome selected app in
  ArchiveStore.profiles (ArchiveStore.state (GedcomImport.store app')) = prev ++ added
  ∧ (NoDup (map idOf prev) →
     NoDup (map idOf (GedcomImport.importedProfiles pending)) →
     NoDup (map idOf (prev ++ added)))
  ∧ (NoDup (map idOf prev) → NoDup (map ft_id trees) →
     ft_id (GedcomImport.tree pending) ∉ map ft_id trees →
     ArchiveStore.inflight (GedcomImport.store app')
     = ArchiveStore.inflight (GedcomImport.store app)
         ++ (if decide (added = []) then [] else [ArchiveStore.UpsertProfilesPush added])
         ++ [ArchiveStore.CreateTreePush (GedcomImport.updatedTree pending selected)]).
Proof.
  intros Hauth Hpending prev trees added app'. subst app'.
  unfold GedcomImport.chooseHome. rewrite Hauth, Hpending. cbn [GedcomImport.store].
  split; [|split].
  - simpl. apply mergeImported_newlyImported.
  - intros Hprev Himp. rewrite map_app. apply NoDup_app. split; [exact Hprev|]. split.
    + intros k Hk Hk'. apply list_elem_of_In, in_map_iff in Hk'.
      destruct Hk' as (p & <- & Hp). apply list_elem_of_In, newlyImported_elem in Hp.
      by destruct Hp.
    + by apply NoDup_map_filter.
  - intros Hprev Htrees Hfresh. simpl. fold prev trees.
    rewrite mergeImported_newlyImported. fold added.
    rewrite filter_app.
    rewrite (filter_none (fun p => ArchiveStore.changedProfile prev p = true) prev).
    2:{ intros p Hp. by rewrite (changedProfile_kept prev p Hprev Hp). }
    rewrite (filter_all (fun p => ArchiveStore.changedProfile prev p = true) added).
    2:{ intros p Hp. apply changedProfile_new. by apply newlyImported_elem in Hp as [? _]. }
    simpl. rewrite (treePush_new trees (GedcomImport.updatedTree pending selected) Hfresh).
    rewrite flat_map_nil by (intros t Ht; by apply treePush_kept).
    rewrite <- app_assoc. f_equal.
    destruct added as [|a added']; simpl; [reflexivity|].
    destruct (decide (0 < S (length added'))); [reflexivity|lia].
Qed.

Lemma chooseHome_merges_witness :
  let pending :=
    {| GedcomImport.importedProfiles :=
         [literal (Samples.person "a" "Ada"); literal (Samples.person "b" "Bob")];
       GedcomImport.tree :=
         {| ft_id := "t1"; ft_userId := "u1"; ft_name := "Imported";
            ft_createdAt := "2024-01-01"; ft_homePersonId := "";
            ft_memberIds := ["a"; "b"] |} |} in
  let app :=
    {| GedcomImport.store :=
         Samples.signedIn
           (ArchiveStore.setProfilesRaw [literal (Samples.person "a" "Ada Stored")]
              ArchiveStore.initialState) [];
       GedcomImport.pendingImport := Some pending;
       GedcomImport.view := SELECT_HOME;
       GedcomImport.toasts := [] |} in
  assertAuthenticated (ArchiveStore.user (GedcomImport.store app)) = true
  ∧ GedcomImport.pendingImport app = Some pending
  ∧ ArchiveStore.profiles
      (ArchiveStore.state
         (GedcomImport.store (GedcomImport.chooseHome (literal (Samples.person "b" "Bob")) app)))
    = [literal (Samples.person "a" "Ada Stored"); literal (Samples.person "b" "Bob")].
Proof.
  intros pending app. split; [reflexivity|]. split; [reflexivity|].
  pose proof (chooseHome_merges (literal (Samples.person "b" "Bob")) app pending eq_refl eq_refl)
    as (Hprofiles & _ & _).
  rewrite Hprofiles. vm_compute. reflexivity.
Defined.

(** X14: after [chooseHome] the derived [selectedTree] is the imported tree
    with its home person set, whatever trees were stored. The derived
    [activeProfile] is looked up by the chosen profile's id: a stored profile
    with that id is the one shown, not the imported one; when the id is not
    stored and the chosen profile is one of the imported profiles, whose ids
    are pairwise distinct, it is the chosen profile; and when the id is
    neither stored nor imported there is no active profile. *)
Theorem chooseHome_selection (selected : ProfileObject) (app : GedcomImport.App)
    (pending : GedcomImport.Imported) :
  assertAuthenticated (ArchiveStore.user (GedcomImport.store app)) = true →
  GedcomImport.pendingImport app = Some pending →
  let prev := ArchiveStore.profiles (ArchiveStore.state (GedcomImport.store app)) in
  let imported := GedcomImport.importedProfiles pending in
  let s' := ArchiveStore.state (GedcomImport.store (GedcomImport.chooseHome selected app)) in
  selectedTree s' = Some (GedcomImport.updatedTree pending selected)
  ∧ (∀ p : ProfileObject,
        NoDup (map idOf prev) → p ∈ prev → id p = id selected →
        activeProfile s' = Some p)
  ∧ (NoDup (map idOf imported) → id selected ∉ map idOf prev →
     selected ∈ imported → activeProfile s' = Some selected)
  ∧ (id selected ∉ map idOf prev → id selected ∉ map idOf imported →
     activeProfile s' = None).
Proof.
  intros Hauth Hpending prev imported s'. subst s'.
  unfold GedcomImport.chooseHome. rewrite Hauth, Hpending. cbn [GedcomImport.store].
  unfold selectedTree, activeProfile. simpl. fold prev imported.
  rewrite mergeImported_newlyImported.
  split; [by rewrite bool_decide_eq_true_2|]. split; [|split].
  - intros p Hnd Hp Hid. apply find_app_found. rewrite <- Hid.
    by apply (find_unique idOf).
  - intros Hnd Hnew Hin. rewrite find_app_missing by (by apply (find_absent idOf)).
    apply (find_unique idOf).
    + by apply NoDup_map_filter.
    + by apply newlyImported_elem.
  - intros Hnew Hout. rewrite find_app_missing by (by apply (find_absent idOf)).
    apply (find_absent idOf). intros Hin. apply Hout.
    apply list_elem_of_In, in_map_iff in Hin. destruct Hin as (p & <- & Hp).
    apply list_elem_of_In, newlyImported_elem in Hp as [_ Hp].
    apply list_elem_of_In, (in_map idOf), list_elem_of_In, Hp.
Qed.

Lemma chooseHome_selection_witness :
  let pending :=
    {| GedcomImport.importedProfiles :=
         [literal (Samples.person "a" "Ada"); literal (Samples.person "b" "Bob")];
       GedcomImport.tree :=
         {| ft_id := "t1"; ft_userId := "u1"; ft_name := "Imported";
            ft_createdAt := "2024-01-01"; ft_homePersonId := "";
            ft_memberIds := ["a"; "b"] |} |} in
  let app :=
    {| GedcomImport.store :=
         Samples.signedIn
           (ArchiveStore.setProfilesRaw [literal (Samples.person "a" "Ada Stored")]
              ArchiveStore.initialState) [];
       GedcomImport.pendingImport := Some pending;
       GedcomImport.view := SELECT_HOME;
       GedcomImport.toasts := [] |} in
  assertAuthenticated (ArchiveStore.user (GedcomImport.store app)) = true
  ∧ GedcomImport.pendingImport app = Some pending
  ∧ activeProfile
      (ArchiveStore.state
         (GedcomImport.store (GedcomImport.chooseHome (literal (Samples.person "a" "Ada")) app)))
    = Some (literal (Samples.person "a" "Ada Stored")).
Proof.
  intros pending app. split; [reflexivity|]. split; [reflexivity|].
  pose proof (chooseHome_selection (literal (Samples.person "a" "Ada")) app pending eq_refl eq_refl)
    as (_ & Hstored & _ & _).
  apply Hstored; [apply NoDup_singleton | by left | reflexivity].
Defined.

(** X15: a whole import. With a signed-in user and a parser that accepts
    the first chosen file, [handleGedcomUpload] reads no other file, leaves
    the store and the world untouched and stages the result; [chooseHome]
    then stores the imported tree in front and the new profiles at the end,
    shows HOME with both toasts, and consumes the staged import, so that a
    second [chooseHome] changes nothing. *)
Theorem import_flow {Σ : Type}
    (parseGedcom : string → string → nat → Outcome GedcomImport.Imported)
    (u : User) (text : string) (others : list string) (result : GedcomImport.Imported)
    (selected : ProfileObject) (app : GedcomImport.App) (w : World Σ) :
  ArchiveStore.user (GedcomImport.store app) = Some u →
  u_id u ≠ "" →
  parseGedcom text (u_id u) 4 = Returned result →
  let staged := GedcomImport.handleGedcomUpload parseGedcom (text :: others) app w in
  let app' := GedcomImport.chooseHome selected (fst staged) in
  let s := ArchiveStore.state (GedcomImport.store app) in
  let s' := ArchiveStore.state (GedcomImport.store app') in
  snd staged = w
  ∧ GedcomImport.store (fst staged) = GedcomImport.store app
  ∧ GedcomImport.pendingImport (fst staged) = Some result
  ∧ GedcomImport.view (fst staged) = SELECT_HOME
  ∧ ArchiveStore.profiles s'
    = ArchiveStore.profiles s
        ++ newlyImported (GedcomImport.importedProfiles result) (ArchiveStore.profiles s)
  ∧ ArchiveStore.familyTrees s'
    = GedcomImport.updatedTree result selected :: ArchiveStore.familyTrees s
  ∧ ArchiveStore.circlePosts s' = ArchiveStore.circlePosts s
  ∧ GedcomImport.view app' = HOME
  ∧ GedcomImport.toasts app'
    = GedcomImport.toasts app
        ++ ["Loaded " +:+ show_nat (length (GedcomImport.importedProfiles result))
              +:+ " family members";
            "Archive successfully imported"]
  ∧ ∀ again, GedcomImport.chooseHome again app' = app'.
Proof.
  intros Huser Hid Hparse staged app' s s'. subst s' s app' staged.
  assert (assertAuthenticated (Some u) = true) as Hauth
    by (unfold assertAuthenticated; by destruct (decide (u_id u = ""))).
  unfold GedcomImport.handleGedcomUpload. rewrite Huser, Hauth, Hparse.
  cbn [fst snd]. unfold GedcomImport.chooseHome.
  cbn [GedcomImport.store GedcomImport.pendingImport GedcomImport.toasts GedcomImport.view].
  rewrite Huser, Hauth. cbn [GedcomImport.store GedcomImport.pendingImport
    GedcomImport.toasts GedcomImport.view].
  repeat (split; [reflexivity|]).
  split; [simpl; apply mergeImported_newlyImported|].
  repeat (split; [reflexivity|]).
  split; [by rewrite <- app_assoc|].
  intros again. simpl. by rewrite Huser, Hauth.
Qed.

Lemma import_flow_witness :
  let app :=
    {| GedcomImport.store := Samples.signedIn ArchiveStore.initialState [];
       GedcomImport.pendingImport := None;
       GedcomImport.view := HOME;
       GedcomImport.toasts := [] |} in
  let result :=
    {| GedcomImport.importedProfiles :=
         [literal (Samples.person "a" "Ada"); literal (Samples.person "b" "Bob")];
       GedcomImport.tree :=
         {| ft_id := "t1"; ft_userId := "u1"; ft_name := "Imported";
            ft_createdAt := "2024-01-01"; ft_homePersonId := "";
            ft_memberIds := ["a"; "b"] |} |} in
  let parse := fun (text ownerId : string) (generations : nat) =>
    if decide (text = "") then Thrown "empty" else Returned result in
  parse "0 HEAD" (u_id Samples.ada) 4 = Returned result
  ∧ u_id Samples.ada ≠ ""
  ∧ ArchiveStore.profiles
      (ArchiveStore.state
         (GedcomImport.store
            (GedcomImport.chooseHome (literal (Samples.person "a" "Ada"))
               (fst (GedcomImport.handleGedcomUpload parse ["0 HEAD"; ""] app
                       (Samples.world []))))))
    = [literal (Samples.person "a" "Ada"); literal (Samples.person "b" "Bob")].
Proof.
  intros app result parse.
  assert (u_id Samples.ada ≠ "") as Hid by (vm_compute; discriminate).
  split; [reflexivity|]. split; [exact Hid|].
  pose proof (import_flow parse Samples.ada "0 HEAD" [""] result
                (literal (Samples.person "a" "Ada"))
                app (Samples.world []) eq_refl Hid eq_refl)
    as (_ & _ & _ & _ & Hprofiles & _).
  rewrite Hprofiles. vm_compute. reflexivity.
Defined.

(** ** Local edits and the rows the hook sends (hooks/useArchiveStore.ts) *)

(** X16: [updateCirclePost] starts no remote write and touches no cell but
    the post collection, which keeps its length and order: a post with the
    given id is overlaid with the patch, every other post is left as it is,
    and a patch that sets no field changes nothing. *)
Theorem updateCirclePost_local (post_id : string) (patch : CirclePostPatch)
    (h : ArchiveStore.Hook) :
  let posts := ArchiveStore.circlePosts (ArchiveStore.state h) in
  let h1 := ArchiveStore.updateCirclePost post_id patch h in
  let posts1 := ArchiveStore.circlePosts (ArchiveStore.state h1) in
  ArchiveStore.inflight h1 = ArchiveStore.inflight h
  ∧ ArchiveStore.state h1 = ArchiveStore.setCirclePostsRaw posts1 (ArchiveStore.state h)
  ∧ length posts1 = length posts
  ∧ (∀ i p, posts !! i = Some p →
            posts1 !! i
            = Some (if decide (cp_id p = post_id) then ArchiveStore.applyPatch patch p else p))
  ∧ (post_id ∉ map cp_id posts → h1 = h)
  ∧ (patch = {| cpp_id := None; cpp_userId := None; cpp_createdAt := None;
                cpp_authorLabel := None; cpp_body := None; cpp_attachments := None;
                cpp_taggedProfileIds := None |} → h1 = h).
Proof.
  intros posts h1 posts1. subst posts1 h1.
  unfold ArchiveStore.updateCirclePost, ArchiveStore.withState. simpl. fold posts.
  split; [reflexivity|]. split; [reflexivity|]. split; [apply length_map|].
  split; [|split].
  - intros i p Hp. change (map ?f posts) with (f <$> posts).
    by rewrite list_lookup_fmap, Hp.
  - intros Hout. destruct h as [u s fl]. simpl in *. f_equal.
    rewrite <- (setCirclePostsRaw_same s) at 2. f_equal. subst posts.
    induction (ArchiveStore.circlePosts s) as [|p l IH]; [reflexivity|].
    simpl. rewrite IH by (intros Hin; apply Hout; simpl; by right).
    destruct (decide (cp_id p = post_id)) as [Heq|_]; [|reflexivity].
    exfalso. apply Hout. simpl. rewrite Heq. by left.
  - intros ->. destruct h as [u s fl]. simpl in *. f_equal.
    rewrite <- (setCirclePostsRaw_same s) at 2. f_equal. subst posts.
    induction (ArchiveStore.circlePosts s) as [|p l IH]; [reflexivity|].
    simpl. rewrite IH. destruct (decide (cp_id p = post_id)); [|reflexivity].
    by destruct p.
Qed.

(** X17: the bulk upsert that the hook starts for new or edited profiles
    passes no tree id: every request it sends is an upsert on conflict [id]
    whose rows all carry [tree_id = null], each of them the row of one of
    the profiles to be persisted. *)
Theorem hook_upserts_carry_no_tree {Σ : Type} (sb : Remote Σ)
    (toUpsert : list ProfileObject) (s : ArchiveStore.State) (w : World Σ) (r : Request) :
  r ∈ map request
        (drop (length (trace w))
           (trace (snd (ArchiveStore.settle sb (ArchiveStore.UpsertProfilesPush toUpsert) s w)))) →
  ∃ rows,
    r = ProfilesUpsert rows "id"
    ∧ Forall (fun row => pi_tree_id row = None
                         ∧ ∃ p : ProfileObject, p ∈ toUpsert ∧ row = profileToInsert p None)
        rows.
Proof.
  intros Hr.
  assert (∃ sent : list nat,
            map request
              (drop (length (trace w))
                 (trace (snd (ArchiveStore.settle sb
                                (ArchiveStore.UpsertProfilesPush toUpsert) s w))))
            = map (fun j => upsertCall (map fields toUpsert) None j) sent) as (sent & Hsent).
  { simpl.
    pose proof (upsertProfiles_from_trace sb (map fields toUpsert) None
                  (chunkCount CHUNK (length (map fields toUpsert))) 0 [] w eq_refl) as Htrace.
    simpl in Htrace. fold (upsertProfiles sb (map fields toUpsert) None w) in Htrace.
    destruct (upsertProfiles sb (map fields toUpsert) None w) as [[res|err] w'];
      destruct Htrace as [(results' & Hout & Htrace)|(j & error & Hj & Hout & Htrace)];
      simpl in *; try discriminate; rewrite Htrace, drop_app_length.
    - eexists (seq 0 _). by rewrite map_map.
    - eexists (seq 0 (j - 0) ++ [j]). by rewrite !map_app, !map_map. }
  rewrite Hsent in Hr. apply list_elem_of_In, in_map_iff in Hr.
  destruct Hr as (j & <- & _). unfold upsertCall. eexists. split; [reflexivity|].
  apply Forall_forall. intros row Hrow.
  unfold chunk, upsertRows in Hrow.
  pose proof (elem_of_sublist _ _ _ Hrow (sublist_take _ _)) as Hrow1.
  pose proof (elem_of_sublist _ _ _ Hrow1 (sublist_drop _ _)) as Hrow2.
  apply list_elem_of_In, in_map_iff in Hrow2.
  destruct Hrow2 as (p & <- & Hp). split; [reflexivity|].
  apply in_map_iff in Hp as (o & <- & Ho).
  exists o. split; [by apply list_elem_of_In|reflexivity].
Qed.

Lemma hook_upserts_carry_no_tree_witness :
  ∃ rows,
    ProfilesUpsert [profileToInsert (Samples.person "a" "Ada") None] "id"
    = ProfilesUpsert rows "id"
    ∧ Forall (fun row => pi_tree_id row = None
                         ∧ ∃ p : ProfileObject,
                             p ∈ [literal (Samples.person "a" "Ada")]
                             ∧ row = profileToInsert p None)
        rows.
Proof.
  apply (hook_upserts_carry_no_tree Samples.scripted [literal (Samples.person "a" "Ada")]
           ArchiveStore.initialState (Samples.world [false])).
  vm_compute. left.
Defined.

(** ** The two versions of the archive hook *)

Lemma archiveCall_cached (c : StoreCall) (h : ArchiveStore.Hook) :
  cached (ArchiveStore.state (foldl (fun h c => archiveCall c h) h (companion c)))
  = LocalStore.call c (cached (ArchiveStore.state h)).
Proof. destruct c; reflexivity. Qed.

Lemma archiveCall_user (c : StoreCall) (h : ArchiveStore.Hook) :
  ArchiveStore.user (archiveCall c h) = ArchiveStore.user h.
Proof. destruct c; reflexivity. Qed.

(** X18: the remote-backed hook keeps the behaviour of the earlier
    in-memory hook on the six cells they share. Any sequence of calls on the
    returned object, with [deleteProfileById] accompanied by the filtering
    [setProfiles] as its comment asks, leaves those cells as the same calls
    leave them in the earlier hook, and the three derived values agree; the
    calls never change the user. *)
Theorem archive_store_follows_local_store (calls : list StoreCall) (h : ArchiveStore.Hook) :
  let h' := foldl (fun h c => archiveCall c h) h (flat_map companion calls) in
  cached (ArchiveStore.state h')
  = foldl (fun s c => LocalStore.call c s) (cached (ArchiveStore.state h)) calls
  ∧ ArchiveStore.user h' = ArchiveStore.user h
  ∧ activeProfile (ArchiveStore.state h')
    = LocalStore.activeProfile (cached (ArchiveStore.state h'))
  ∧ selectedTree (ArchiveStore.state h')
    = LocalStore.selectedTree (cached (ArchiveStore.state h'))
  ∧ selectedTreeForView (ArchiveStore.state h')
    = LocalStore.selectedTreeForView (cached (ArchiveStore.state h')).
Proof.
  intros h'. subst h'. split; [|split; [|repeat split]].
  - revert h. induction calls as [|c calls IH]; intros h; [reflexivity|].
    simpl. rewrite foldl_app, IH. f_equal. apply archiveCall_cached.
  - revert h. induction calls as [|c calls IH]; intros h; [reflexivity|].
    simpl. rewrite foldl_app, IH. destruct c; reflexivity.
Qed.

(** X19: on its own, [deleteProfileById] of the remote-backed hook leaves
    the cached profiles as they are, the deleted one included, and starts
    exactly one remote delete; the earlier hook removed the profile from
    memory. With the filtering [setProfiles] before it and stored ids
    pairwise distinct, the profile is removed and the one remote delete is
    the only write started. *)
Theorem deleteProfileById_is_remote_only (profileId : string) (h : ArchiveStore.Hook) :
  let h1 := ArchiveStore.deleteProfileById profileId h in
  let h2 :=
    foldl (fun h c => archiveCall c h) h (companion (CallDeleteProfileById profileId)) in
  ArchiveStore.state h1 = ArchiveStore.state h
  ∧ ArchiveStore.inflight h1
    = ArchiveStore.inflight h ++ [ArchiveStore.DeleteProfilePush profileId]
  ∧ LocalStore.profiles (LocalStore.deleteProfileById profileId (cached (ArchiveStore.state h)))
    = filter (fun p : ProfileObject => id p ≠ profileId)
        (ArchiveStore.profiles (ArchiveStore.state h))
  ∧ ArchiveStore.profiles (ArchiveStore.state h2)
    = filter (fun p : ProfileObject => id p ≠ profileId)
        (ArchiveStore.profiles (ArchiveStore.state h))
  ∧ (NoDup (map idOf (ArchiveStore.profiles (ArchiveStore.state h))) →
     ArchiveStore.inflight h2
     = ArchiveStore.inflight h ++ [ArchiveStore.DeleteProfilePush profileId]).
Proof.
  intros h1 h2. subst h1 h2. repeat (split; [reflexivity|]).
  intros Hnd. simpl. rewrite <- app_assoc. f_equal.
  set (prev := ArchiveStore.profiles (ArchiveStore.state h)) in *.
  rewrite (filter_none (fun p => ArchiveStore.changedProfile prev p = true)); [reflexivity|].
  intros p Hp. apply list_elem_of_filter in Hp as [_ Hp].
  by rewrite (changedProfile_kept prev p Hnd Hp).
Qed.

Lemma deleteProfileById_is_remote_only_witness :
  let a := literal (Samples.person "a" "Ada") in
  let b := literal (Samples.person "b" "Bob") in
  let h := Samples.signedIn (ArchiveStore.setProfilesRaw [a; b] ArchiveStore.initialState) [] in
  NoDup (map idOf (ArchiveStore.profiles (ArchiveStore.state h)))
  ∧ ArchiveStore.inflight
      (foldl (fun h c => archiveCall c h) h (companion (CallDeleteProfileById "a")))
    = [ArchiveStore.DeleteProfilePush "a"].
Proof.
  intros a b h.
  assert (NoDup (map idOf (ArchiveStore.profiles (ArchiveStore.state h)))) as Hnd.
  { simpl. apply NoDup_cons. split; [|apply NoDup_singleton].
    intros Hin. apply list_elem_of_singleton in Hin. discriminate. }
  split; [exact Hnd|].
  destruct (deleteProfileById_is_remote_only "a" h) as (_ & _ & _ & _ & Hpush).
  rewrite (Hpush Hnd). reflexivity.
Defined.

(** ** The session hook and the sign-in form *)

Lemma before_chars (sep : ascii) (s : string) :
  sep ∉ chars (Js.before sep s).
Proof.
  induction s as [|c s IH]; simpl; [by intros H; inversion H|].
  destruct (Ascii.eqb c sep) eqn:Hc; simpl; [by intros H; inversion H|].
  intros H. apply elem_of_cons in H as [->|H]; [|by apply IH].
  by rewrite Ascii.eqb_refl in Hc.
Qed.

Lemma before_prefix (sep : ascii) (s : string) :
  ∃ rest, s = Js.before sep s +:+ rest.
Proof.
  induction s as [|c s [rest IH]]; simpl; [by exists ""|].
  destruct (Ascii.eqb c sep); [by eexists|].
  exists rest. rewrite IH at 1. reflexivity.
Qed.

Lemma before_whole (sep : ascii) (s : string) :
  Js.before sep s = s ↔ sep ∉ chars s.
Proof.
  split.
  - intros <-. apply before_chars.
  - induction s as [|c s IH]; simpl; [reflexivity|]. intros Hout.
    destruct (Ascii.eqb c sep) eqn:Hc.
    + exfalso. apply Hout. apply Ascii.eqb_eq in Hc as ->. by left.
    + f_equal. apply IH. intros Hin. apply Hout. by right.
Qed.

(** X20: [sessionToUser] keeps the id, so the mapped user passes
    [assertAuthenticated] exactly when the session's user id is not empty. A
    display name in the metadata is the user's name as it is; without one the
    name is the part of the e-mail address before its first [@], a prefix of
    the address that holds no [@] and is the whole address exactly when the
    address has none; with neither, the name is [User]. *)
Theorem sessionToUser_name (session : Session.AuthUser) :
  let u := Session.sessionToUser session in
  u_id u = Session.au_id session
  ∧ (assertAuthenticated (Some u) = true ↔ Session.au_id session ≠ "")
  ∧ (∀ display_name, Session.au_display_name session = Some display_name →
                     u_name u = display_name)
  ∧ (∀ email, Session.au_display_name session = None →
              Session.au_email session = Some email →
              ("@"%char ∉ chars (u_name u))
              ∧ (∃ rest, email = u_name u +:+ rest)
              ∧ (u_name u = email ↔ "@"%char ∉ chars email))
  ∧ (Session.au_display_name session = None → Session.au_email session = None →
     u_name u = "User").
Proof.
  intros u. subst u. destruct session as [i e d c]. simpl.
  split; [reflexivity|]. split; [|split; [|split]].
  - destruct (decide (i = "")); split; congruence.
  - by intros n ->.
  - intros email -> ->. split; [apply before_chars|].
    split; [apply before_prefix | apply before_whole].
  - by intros -> ->.
Qed.

Lemma sessionToUser_name_witness :
  let session :=
    {| Session.au_id := "u1"; Session.au_email := Some "ada@example.org";
       Session.au_display_name := None; Session.au_created_at := "2024-01-01" |} in
  Session.au_display_name session = None
  ∧ Session.au_email session = Some "ada@example.org"
  ∧ "@"%char ∉ chars (u_name (Session.sessionToUser session)).
Proof.
  intros session. split; [reflexivity|]. split; [reflexivity|].
  destruct (sessionToUser_name session) as (_ & _ & _ & Hmail & _).
  by destruct (Hmail "ada@example.org" eq_refl eq_refl) as (Hat & _).
Defined.

(** X21: as long as no component uses the exposed [setView] or [setUser],
    the session hook never shows a view other than SPLASH or LOGIN while no
    user is signed in, whatever Supabase reports and in whatever order. *)
Theorem signed_out_views_are_gated (events : list Session.Event) :
  Forall (fun e => Session.internal e = true) events →
  let s := Session.run events Session.initialState in
  Session.user s = None → Session.view s = SPLASH ∨ Session.view s = LOGIN.
Proof.
  intros Hint.
  assert (∀ s0, (Session.user s0 = None →
                 Session.view s0 = SPLASH ∨ Session.view s0 = LOGIN) →
                Session.user (Session.run events s0) = None →
                Session.view (Session.run events s0) = SPLASH
                ∨ Session.view (Session.run events s0) = LOGIN) as Hgen.
  { induction Hint as [|e events He _ IH]; intros s0 Hs0; [exact Hs0|].
    unfold Session.run. simpl. apply IH.
    destruct e as [[a|]| |[a|]|u| | |]; simpl in *; try discriminate; auto.
    destruct (Session.splashTimer s0); simpl; auto. }
  apply Hgen. by left.
Qed.

Lemma signed_out_views_are_gated_witness :
  let ada :=
    {| Session.au_id := "u1"; Session.au_email := Some "ada@example.org";
       Session.au_display_name := None; Session.au_created_at := "2024-01-01" |} in
  let events :=
    [Session.GetSessionResolved None; Session.AuthStateChange (Some ada);
     Session.Logout; Session.SplashTimeout] in
  Forall (fun e => Session.internal e = true) events
  ∧ Session.user (Session.run events Session.initialState) = None
  ∧ (Session.view (Session.run events Session.initialState) = SPLASH
     ∨ Session.view (Session.run events Session.initialState) = LOGIN).
Proof.
  intros ada events.
  assert (Forall (fun e => Session.internal e = true) events) as Hint
    by (repeat constructor).
  split; [exact Hint|]. split; [reflexivity|].
  exact (signed_out_views_are_gated events Hint eq_refl).
Defined.

(** X22: [loading] is lowered by a restored session and by nothing else:
    events among which [getSession] never resolves with a session leave it as
    it was, so with no stored session it stays raised. The splash timer
    started in that case is never cancelled: when a sign-in is reported
    before it fires, the view ends on LOGIN with the user signed in. *)
Theorem loading_and_splash_timer (events : list Session.Event) (s : Session.State) :
  ((∀ session, Session.GetSessionResolved (Some session) ∉ events) →
   Session.loading (Session.run events s) = Session.loading s)
  ∧ (∀ session,
        Session.loading (Session.run [Session.GetSessionResolved (Some session)] s) = false)
  ∧ (∀ session,
        let s' :=
          Session.run
            [Session.GetSessionResolved None; Session.AuthStateChange (Some session);
             Session.SplashTimeout] s in
        Session.view s' = LOGIN
        ∧ Session.user s' = Some (Session.sessionToUser session)).
Proof.
  split; [|split; [reflexivity|by intros session]].
  revert s. induction events as [|e events IH]; intros s Hnone; [reflexivity|].
  unfold Session.run. simpl.
  transitivity (Session.loading (Session.step e s)).
  - apply IH. intros session Hin. apply (Hnone session). by right.
  - destruct e as [[a|]| |[a|]|u| | |]; simpl; try reflexivity.
    + exfalso. apply (Hnone a). by left.
    + by destruct (Session.splashTimer s).
Qed.

Lemma loading_and_splash_timer_witness :
  let events := [Session.GetSessionResolved None; Session.SplashTimeout] in
  (∀ session, Session.GetSessionResolved (Some session) ∉ events)
  ∧ Session.loading (Session.run events Session.initialState) = true.
Proof.
  intros events.
  assert (∀ session, Session.GetSessionResolved (Some session) ∉ events) as Hnone.
  { intros session Hin. apply elem_of_cons in Hin as [Hin|Hin]; [discriminate|].
    apply list_elem_of_singleton in Hin. discriminate. }
  split; [exact Hnone|].
  destruct (loading_and_splash_timer events Session.initialState) as (Hkeep & _).
  rewrite (Hkeep Hnone). reflexivity.
Defined.

(** X23: the two form handlers call Supabase at most once, and not at all
    unless e-mail and password are filled in and, for a sign-up, the password
    has at least 8 characters. The call carries the trimmed e-mail and the
    password as typed. After a call [isLoading] is lowered on every path;
    [onLogin] is called exactly when the reply carries a session, with the id
    Supabase returned; and no handler changes what was typed. *)
Theorem auth_handlers (auth : Session.AuthCall → Session.AuthReply) (f : Session.Form) :
  let filled := Session.email f ≠ "" ∧ Session.password f ≠ "" in
  let signedIn := Session.handleSignIn auth f in
  let signedUp := Session.handleSignUp auth f in
  let signInCall := Session.SignInWithPassword (Js.trim (Session.email f)) (Session.password f) in
  Session.calls signedIn = (if decide filled then [signInCall] else [])
  ∧ (∃ name,
        Session.calls signedUp
        = (if decide (filled ∧ 8 ≤ String.length (Session.password f))
           then [Session.SignUp (Js.trim (Session.email f)) (Session.password f) name]
           else [])
        ∧ (Js.trim (Session.displayName f) ≠ "" → name = Js.trim (Session.displayName f)))
  ∧ (∀ h, h = signedIn ∨ h = signedUp →
          (Session.calls h ≠ [] → Session.isLoading (Session.form h) = false)
          ∧ (Session.calls h = [] →
             Session.isLoading (Session.form h) = Session.isLoading f
             ∧ Session.error (Session.form h) ≠ "" ∧ Session.onLogin h = None)
          ∧ Session.email (Session.form h) = Session.email f
          ∧ Session.password (Session.form h) = Session.password f
          ∧ Session.displayName (Session.form h) = Session.displayName f
          ∧ Session.mode (Session.form h) = Session.mode f)
  ∧ (∀ u, Session.onLogin signedIn = Some u ↔
          filled ∧ ∃ a, auth signInCall = Session.WithSession a
                        ∧ u = Session.sessionToUser a)
  ∧ (∀ u, Session.onLogin signedUp = Some u →
          ∃ call a, Session.calls signedUp = [call] ∧ auth call = Session.WithSession a
                    ∧ u_id u = Session.au_id a).
Proof.
  intros filled signedIn signedUp signInCall.
  subst filled signedIn signedUp signInCall.
  unfold Session.handleSignIn, Session.handleSignUp.
  split; [|split; [|split; [|split]]].
  - destruct (decide (Session.email f = "" ∨ Session.password f = "")) as [He|He].
    + rewrite decide_False by tauto. reflexivity.
    + rewrite decide_True by tauto.
      by destruct (auth _).
  - exists (if decide (Js.trim (Session.displayName f) = "")
            then Js.before "@" (Session.email f)
            else Js.trim (Session.displayName f)).
    split; [|intros Hn; by destruct (decide (Js.trim (Session.displayName f) = ""))].
    destruct (decide (Session.email f = "" ∨ Session.password f = "")) as [He|He].
    + destruct (decide (_ ∧ _)) as [Hyes|_]; [tauto|reflexivity].
    + destruct (decide (String.length (Session.password f) < 8)) as [Hp|Hp].
      * destruct (decide (_ ∧ _)) as [Hyes|_]; [lia|reflexivity].
      * destruct (decide (_ ∧ _)) as [_|Hno]; [by destruct (auth _)|].
        exfalso. apply Hno. split; [tauto|lia].
  - intros h [->| ->];
      destruct (decide (Session.email f = "" ∨ Session.password f = "")) as [He|He];
      try destruct (decide (String.length (Session.password f) < 8)) as [Hp|Hp];
      try destruct (auth _); simpl; repeat split; try done.
  - intros u.
    destruct (decide (Session.email f = "" ∨ Session.password f = "")) as [He|He]; simpl.
    + split; [discriminate|]. intros [? _]. tauto.
    + destruct (auth _) as [m|o|a] eqn:Hreply; simpl; split;
        try discriminate; try (intros (_ & a' & Ha & _); discriminate).
      * intros [= <-]. split; [tauto|]. by exists a.
      * intros (_ & a' & [= <-] & ->). reflexivity.
  - intros u.
    destruct (decide (Session.email f = "" ∨ Session.password f = "")) as [He|He];
      [discriminate|].
    destruct (decide (String.length (Session.password f) < 8)) as [Hp|Hp]; [discriminate|].
    destruct (auth _) as [m|o|a] eqn:Hreply; simpl; try discriminate.
    intros [= <-]. eexists _, a. split; [reflexivity|]. split; [exact Hreply|reflexivity].
Qed.

Lemma auth_handlers_witness :
  let ada :=
    {| Session.au_id := "u1"; Session.au_email := Some "ada@example.org";
       Session.au_display_name := None; Session.au_created_at := "2024-01-01" |} in
  let f :=
    {| Session.email := " ada@example.org "; Session.password := "secret";
       Session.displayName := ""; Session.showPassword := false;
       Session.isLoading := false; Session.error := ""; Session.mode := Session.signin |} in
  let h := Session.handleSignIn (fun _ => Session.WithSession ada) f in
  Session.calls h ≠ []
  ∧ Session.isLoading (Session.form h) = false
  ∧ Session.calls h = [Session.SignInWithPassword "ada@example.org" "secret"].
Proof.
  intros ada f h.
  destruct (auth_handlers (fun _ => Session.WithSession ada) f)
    as (Hcalls & _ & Hpaths & _).
  assert (Session.calls h ≠ []) as Hcalled by (subst h; rewrite Hcalls; discriminate).
  split; [exact Hcalled|].
  destruct (Hpaths h (or_introl eq_refl)) as (Hlow & _).
  split; [exact (Hlow Hcalled)|]. subst h. rewrite Hcalls. reflexivity.
Defined.

(** ** The serverless function (api/gemini.ts) *)

Section GeminiFunction.
Import GeminiApi.

Lemma validAction_name (a : string) (known : GeminiAction) :
  validAction a = Some known ↔ actionName known = a.
Proof.
  unfold validAction, VALID_ACTIONS. simpl. split.
  - repeat case_bool_decide; intros [= <-]; assumption.
  - intros <-. by destruct known.
Qed.

Lemma length_zero (s : string) : String.length s = 0 ↔ s = "".
Proof. destruct s; simpl; split; intros H; congruence. Qed.

Lemma validate_rejects (body : option Json.value) (e : Thrown) :
  validate body = inl e → ∃ message, e = RequestError 400 message.
Proof.
  unfold validate. intros H.
  repeat match type of H with
         | context [match ?x with _ => _ end] => destruct x
         end; try discriminate; injection H as <-; eauto.
Qed.

Lemma dispatch_throws (ai : GoogleGenAI) (request : GeminiRequest) (e : Thrown) :
  snd (dispatch ai request) = inl e →
  (∃ err, e = OtherError err ∧ ai (fst (dispatch ai request)) = inl err)
  ∨ (e = RequestError 502 "Gemini did not return an image." ∧ action request = portrait).
Proof.
  unfold dispatch. destruct (action request); simpl.
  - destruct (ai _) as [err|r]; [|discriminate]. intros [= <-]. left. eauto.
  - destruct (ai _) as [err|r]; [|discriminate]. intros [= <-]. left. eauto.
  - destruct (ai _) as [err|r]; [intros [= <-]; left; eauto|].
    destruct (firstImageOf _); [discriminate|]. intros [= <-]. by right.
Qed.

End GeminiFunction.

Lemma validate_accepted (body : option Json.value) (request : GeminiApi.GeminiRequest) :
  GeminiApi.validate body = inr request ↔
  ∃ members,
    body = Some (Json.JObj members)
    ∧ GeminiApi.member "action" members
      = Some (Json.JStr (GeminiApi.actionName (GeminiApi.action request)))
    ∧ GeminiApi.member "prompt" members = Some (Json.JStr (GeminiApi.prompt request))
    ∧ Js.trim (GeminiApi.prompt request) ≠ ""
    ∧ (N.of_nat (String.length (GeminiApi.prompt request)) ≤ GeminiApi.MAX_PROMPT_LENGTH)%N.
Proof.
  split.
  - unfold GeminiApi.validate. intros H.
    destruct body as [[| | | | |members]|]; try discriminate.
    exists members. split; [reflexivity|].
    destruct (GeminiApi.member "action" members) as [[| | |a| |]|]; try discriminate.
    destruct (GeminiApi.validAction a) as [known|] eqn:Hknown; [|discriminate].
    apply validAction_name in Hknown.
    destruct (GeminiApi.member "prompt" members) as [[| | |p| |]|]; try discriminate.
    destruct (decide (String.length (Js.trim p) = 0)) as [|Hblank]; [discriminate|].
    destruct (decide (GeminiApi.MAX_PROMPT_LENGTH < N.of_nat (String.length p))%N)
      as [|Hlen]; [discriminate|].
    injection H as <-. simpl. rewrite Hknown.
    split; [reflexivity|]. split; [reflexivity|].
    split; [by rewrite <- length_zero | lia].
  - intros (members & -> & Haction & Hprompt & Hblank & Hlen).
    unfold GeminiApi.validate. rewrite Haction, Hprompt.
    rewrite (proj2 (validAction_name _ (GeminiApi.action request)) eq_refl).
    rewrite decide_False by (by rewrite length_zero).
    rewrite decide_False by lia. by destruct request.
Qed.

(** X24: [validate] accepts a body exactly when it is an object whose
    [action] is one of the three action names, as a string, and whose
    [prompt] is a string that is not blank and has at most 8000 characters;
    the request it returns carries that action and that prompt unchanged.
    Whatever else it is given, it throws a [RequestError] with status 400. *)
Theorem validate_accepts (body : option Json.value) :
  (∀ request,
      GeminiApi.validate body = inr request ↔
      ∃ members,
        body = Some (Json.JObj members)
        ∧ GeminiApi.member "action" members
          = Some (Json.JStr (GeminiApi.actionName (GeminiApi.action request)))
        ∧ GeminiApi.member "prompt" members = Some (Json.JStr (GeminiApi.prompt request))
        ∧ Js.trim (GeminiApi.prompt request) ≠ ""
        ∧ (N.of_nat (String.length (GeminiApi.prompt request)) ≤ GeminiApi.MAX_PROMPT_LENGTH)%N)
  ∧ (∀ e, GeminiApi.validate body = inl e → ∃ message, e = GeminiApi.RequestError 400 message).
Proof.
  split; [intros request; apply validate_accepted | apply validate_rejects].
Qed.

Lemma validate_accepts_witness :
  let request := {| GeminiApi.action := GeminiApi.portrait; GeminiApi.prompt := "a portrait" |} in
  let body :=
    Json.JObj [("prompt", Json.JStr "ignored"); ("action", Json.JStr "portrait");
               ("prompt", Json.JStr "a portrait")] in
  GeminiApi.validate (Some body) = inr request.
Proof.
  intros request body.
  apply (proj1 (validate_accepts (Some body))).
  eexists. split; [reflexivity|]. repeat split; [discriminate|vm_compute; discriminate].
Defined.

(** X25: the status of the answer tells what happened. It is 405, with the
    [Allow: POST] header, exactly when the method is not POST; 500 exactly
    when the method is POST and the key is missing or empty; 400 exactly when
    method and key are in order and [validate] throws; 200 exactly when the
    request is valid and its helper returns, with the helper's result as the
    body; and 502 exactly when the helper throws. No other status is sent. *)
Theorem handler_status (GEMINI_API_KEY : option string) (ai : GeminiApi.GoogleGenAI)
    (req : GeminiApi.VercelRequest) :
  let h := GeminiApi.handler GEMINI_API_KEY ai req in
  let status := GeminiApi.status (GeminiApi.response h) in
  let ready :=
    GeminiApi.method req = "POST" ∧ ∃ apiKey, GEMINI_API_KEY = Some apiKey ∧ apiKey ≠ "" in
  (status = 405 ↔ GeminiApi.method req ≠ "POST")
  ∧ (GeminiApi.allow (GeminiApi.response h)
     = if decide (GeminiApi.method req = "POST") then None else Some "POST")
  ∧ (status = 500 ↔
     GeminiApi.method req = "POST" ∧ (GEMINI_API_KEY = None ∨ GEMINI_API_KEY = Some ""))
  ∧ (status = 400 ↔ ready ∧ ∃ e, GeminiApi.validate (GeminiApi.body req) = inl e)
  ∧ (status = 200 ↔
     ready ∧ ∃ request result,
               GeminiApi.validate (GeminiApi.body req) = inr request
               ∧ snd (GeminiApi.dispatch ai request) = inr result
               ∧ GeminiApi.json (GeminiApi.response h) = GeminiApi.responseJson result)
  ∧ (status = 502 ↔
     ready ∧ ∃ request e,
               GeminiApi.validate (GeminiApi.body req) = inr request
               ∧ snd (GeminiApi.dispatch ai request) = inl e)
  ∧ (status = 200 ∨ status = 400 ∨ status = 405 ∨ status = 500 ∨ status = 502).
Proof.
  intros h status ready. subst h status ready. unfold GeminiApi.handler.
  destruct (decide (GeminiApi.method req = "POST")) as [Hpost|Hpost]; simpl.
  2:{ repeat split; try discriminate; try tauto; try (by intros [? _]); auto. }
  destruct GEMINI_API_KEY as [apiKey|]; simpl.
  2:{ repeat split; try discriminate; try tauto; auto;
        try (by intros [_ (? & ? & _)]); by intros [(_ & ? & ? & _) _]. }
  destruct (decide (apiKey = "")) as [->|Hkey]; simpl.
  { repeat split; try discriminate; try tauto; auto;
      by intros [(_ & ? & [= <-] & ?) _]. }
  assert (GeminiApi.method req = "POST" ∧ ∃ k, Some apiKey = Some k ∧ k ≠ "") as Hready
    by (split; [exact Hpost | by exists apiKey]).
  destruct (GeminiApi.validate (GeminiApi.body req)) as [e|request] eqn:Hv.
  - destruct (validate_rejects _ _ Hv) as [message ->]. simpl.
    repeat split; try discriminate; try tauto; eauto;
      try (intros [_ [[= ?]|[= ?]]]; done);
      try (by intros (_ & ? & ? & ? & _)).
  - destruct (GeminiApi.dispatch ai request) as [params [e|result]] eqn:Hd.
    + pose proof (dispatch_throws ai request e) as Hthrown. rewrite Hd in Hthrown.
      destruct (Hthrown eq_refl) as [(err & -> & _)|[-> _]]; simpl;
        (repeat split; try discriminate; try tauto; auto;
         try (intros [_ [[= ?]|[= ?]]]; done);
         try (by intros (_ & ? & ?));
         try (intros (_ & r0 & res & [= <-] & Hr & _); rewrite Hd in Hr; discriminate);
         try (eexists _, _; split; [reflexivity|]; rewrite Hd; reflexivity)).
    + simpl. repeat split; try discriminate; try tauto; auto;
        try (intros [_ [[= ?]|[= ?]]]; done);
        try (by intros (_ & ? & ?));
        try (intros (_ & r0 & e & [= <-] & Hr); rewrite Hd in Hr; discriminate);
        try (eexists _, _; split; [reflexivity|]; rewrite Hd; split; reflexivity).
Qed.

(** X26: the model is called at most once, and only for a POST with a key
    and a body that [validate] accepted: with the accepted prompt, which is
    not blank and has at most 8000 characters, and with the model of the
    accepted action. When that call is rejected, the answer is the fixed 502
    message whatever the error was, and the error goes to the console only;
    an invocation that answers 200 logs nothing. *)
Theorem handler_guards_model (GEMINI_API_KEY : option string) (ai : GeminiApi.GoogleGenAI)
    (req : GeminiApi.VercelRequest) :
  let h := GeminiApi.handler GEMINI_API_KEY ai req in
  (GeminiApi.generated h = []
   ∨ ∃ request,
       GeminiApi.method req = "POST"
       ∧ (∃ apiKey, GEMINI_API_KEY = Some apiKey ∧ apiKey ≠ "")
       ∧ GeminiApi.validate (GeminiApi.body req) = inr request
       ∧ Js.trim (GeminiApi.prompt request) ≠ ""
       ∧ (N.of_nat (String.length (GeminiApi.prompt request)) ≤ GeminiApi.MAX_PROMPT_LENGTH)%N
       ∧ GeminiApi.generated h
         = [match GeminiApi.action request with
            | GeminiApi.summary =>
                {| GeminiApi.model := "gemini-2.0-flash";
                   GeminiApi.contents := GeminiApi.PlainText (GeminiApi.prompt request);
                   GeminiApi.googleSearch := false |}
            | GeminiApi.research =>
                {| GeminiApi.model := "gemini-2.5-pro-preview-05-06";
                   GeminiApi.contents := GeminiApi.PlainText (GeminiApi.prompt request);
                   GeminiApi.googleSearch := true |}
            | GeminiApi.portrait =>
                {| GeminiApi.model := "gemini-2.0-flash-preview-image-generation";
                   GeminiApi.contents := GeminiApi.TextPart (GeminiApi.prompt request);
                   GeminiApi.googleSearch := false |}
            end])
  ∧ (∀ params err,
        GeminiApi.generated h = [params] → ai params = inl err →
        GeminiApi.response h
        = {| GeminiApi.allow := None; GeminiApi.status := 502;
             GeminiApi.json :=
               GeminiApi.errorResponse "The AI service returned an error. Please try again." |}
        ∧ GeminiApi.console h = ["[/api/gemini] Gemini API error: " +:+ err])
  ∧ (GeminiApi.status (GeminiApi.response h) = 200 → GeminiApi.console h = []).
Proof.
  intros h. subst h. unfold GeminiApi.handler.
  destruct (decide (GeminiApi.method req = "POST")) as [Hpost|Hpost];
    [|split; [by left|split; [discriminate|reflexivity]]].
  destruct GEMINI_API_KEY as [apiKey|];
    [|split; [by left|split; [discriminate|discriminate]]].
  destruct (decide (apiKey = "")) as [->|Hkey];
    [split; [by left|split; [discriminate|discriminate]]|].
  destruct (GeminiApi.validate (GeminiApi.body req)) as [e|request] eqn:Hv.
  { destruct e; (split; [by left|split; [discriminate|]]); simpl; [|discriminate].
    intros ->. destruct (validate_rejects _ _ Hv) as [? [=]]. }
  destruct (proj1 (validate_accepted (GeminiApi.body req) request) Hv)
    as (members & _ & _ & _ & Hblank & Hlen).
  assert (fst (GeminiApi.dispatch ai request)
          = match GeminiApi.action request with
            | GeminiApi.summary =>
                {| GeminiApi.model := "gemini-2.0-flash";
                   GeminiApi.contents := GeminiApi.PlainText (GeminiApi.prompt request);
                   GeminiApi.googleSearch := false |}
            | GeminiApi.research =>
                {| GeminiApi.model := "gemini-2.5-pro-preview-05-06";
                   GeminiApi.contents := GeminiApi.PlainText (GeminiApi.prompt request);
                   GeminiApi.googleSearch := true |}
            | GeminiApi.portrait =>
                {| GeminiApi.model := "gemini-2.0-flash-preview-image-generation";
                   GeminiApi.contents := GeminiApi.TextPart (GeminiApi.prompt request);
                   GeminiApi.googleSearch := false |}
            end) as Hparams
    by (unfold GeminiApi.dispatch; by destruct (GeminiApi.action request)).
  pose proof (dispatch_throws ai request) as Hthrown.
  destruct (GeminiApi.dispatch ai request) as [params [e|result]] eqn:Hd; simpl in *.
  - destruct (Hthrown e eq_refl) as [(err & -> & Herr)|[-> Hportrait]]; simpl.
    + split; [right; exists request; rewrite <- Hparams; eauto 10|].
      split; [|discriminate]. intros ? err' [= <-] Herr'.
      rewrite Herr in Herr'. by injection Herr' as <-.
    + split; [right; exists request; rewrite <- Hparams; eauto 10|].
      split; [|discriminate]. intros ? err' [= <-] Herr'. exfalso.
      clear Hthrown. unfold GeminiApi.dispatch in Hd. rewrite Hportrait in Hd.
      unfold GeminiApi.runPortrait in Hd. injection Hd as Hp Hr. rewrite Hp in Hr.
      by rewrite Herr' in Hr.
  - split; [right; exists request; rewrite <- Hparams; eauto 10|].
    split; [|reflexivity]. intros ? err' [= <-] Herr'. exfalso.
    clear Hthrown. unfold GeminiApi.dispatch in Hd.
    destruct (GeminiApi.action request);
      [unfold GeminiApi.runSummary in Hd | unfold GeminiApi.runResearch in Hd
       | unfold GeminiApi.runPortrait in Hd];
      injection Hd as Hp Hr; rewrite Hp in Hr; by rewrite Herr' in Hr.
Qed.

Lemma handler_guards_model_witness :
  let ai : GeminiApi.GoogleGenAI := fun _ => inl "quota exceeded for key AIza" in
  let req :=
    {| GeminiApi.method := "POST";
       GeminiApi.body :=
         Some (Json.JObj [("action", Json.JStr "summary"); ("prompt", Json.JStr "a life")]) |} in
  let params :=
    {| GeminiApi.model := "gemini-2.0-flash"; GeminiApi.contents := GeminiApi.PlainText "a life";
       GeminiApi.googleSearch := false |} in
  GeminiApi.generated (GeminiApi.handler (Some "key") ai req) = [params]
  ∧ ai params = inl "quota exceeded for key AIza"
  ∧ GeminiApi.json (GeminiApi.response (GeminiApi.handler (Some "key") ai req))
    = GeminiApi.errorResponse "The AI service returned an error. Please try again.".
Proof.
  intros ai req params. split; [reflexivity|]. split; [reflexivity|].
  destruct (handler_guards_model (Some "key") ai req) as (_ & Hfixed & _).
  destruct (Hfixed params "quota exceeded for key AIza" eq_refl eq_refl) as [-> _].
  reflexivity.
Defined.

(** X27: [runPortrait] returns the first non-empty inline data in the order
    of the candidates and, within a candidate, of its parts, candidates
    without content or parts counting as empty; it throws the 502
    [RequestError] exactly when the answer holds no such data, and it never
    returns an empty image. *)
Theorem runPortrait_first_image (ai : GeminiApi.GoogleGenAI) (prompt : string)
    (response : GeminiApi.GenerateContentResponse) :
  ai (fst (GeminiApi.runPortrait ai prompt)) = inr response →
  let images :=
    omap GeminiApi.imageOf
      (flat_map GeminiApi.partsOf (default [] (GeminiApi.candidates response))) in
  snd (GeminiApi.runPortrait ai prompt)
  = match images with
    | d :: _ => inr (GeminiApi.PortraitResponse d)
    | [] => inl (GeminiApi.RequestError 502 "Gemini did not return an image.")
    end
  ∧ Forall (fun d => d ≠ "") images.
Proof.
  intros Hai images. subst images. unfold GeminiApi.runPortrait in *. simpl in *.
  rewrite Hai.
  assert (∀ ps rest,
            head (omap GeminiApi.imageOf (ps ++ rest))
            = match GeminiApi.firstImage ps with
              | Some d => Some d
              | None => head (omap GeminiApi.imageOf rest)
              end) as Hparts.
  { induction ps as [|p ps IH]; intros rest; simpl; [reflexivity|].
    destruct (GeminiApi.imageOf p); simpl; [reflexivity|apply IH]. }
  assert (∀ cs, GeminiApi.firstImageOf cs
                = head (omap GeminiApi.imageOf (flat_map GeminiApi.partsOf cs))) as Hloop.
  { induction cs as [|c cs IH]; simpl; [reflexivity|].
    rewrite Hparts, IH. reflexivity. }
  rewrite Hloop. split.
  - by destruct (omap _ _).
  - apply Forall_forall. intros d Hd. apply list_elem_of_omap in Hd as (p & _ & Hp).
    unfold GeminiApi.imageOf in Hp.
    destruct (GeminiApi.inlineData p ≫= GeminiApi.data) as [d'|]; [|discriminate].
    destruct (decide (d' = "")); [discriminate|]. congruence.
Qed.

Lemma runPortrait_first_image_witness :
  let blank := {| GeminiApi.inlineData := Some {| GeminiApi.data := Some "" |} |} in
  let image := {| GeminiApi.inlineData := Some {| GeminiApi.data := Some "iVBOR" |} |} in
  let response :=
    {| GeminiApi.text := None;
       GeminiApi.candidates :=
         Some [{| GeminiApi.content := None; GeminiApi.groundingMetadata := None |};
               {| GeminiApi.content := Some {| GeminiApi.parts := Some [blank; image] |};
                  GeminiApi.groundingMetadata := None |}] |} in
  let ai : GeminiApi.GoogleGenAI := fun _ => inr response in
  ai (fst (GeminiApi.runPortrait ai "a portrait")) = inr response
  ∧ snd (GeminiApi.runPortrait ai "a portrait") = inr (GeminiApi.PortraitResponse "iVBOR").
Proof.
  intros blank image response ai. split; [reflexivity|].
  destruct (runPortrait_first_image ai "a portrait" response eq_refl) as [-> _].
  reflexivity.
Defined.

(** ** The browser side against the function (services/gemini.ts) *)

Lemma trim_kept (c : ascii) (s : string) :
  Js.is_space c = false → Js.trim (String c s) ≠ "".
Proof.
  intros Hc. unfold Js.trim. simpl. rewrite Hc. simpl.
  destruct (Js.trimEnd s); [by rewrite Hc|discriminate].
Qed.

(** X28: what [callGemini] sends is what the function accepts. It is a
    POST to the endpoint, and whatever value the server reads back from the
    JSON text of its body is an object that [validate] accepts, with the same
    action and prompt, exactly when the prompt is not blank and has at most
    8000 characters; the action is never the reason for a refusal. The
    prompt of [generateAiPortrait] is never blank, so its request is refused
    only for its length. *)
Theorem client_requests_validate (action : GeminiApi.GeminiAction) (prompt : string)
    (received : Json.value) :
  stringify received = GeminiClient.body (GeminiClient.callGemini action prompt) →
  GeminiClient.method (GeminiClient.callGemini action prompt) = "POST"
  ∧ GeminiClient.url (GeminiClient.callGemini action prompt) = "/api/gemini"
  ∧ (GeminiApi.validate (Some received)
     = inr {| GeminiApi.action := action; GeminiApi.prompt := prompt |}
     ↔ Js.trim prompt ≠ ""
       ∧ (N.of_nat (String.length prompt) ≤ GeminiApi.MAX_PROMPT_LENGTH)%N)
  ∧ (∀ e, GeminiApi.validate (Some received) = inl e →
          Js.trim prompt = ""
          ∨ (GeminiApi.MAX_PROMPT_LENGTH < N.of_nat (String.length prompt))%N)
  ∧ (∀ profile, prompt = GeminiClient.portraitPrompt profile → Js.trim prompt ≠ "").
Proof.
  intros Hreceived. apply JsonFacts.stringify_inj in Hreceived. subst received.
  split; [reflexivity|]. split; [reflexivity|]. split; [|split].
  - split.
    + intros Hv. apply validate_accepted in Hv.
      destruct Hv as (_ & _ & _ & _ & Hblank & Hlen). by split.
    + intros [Hblank Hlen]. apply validate_accepted.
      eexists. split; [reflexivity|]. simpl.
      split; [by destruct action|]. split; [by destruct action|]. by split.
  - intros e He.
    destruct (decide (Js.trim prompt = "")) as [|Hblank]; [by left|]. right.
    destruct (decide (GeminiApi.MAX_PROMPT_LENGTH < N.of_nat (String.length prompt))%N)
      as [|Hlen]; [done|]. exfalso.
    assert (GeminiApi.validate
              (Some (Json.JObj [("action", Json.JStr (GeminiApi.actionName action));
                                ("prompt", Json.JStr prompt)]))
            = inr {| GeminiApi.action := action; GeminiApi.prompt := prompt |}) as Hok.
    { apply validate_accepted. eexists. split; [reflexivity|]. simpl.
      split; [by destruct action|]. split; [by destruct action|]. split; [done|lia]. }
    rewrite Hok in He. discriminate.
  - intros profile ->. unfold GeminiClient.portraitPrompt. simpl. by apply trim_kept.
Qed.

Lemma client_requests_validate_witness :
  let sent := GeminiClient.callGemini GeminiApi.research "Paris, 1900" in
  let received :=
    Json.JObj [("action", Json.JStr "research"); ("prompt", Json.JStr "Paris, 1900")] in
  stringify received = GeminiClient.body sent
  ∧ GeminiApi.validate (Some received)
    = inr {| GeminiApi.action := GeminiApi.research; GeminiApi.prompt := "Paris, 1900" |}.
Proof.
  intros sent received. split; [reflexivity|].
  destruct (client_requests_validate GeminiApi.research "Paris, 1900" received eq_refl)
    as (_ & _ & Hiff & _).
  apply Hiff. split; [discriminate|vm_compute; discriminate].
Defined.

(** ** The post mappers under [createPost] (lib/mappers.ts, repos/postRepo.ts) *)

(** X29: writing a post with [postToInsert] and reading the stored row back
    with [rowToPost] and the post's own tagged ids gives the post again with
    the creation time of the row. So when the store accepts the insert and
    returns the columns it was sent, [createPost] returns the post it was
    given with the row's creation time, whether or not the mention rows could
    be written. *)
Theorem createPost_returns_post {Σ : Type} (sb : Remote Σ) (post : CirclePost)
    (w w1 : World Σ) (data : PostRow) :
  send sb (PostsInsertSingle (postToInsert post)) w = (Success data, w1) →
  por_cols data = postToInsert post →
  rowToPost data (cp_taggedProfileIds post)
  = {| cp_id := cp_id post; cp_userId := cp_userId post;
       cp_createdAt := por_created_at data; cp_authorLabel := cp_authorLabel post;
       cp_body := cp_body post; cp_attachments := cp_attachments post;
       cp_taggedProfileIds := cp_taggedProfileIds post |}
  ∧ fst (createPost sb post w) = Returned (rowToPost data (cp_taggedProfileIds post))
  ∧ (por_created_at data = cp_createdAt post → fst (createPost sb post w) = Returned post).
Proof.
  intros Hsend Hcols.
  assert (rowToPost data (cp_taggedProfileIds post)
          = {| cp_id := cp_id post; cp_userId := cp_userId post;
               cp_createdAt := por_created_at data; cp_authorLabel := cp_authorLabel post;
               cp_body := cp_body post; cp_attachments := cp_attachments post;
               cp_taggedProfileIds := cp_taggedProfileIds post |}) as Hback
    by (unfold rowToPost; rewrite Hcols; reflexivity).
  split; [exact Hback|]. split; [by apply createPost_insert_accepted with w1|].
  intros Hcreated. rewrite (createPost_insert_accepted sb post w w1 data Hsend), Hback, Hcreated.
  by destruct post.
Qed.

Lemma createPost_returns_post_witness :
  let post := Samples.post "p" ["a"] in
  let w := Samples.world [false; true] in
  ∃ data w1,
    send Samples.scripted (PostsInsertSingle (postToInsert post)) w = (Success data, w1)
    ∧ por_cols data = postToInsert post
    ∧ cp_taggedProfileIds (rowToPost data (cp_taggedProfileIds post)) = ["a"]
    ∧ ∃ saved, fst (createPost Samples.scripted post w) = Returned saved.
Proof.
  intros post w. eexists _, _. split; [reflexivity|]. split; [reflexivity|].
  match goal with
  | |- context [rowToPost ?d _] =>
      destruct (createPost_returns_post Samples.scripted post w _ d eq_refl eq_refl)
        as (Hback & Hret & _)
  end.
  split; [by rewrite Hback|]. eexists. exact Hret.
Defined.

(** ** Listing media (repos/mediaRepo.ts) *)

Section MediaListingFacts.
Context {Σ : Type} (sb : Remote Σ).

Lemma signedOrEmpty_returns (r : MediaRow) (w : World Σ) :
  let asked :=
    send sb (StorageCreateSignedUrl BUCKET (mr_storage_path r) SIGNED_URL_EXPIRY_SECONDS) w in
  signedOrEmpty sb r w = (Returned (urlOrEmpty (fst asked)), snd asked)
  ∧ map request (trace (snd asked))
    = map request (trace w)
        ++ [StorageCreateSignedUrl BUCKET (mr_storage_path r) SIGNED_URL_EXPIRY_SECONDS]
  ∧ console (snd asked) = console w.
Proof.
  intros asked. subst asked.
  unfold signedOrEmpty, catch, getSignedUrl, bind, perform.
  match goal with
  | |- context [send sb ?q w] =>
      pose proof (send_requests sb q w) as Ht; pose proof (send_console sb q w) as Hc;
      destruct (send sb q w) as [[url|e] w1]
  end; simpl in *.
  - destruct (decide (url = "")) as [->|_]; by repeat split.
  - by repeat split.
Qed.

Lemma signAll_returns (rows : list MediaRow) (w : World Σ) :
  ∃ w',
    signAll sb rows w = (Returned (map urlOrEmpty (signReplies sb rows w)), w')
    ∧ length (signReplies sb rows w) = length rows
    ∧ map request (trace w')
      = map request (trace w)
          ++ map (fun r => StorageCreateSignedUrl BUCKET (mr_storage_path r)
                             SIGNED_URL_EXPIRY_SECONDS) rows
    ∧ console w' = console w.
Proof.
  revert w. induction rows as [|r rows IH]; intros w; simpl.
  - exists w. by rewrite app_nil_r.
  - unfold bind.
    destruct (signedOrEmpty_returns r w) as (-> & Ht & Hc).
    destruct (send sb _ w) as [reply w1]. simpl in *.
    destruct (IH w1) as (w2 & -> & Hlen & Ht2 & Hc2).
    exists w2. split; [reflexivity|]. split; [by rewrite Hlen|].
    split; [|congruence]. rewrite Ht2, Ht, <- app_assoc. reflexivity.
Qed.

Lemma imap_lookup_zip {A B C : Type} (f : A → B → C) (d : B) (xs : list A) (ys : list B) :
  length ys = length xs →
  imap (fun i x => f x (default d (ys !! i))) xs = zip_with f xs ys.
Proof.
  revert ys. induction xs as [|x xs IH]; intros [|y ys] Hlen; simpl in *;
    try reflexivity; try discriminate.
  f_equal. rewrite <- IH by lia. apply imap_ext. reflexivity.
Qed.

End MediaListingFacts.

(** X30: once its select has been accepted, [listMedia] cannot fail: it
    asks for one signed URL per row, in row order and with the 3600 second
    expiry, and returns one item per row in the same order, each built from
    its own row and from the answer to its own request: the signed URL when
    the store granted one, the empty string when the request was refused or
    the URL came back empty. Nothing is logged. When the select is refused it
    throws without asking for any URL. *)
Theorem listMedia_tolerates_unsigned {Σ : Type} (sb : Remote Σ)
    (reply : Response (list MediaRow)) (w : World Σ) :
  let res := listMedia_from sb reply w in
  match reply with
  | Success rows =>
      let answers := signReplies sb rows w in
      fst res = Returned (zip_with rowToMediaItem rows (map urlOrEmpty answers))
      ∧ length answers = length rows
      ∧ (∀ i row answer,
            rows !! i = Some row → answers !! i = Some answer →
            ∃ items,
              fst res = Returned items
              ∧ items !! i = Some (rowToMediaItem row (urlOrEmpty answer)))
      ∧ map request (trace (snd res))
        = map request (trace w)
            ++ map (fun r => StorageCreateSignedUrl BUCKET (mr_storage_path r) 3600) rows
      ∧ console (snd res) = console w
  | Failure error =>
      res = (Thrown ("listMedia: " +:+ message error), w)
  end.
Proof.
  intros res. subst res. destruct reply as [rows|error]; [|reflexivity].
  unfold listMedia_from, bind.
  destruct (signAll_returns sb rows w) as (w' & -> & Hlen & Ht & Hc). simpl.
  rewrite (imap_lookup_zip rowToMediaItem "" rows (map urlOrEmpty (signReplies sb rows w)))
    by (by rewrite length_map).
  split; [reflexivity|]. split; [exact Hlen|]. split; [|split; [exact Ht|exact Hc]].
  intros i row answer Hrow Hanswer. eexists. split; [reflexivity|].
  rewrite lookup_zip_with, Hrow. simpl.
  by rewrite list_lookup_fmap, Hanswer.
Qed.
